(** * Flappy-Bird DQN demo: the training loop, the replay buffer and the
      environment adapter

    A shallow embedding of [js/game.js], [js/environment.js], [js/agent.js]
    and of the [reset] handler of the entry script that builds
    [FlappyBirdDQN], followed by the properties of the training subsystem.

    Conventions of the embedding.
    - A JavaScript number that holds a count or a pixel column (tube
      coordinates, the score, step counters, capacities) is an integer
      ([Z] or [nat]); every other number (positions, speeds, rewards,
      rates) is an exact rational [Q].  Rounding of binary floating point
      is not represented.
    - [Math.random()] reads the head of a tape of rationals carried by the
      state; past the end of the tape every draw is [0].
    - A method that mutates [this] is a function from the old object to the
      new one. *)

From Stdlib Require Import QArith Qround ZArith Lia Lqa Bool.
From stdpp Require Import base relations list gmap.

Local Open Scope Q_scope.

(** ** Numbers *)

Definition Qltb (a b : Q) : bool := negb (Qle_bool b a).

(** [Math.floor] and [Math.round] (round half up). *)
Definition Math_floor (q : Q) : Z := Qfloor q.
Definition Math_round (q : Q) : Z := Qfloor (q + (1 # 2)).

(** [Math.max] on two numbers. *)
Definition Math_max (a b : Q) : Q := if Qltb a b then b else a.

(** [Math.abs]. *)
Definition Math_abs (a : Q) : Q := if Qltb a 0 then - a else a.

(** The tape of upcoming [Math.random()] results. *)
Definition Math_random (tape : list Q) : Q * list Q :=
  match tape with
  | [] => (0, [])
  | r :: t => (r, t)
  end.

(** A draw of [Math.random()] lies in [[0, 1)]. *)
Definition unit_draw (r : Q) : bool := Qle_bool 0 r && Qltb r 1.
Definition valid_tape (tape : list Q) : bool := forallb unit_draw tape.

(** The integers [lo], [lo+1], ..., [hi-1]: the values of the counter of
    [for (let v = lo; v < hi; v++)]. *)
Definition Zrange (lo hi : Z) : list Z :=
  map (fun k => (lo + Z.of_nat k)%Z) (seq 0 (Z.to_nat (hi - lo))).

(** ** game.js: the simulation *)

Module Game.

Inductive GameState := HOME | PLAYING | GAME_OVER.

Definition GameState_eqb (a b : GameState) : bool :=
  match a, b with
  | HOME, HOME | PLAYING, PLAYING | GAME_OVER, GAME_OVER => true
  | _, _ => false
  end.

(** One pipe: [x] is the left column of the sprite, [y] its top row. *)
Record Tube := { x : Z; y : Z }.

(** An alpha mask built by [buildAlphaMaskFromSprite]: [mask] holds
    [w * h] booleans in row order. *)
Record Mask := { mask : list bool; w : Z; h : Z }.

(** What the [onload] handler of the sprite sheet stores in one go:
    one mask per bird frame and the mask of the pipe sprite.  The pixels
    come from the image and are a parameter of the model. *)
Record Sprites := { birdMasks : Mask * Mask * Mask; tubeMask : Mask }.

(** [birdFrame]: a counter that every update increments modulo 3. *)
Inductive Frame := F0 | F1 | F2.

Definition next_frame (f : Frame) : Frame :=
  match f with F0 => F1 | F1 => F2 | F2 => F0 end.

(** The fields of [Game] that change after construction.  The array
    [tubes] is never empty ([resetTubes], its only writer, fills the
    indices 0 and 1), so it is kept as its first element and the rest.
    [sprites] is [None] until the sprite sheet has loaded
    ([spriteLoaded] unset, [tubeMask] null, [birdMasks] empty). *)
Record Game := {
  birdY : Q;
  birdYSpeed : Q;
  birdFrame : Frame;
  tubes : Tube * list Tube;
  gameState : GameState;
  score : Z;
  groundX : Z;
  sprites : option Sprites;
  rand : list Q
}.

(** Constants set once by the constructor. *)
Definition width : Z := 32.
Definition height : Z := 32.
Definition birdX : Z := 5.
Definition birdWidth : Z := 5.
Definition birdHeight : Z := 3.
Definition gravity : Q := 1 # 4.
Definition tubeWidth : Z := 6.
Definition tubeGap : Z := 12.
Definition bgLoc_width : Z := 32.
Definition groundLoc_width : Z := 35.

Definition tube_list (g : Game) : list Tube := fst (tubes g) :: snd (tubes g).

(** [setTubeY(tube)]: a gap centre drawn in the play area, and the top of
    the sprite computed back from it.  Returns the tube and the tape. *)
Definition setTubeY (tube : Tube) (tape : list Q) : Tube * list Q :=
  let gapHalf := inject_Z tubeGap / 2 in
  let minGapCenter := 4 + gapHalf in
  let maxGapCenter := inject_Z height - 1 - 4 - gapHalf in
  let '(r, tape') := Math_random tape in
  let gapCenter :=
    inject_Z (Math_floor (r * (maxGapCenter - minGapCenter + 1))) + minGapCenter in
  let spriteGapCenterOffset := 17 + 6 in
  ({| x := x tube; y := Math_round (gapCenter - spriteGapCenterOffset) |}, tape').

(** [resetTubes()]. *)
Definition resetTubes (g : Game) : Game :=
  let '(t0, tape0) := setTubeY {| x := Math_round (48 + 0 * 19); y := 0 |} (rand g) in
  let '(t1, tape1) := setTubeY {| x := Math_round (48 + 1 * 19); y := 0 |} tape0 in
  {| birdY := birdY g; birdYSpeed := birdYSpeed g; birdFrame := birdFrame g;
     tubes := (t0, [t1]); gameState := gameState g; score := score g;
     groundX := groundX g; sprites := sprites g; rand := tape1 |}.

(** [reset()]: a fresh game in the PLAYING state. *)
Definition reset (g : Game) : Game :=
  resetTubes
    {| birdY := 14; birdYSpeed := 0; birdFrame := F0; tubes := tubes g;
       gameState := PLAYING; score := 0; groundX := groundX g;
       sprites := sprites g; rand := rand g |}.

(** [initializeGame()]: a fresh game in the HOME state. *)
Definition initializeGame (g : Game) : Game :=
  resetTubes
    {| birdY := 14; birdYSpeed := 0; birdFrame := F0; tubes := tubes g;
       gameState := HOME; score := 0; groundX := groundX g;
       sprites := sprites g; rand := rand g |}.

(** [new Game(canvas)]: the fields of the constructor, then
    [initializeGame()], which fills [tubes].  [tape] is the tape of random
    draws of the game; the sprite sheet has not loaded yet. *)
Definition new (tape : list Q) : Game :=
  initializeGame
    {| birdY := 14; birdYSpeed := 0; birdFrame := F0;
       tubes := ({| x := 0; y := 0 |}, []);
       gameState := HOME; score := 0; groundX := 0;
       sprites := None; rand := tape |}.

(** The [onload] handler of the sprite sheet: the masks are there from
    now on. *)
Definition onload (s : Sprites) (g : Game) : Game :=
  {| birdY := birdY g; birdYSpeed := birdYSpeed g; birdFrame := birdFrame g;
     tubes := tubes g; gameState := gameState g; score := score g;
     groundX := groundX g; sprites := Some s; rand := rand g |}.

Definition set_state_speed (g : Game) (s : GameState) (v : Q) : Game :=
  {| birdY := birdY g; birdYSpeed := v; birdFrame := birdFrame g;
     tubes := tubes g; gameState := s; score := score g;
     groundX := groundX g; sprites := sprites g; rand := rand g |}.

(** [jump()]. *)
Definition jump (g : Game) : Game :=
  match gameState g with
  | HOME => set_state_speed g PLAYING (- (14 # 10))
  | PLAYING => set_state_speed g PLAYING (- (14 # 10))
  | GAME_OVER => g
  end.

(** [m.mask[i]] read as a condition: a missing entry is falsy. *)
Definition mask_at (m : Mask) (i : Z) : bool :=
  if (i <? 0)%Z then false else nth (Z.to_nat i) (mask m) false.

(** [birdMasks[birdFrame]]. *)
Definition bird_mask (s : Sprites) (frame : Frame) : Mask :=
  let '(m0, m1, m2) := birdMasks s in
  match frame with F0 => m0 | F1 => m1 | F2 => m2 end.

(** The body of the loop over the tubes in [checkCollision()]: does the
    bird, drawn at row [by_] with mask [bm], overlap this tube? *)
Definition hits (bm tm : Mask) (by_ : Z) (tube : Tube) : bool :=
  let bw := birdWidth in
  let bh := birdHeight in
  let tw := w tm in
  let th := h tm in
  let tx := x tube in
  let ty := y tube in
  let x0 := Z.max birdX tx in
  let y0 := Z.max by_ ty in
  let x1 := Z.min (birdX + bw) (tx + tw) in
  let y1 := Z.min (by_ + bh) (ty + th) in
  if ((x1 <=? x0) || (y1 <=? y0))%Z then false
  else
    existsb (fun yy =>
      let byRow := ((yy - by_) * w bm)%Z in
      let tyRow := ((yy - ty) * w tm)%Z in
      existsb (fun xx =>
        let bi := ((xx - birdX) + byRow)%Z in
        let ti := ((xx - tx) + tyRow)%Z in
        mask_at bm bi && mask_at tm ti) (Zrange x0 x1)) (Zrange y0 y1).

(** [checkCollision()]: the new [gameState].  Without sprites the method
    returns at once; the first overlapping pixel ends the game. *)
Definition checkCollision (g : Game) : GameState :=
  match sprites g with
  | None => gameState g
  | Some s =>
      let bm := bird_mask s (birdFrame g) in
      if existsb (hits bm (tubeMask s) (Math_floor (birdY g))) (tube_list g)
      then GAME_OVER else gameState g
  end.

(** The body of the loop over the tubes in [update()]: move the tube one
    column to the left, recycle it on the right when it has left the
    screen, and count a point when it passes the bird. *)
Definition move_tube (acc : list Tube * Z * list Q) (tube : Tube)
  : list Tube * Z * list Q :=
  let '(done, sc, tape) := acc in
  let x' := (x tube - 1)%Z in
  let '(tube', tape') :=
    if (x' <=? - tubeWidth)%Z
    then setTubeY {| x := 32; y := y tube |} tape
    else ({| x := x'; y := y tube |}, tape) in
  let sc' := if (x tube' =? birdX - tubeWidth)%Z then (sc + 1)%Z else sc in
  (done ++ [tube'], sc', tape').

Definition as_tubes (l : list Tube) (old : Tube * list Tube) : Tube * list Tube :=
  match l with
  | [] => old
  | t :: r => (t, r)
  end.

(** [update()]: one simulation tick. *)
Definition update (g : Game) : Game :=
  match gameState g with
  | HOME =>
      {| birdY := birdY g; birdYSpeed := birdYSpeed g;
         birdFrame := next_frame (birdFrame g);
         tubes := tubes g; gameState := HOME; score := score g;
         groundX := groundX g; sprites := sprites g; rand := rand g |}
  | GAME_OVER => g
  | PLAYING =>
      let y1 := birdY g + birdYSpeed g in
      let v1 := birdYSpeed g + gravity in
      let '(y2, v2) := if Qltb y1 0 then (0, 0) else (y1, v1) in
      let '(y3, st3) :=
        if (height - 1 <? Math_floor y2 + birdHeight)%Z
        then (inject_Z (height - birdHeight - 1), GAME_OVER)
        else (y2, PLAYING) in
      let '(ts, sc, tape) := fold_left move_tube (tube_list g) ([], score g, rand g) in
      let g4 :=
        {| birdY := y3; birdYSpeed := v2; birdFrame := birdFrame g;
           tubes := as_tubes ts (tubes g); gameState := st3; score := sc;
           groundX := groundX g; sprites := sprites g; rand := tape |} in
      let st5 := checkCollision g4 in
      let gx := (groundX g - 1)%Z in
      {| birdY := y3; birdYSpeed := v2;
         birdFrame := next_frame (birdFrame g);
         tubes := tubes g4; gameState := st5; score := sc;
         groundX := if (gx <? bgLoc_width - groundLoc_width)%Z then 0%Z else gx;
         sprites := sprites g; rand := tape |}
  end.

(** The body of the loop in [getClosestTube()]. *)
Definition closer (closest tube : Tube) : Tube :=
  if (birdX <? x tube + tubeWidth)%Z
  then if ((x tube <? x closest) || (x closest + tubeWidth <=? birdX))%Z
       then tube else closest
  else closest.

(** [getClosestTube()]: the tube that is closest ahead of the bird. *)
Definition getClosestTube (g : Game) : Tube :=
  fold_left closer (tube_list g) (fst (tubes g)).

(** *** Vocabulary of the statements about the game *)

(** The test of [getClosestTube()] for a tube that the bird has not left
    behind. *)
Definition ahead (t : Tube) : bool := (birdX <? x t + tubeWidth)%Z.

(** The layout that [resetTubes()] sets up and [update()] keeps: two
    tubes 19 columns apart, each between the column where it is recycled
    and the column where the second one starts, with the top of its sprite
    between the rows -13 and -2; the draws left on the tape are in
    [[0, 1)]. *)
Definition well_placed (g : Game) : Prop :=
  exists t0 t1,
    tubes g = (t0, [t1])
    /\ (-5 <= x t0 <= 67)%Z /\ (-5 <= x t1 <= 67)%Z
    /\ (x t1 - x t0 = 19 \/ x t0 - x t1 = 19)%Z
    /\ (-13 <= y t0 <= -2)%Z /\ (-13 <= y t1 <= -2)%Z
    /\ valid_tape (rand g) = true.

(** A pixel of the screen that is opaque both in the mask [bm] of the
    bird, drawn at column [birdX] and row [by_], and in the mask [tm] of
    the tube. *)
Definition overlap (bm tm : Mask) (by_ : Z) (tube : Tube) : Prop :=
  exists xx yy : Z,
    (birdX <= xx < birdX + birdWidth)%Z /\ (x tube <= xx < x tube + w tm)%Z
    /\ (by_ <= yy < by_ + birdHeight)%Z /\ (y tube <= yy < y tube + h tm)%Z
    /\ mask_at bm ((xx - birdX) + (yy - by_) * w bm) = true
    /\ mask_at tm ((xx - x tube) + (yy - y tube) * w tm) = true.

(** The three rows of the bird are on the screen, above its last row. *)
Definition on_screen (g : Game) : Prop :=
  0 <= birdY g /\ (Math_floor (birdY g) + birdHeight <= height - 1)%Z.

End Game.

(** ** environment.js: the adapter between the game and the agent *)

Module Environment.

(** [actionSpace]. *)
Definition STAY : nat := 0.
Definition JUMP : nat := 1.

Definition tubeUpperHeight : Z := 17.

(** [lastAction] is not set by the constructor: [None] is [undefined]. *)
Record Env := {
  game : Game.Game;
  previousScore : Z;
  lastAction : option nat
}.

(** What [step] returns. *)
Record StepResult := { state : list Q; reward : Q; done : bool }.

Definition is_action (a : option nat) (k : nat) : bool :=
  match a with
  | Some n => Nat.eqb n k
  | None => false
  end.

(** The vertical offset of the centre of the gap of the closest tube
    from the centre of the bird, as [getState] and [calculateReward]
    compute it. *)
Definition gap_offset (g : Game.Game) : Q :=
  let closestTube := Game.getClosestTube g in
  (inject_Z (Game.y closestTube) + inject_Z tubeUpperHeight
     + inject_Z Game.tubeGap / 2)
  - (Game.birdY g + inject_Z Game.birdHeight / 2).

(** [new Environment(game)]. *)
Definition new (g : Game.Game) : Env :=
  {| game := g; previousScore := 0; lastAction := None |}.

(** [getState()]: speed, distance to the tube, offset from the gap and
    height of the bird, each scaled. *)
Definition getState (e : Env) : list Q :=
  let g := game e in
  let closestTube := Game.getClosestTube g in
  [ Game.birdYSpeed g / 2;
    (inject_Z (Game.x closestTube) - inject_Z Game.birdX) / inject_Z Game.width;
    gap_offset g / inject_Z Game.height;
    Game.birdY g / inject_Z Game.height ].

(** [reset()]. *)
Definition reset (e : Env) : Env * list Q :=
  let e' := {| game := Game.reset (game e); previousScore := 0;
               lastAction := lastAction e |} in
  (e', getState e').

(** [calculateReward()]: the reward and the environment with
    [previousScore] brought up to date. *)
Definition calculateReward (e : Env) : Q * Env :=
  let g := game e in
  let reward0 : Q := 1 # 10 in
  let '(reward1, e1) :=
    if (previousScore e <? Game.score g)%Z
    then (5, {| game := g; previousScore := Game.score g;
                lastAction := lastAction e |})
    else (reward0, e) in
  match Game.gameState g with
  | Game.GAME_OVER =>
      let reward2 : Q := - 10 in
      let diffY := gap_offset g in
      if Qltb 0 diffY && is_action (lastAction e) JUMP then (reward2 - 5, e1)
      else if Qltb diffY 0 && is_action (lastAction e) STAY then (reward2 - 5, e1)
      else (reward2, e1)
  | _ =>
      let diffY := Math_abs (gap_offset g) in
      (reward1 - diffY * (1 # 100), e1)
  end.

(** [step(action)]. *)
Definition step (e : Env) (action : nat) : Env * StepResult :=
  let g1 := if Nat.eqb action JUMP then Game.jump (game e) else game e in
  let g2 := Game.update g1 in
  let e2 := {| game := g2; previousScore := previousScore e;
               lastAction := Some action |} in
  let '(r, e3) := calculateReward e2 in
  let nextState := getState e3 in
  let d := Game.GameState_eqb (Game.gameState (game e3)) Game.GAME_OVER in
  (e3, {| state := nextState; reward := r; done := d |}).

(** *** Vocabulary of the statements about the environment *)

(** The game after the jump, if any, of a step. *)
Definition jumped (e : Env) (action : nat) : Game.Game :=
  if Nat.eqb action JUMP then Game.jump (game e) else game e.

(** What [reset()] sets up and [step()] keeps. *)
Definition sound (e : Env) : Prop :=
  Game.well_placed (game e) /\ Game.on_screen (game e)
  /\ previousScore e = Game.score (game e).

End Environment.

(** ** agent.js: the trainer *)

(** What the agent asks of its environment: [reset()], [step(action)],
    the assignment to [lastAction] and the read of [game.score]. *)
Class EnvLike (E : Type) := {
  env_reset : E -> E * list Q;
  env_step : E -> nat -> E * Environment.StepResult;
  env_set_lastAction : E -> nat -> E;
  env_score : E -> Z
}.

(** What the agent asks of its value model.  [predict m s] is the row of
    action values that [predict([s])] holds; [update] is one fitting pass.
    The two target methods exist on the double variant only.  The network
    itself belongs to the tensor library and is a parameter. *)
Class ValueModel (M : Type) := {
  predict : M -> list Q -> list Q;
  update : M -> list (list Q) -> list (list Q) -> M;
  predictTarget : option (M -> list Q -> list Q);
  updateTarget : option (M -> M)
}.

#[global] Instance Environment_EnvLike : EnvLike Environment.Env := {
  env_reset := Environment.reset;
  env_step := Environment.step;
  env_set_lastAction e a :=
    {| Environment.game := Environment.game e;
       Environment.previousScore := Environment.previousScore e;
       Environment.lastAction := Some a |};
  env_score e := Game.score (Environment.game e)
}.

(** How a call ends: with a value, in a loop that never ends, or with an
    exception. *)
Inductive outcome (A : Type) :=
| Ret (a : A)
| Diverges
| Throws.
Arguments Ret {A} a.
Arguments Diverges {A}.
Arguments Throws {A}.

#[global] Instance outcome_bind : MBind outcome := fun A B k o =>
  match o with
  | Ret a => k a
  | Diverges => Diverges
  | Throws => Throws
  end.

(** [tensor.argMax(1)] and [tensor.max(1)] on a single row. *)
Fixpoint argMax_from (best : Q) (besti i : nat) (l : list Q) : nat :=
  match l with
  | [] => besti
  | v :: r => if Qltb best v then argMax_from v i (S i) r
              else argMax_from best besti (S i) r
  end.

Definition argMax (l : list Q) : nat :=
  match l with
  | [] => 0%nat
  | v :: r => argMax_from v 0%nat 1%nat r
  end.

Definition rowMax (l : list Q) : Q :=
  match l with
  | [] => 0
  | v :: r => fold_left Math_max r v
  end.

(** [a % b === 0] on counts: the remainder by zero is NaN. *)
Definition divides (b a : nat) : bool :=
  match b with
  | 0%nat => false
  | _ => Nat.eqb (a mod b) 0
  end.

Module Agent.
Section Trainer.

Context {E M : Type} `{EnvLike E} `{ValueModel M}.

(** One stored transition. *)
Record Experience := {
  state : list Q;
  action : nat;
  reward : Q;
  nextState : list Q;
  done : bool
}.

(** The locals of an episode, also the shape of [currentEpisodeState]. *)
Record EpisodeState := {
  ep_state : list Q;
  ep_done : bool;
  totalReward : Q;
  steps : nat
}.

(** The argument of [logCallback]. *)
Record LogEntry := {
  log_episode : nat;
  log_score : Z;
  log_reward : Q;
  log_epsilon : Q;
  log_steps : nat;
  log_memorySize : nat
}.

(** The optional fields of the constructor's [config]; [None] is an
    omitted field. *)
Record Config := {
  cfg_gamma : option Q;
  cfg_epsilon : option Q;
  cfg_epsilonDecay : option Q;
  cfg_epsilonMin : option Q;
  cfg_batchSize : option nat;
  cfg_memoryMaxLen : option nat;
  cfg_targetUpdateFreq : option nat
}.

(** The fields of an [Agent].  [trainingDelay] is 0 until [train] sets
    it; [logged] collects the arguments of the calls of [logCallback],
    latest first. *)
Record Agent := {
  env : E;
  model : M;
  gamma : Q;
  epsilon : Q;
  epsilonDecay : Q;
  epsilonMin : Q;
  batchSize : nat;
  memoryMaxLen : nat;
  targetUpdateFreq : nat;
  memory : list Experience;
  memoryIndex : nat;
  episode : nat;
  totalSteps : nat;
  isTraining : bool;
  currentEpisodeState : option EpisodeState;
  isPaused : bool;
  episodeRewards : list Q;
  episodeScores : list Z;
  episodeLengths : list nat;
  trainingDelay : nat;
  logged : list LogEntry
}.

Definition set_env (v : E) (a : Agent) : Agent :=
  {| env := v; model := model a; gamma := gamma a; epsilon := epsilon a;
     epsilonDecay := epsilonDecay a; epsilonMin := epsilonMin a;
     batchSize := batchSize a; memoryMaxLen := memoryMaxLen a;
     targetUpdateFreq := targetUpdateFreq a; memory := memory a;
     memoryIndex := memoryIndex a; episode := episode a;
     totalSteps := totalSteps a; isTraining := isTraining a;
     currentEpisodeState := currentEpisodeState a; isPaused := isPaused a;
     episodeRewards := episodeRewards a; episodeScores := episodeScores a;
     episodeLengths := episodeLengths a; trainingDelay := trainingDelay a;
     logged := logged a |}.

Definition set_model (v : M) (a : Agent) : Agent :=
  {| env := env a; model := v; gamma := gamma a; epsilon := epsilon a;
     epsilonDecay := epsilonDecay a; epsilonMin := epsilonMin a;
     batchSize := batchSize a; memoryMaxLen := memoryMaxLen a;
     targetUpdateFreq := targetUpdateFreq a; memory := memory a;
     memoryIndex := memoryIndex a; episode := episode a;
     totalSteps := totalSteps a; isTraining := isTraining a;
     currentEpisodeState := currentEpisodeState a; isPaused := isPaused a;
     episodeRewards := episodeRewards a; episodeScores := episodeScores a;
     episodeLengths := episodeLengths a; trainingDelay := trainingDelay a;
     logged := logged a |}.

Definition set_epsilon (v : Q) (a : Agent) : Agent :=
  {| env := env a; model := model a; gamma := gamma a; epsilon := v;
     epsilonDecay := epsilonDecay a; epsilonMin := epsilonMin a;
     batchSize := batchSize a; memoryMaxLen := memoryMaxLen a;
     targetUpdateFreq := targetUpdateFreq a; memory := memory a;
     memoryIndex := memoryIndex a; episode := episode a;
     totalSteps := totalSteps a; isTraining := isTraining a;
     currentEpisodeState := currentEpisodeState a; isPaused := isPaused a;
     episodeRewards := episodeRewards a; episodeScores := episodeScores a;
     episodeLengths := episodeLengths a; trainingDelay := trainingDelay a;
     logged := logged a |}.

Definition set_memory (v : list Experience) (a : Agent) : Agent :=
  {| env := env a; model := model a; gamma := gamma a; epsilon := epsilon a;
     epsilonDecay := epsilonDecay a; epsilonMin := epsilonMin a;
     batchSize := batchSize a; memoryMaxLen := memoryMaxLen a;
     targetUpdateFreq := targetUpdateFreq a; memory := v;
     memoryIndex := memoryIndex a; episode := episode a;
     totalSteps := totalSteps a; isTraining := isTraining a;
     currentEpisodeState := currentEpisodeState a; isPaused := isPaused a;
     episodeRewards := episodeRewards a; episodeScores := episodeScores a;
     episodeLengths := episodeLengths a; trainingDelay := trainingDelay a;
     logged := logged a |}.

Definition set_memoryIndex (v : nat) (a : Agent) : Agent :=
  {| env := env a; model := model a; gamma := gamma a; epsilon := epsilon a;
     epsilonDecay := epsilonDecay a; epsilonMin := epsilonMin a;
     batchSize := batchSize a; memoryMaxLen := memoryMaxLen a;
     targetUpdateFreq := targetUpdateFreq a; memory := memory a;
     memoryIndex := v; episode := episode a; totalSteps := totalSteps a;
     isTraining := isTraining a;
     currentEpisodeState := currentEpisodeState a; isPaused := isPaused a;
     episodeRewards := episodeRewards a; episodeScores := episodeScores a;
     episodeLengths := episodeLengths a; trainingDelay := trainingDelay a;
     logged := logged a |}.

Definition set_episode (v : nat) (a : Agent) : Agent :=
  {| env := env a; model := model a; gamma := gamma a; epsilon := epsilon a;
     epsilonDecay := epsilonDecay a; epsilonMin := epsilonMin a;
     batchSize := batchSize a; memoryMaxLen := memoryMaxLen a;
     targetUpdateFreq := targetUpdateFreq a; memory := memory a;
     memoryIndex := memoryIndex a; episode := v; totalSteps := totalSteps a;
     isTraining := isTraining a;
     currentEpisodeState := currentEpisodeState a; isPaused := isPaused a;
     episodeRewards := episodeRewards a; episodeScores := episodeScores a;
     episodeLengths := episodeLengths a; trainingDelay := trainingDelay a;
     logged := logged a |}.

Definition set_totalSteps (v : nat) (a : Agent) : Agent :=
  {| env := env a; model := model a; gamma := gamma a; epsilon := epsilon a;
     epsilonDecay := epsilonDecay a; epsilonMin := epsilonMin a;
     batchSize := batchSize a; memoryMaxLen := memoryMaxLen a;
     targetUpdateFreq := targetUpdateFreq a; memory := memory a;
     memoryIndex := memoryIndex a; episode := episode a; totalSteps := v;
     isTraining := isTraining a;
     currentEpisodeState := currentEpisodeState a; isPaused := isPaused a;
     episodeRewards := episodeRewards a; episodeScores := episodeScores a;
     episodeLengths := episodeLengths a; trainingDelay := trainingDelay a;
     logged := logged a |}.

Definition set_isTraining (v : bool) (a : Agent) : Agent :=
  {| env := env a; model := model a; gamma := gamma a; epsilon := epsilon a;
     epsilonDecay := epsilonDecay a; epsilonMin := epsilonMin a;
     batchSize := batchSize a; memoryMaxLen := memoryMaxLen a;
     targetUpdateFreq := targetUpdateFreq a; memory := memory a;
     memoryIndex := memoryIndex a; episode := episode a;
     totalSteps := totalSteps a; isTraining := v;
     currentEpisodeState := currentEpisodeState a; isPaused := isPaused a;
     episodeRewards := episodeRewards a; episodeScores := episodeScores a;
     episodeLengths := episodeLengths a; trainingDelay := trainingDelay a;
     logged := logged a |}.

Definition set_currentEpisodeState (v : option EpisodeState) (a : Agent) : Agent :=
  {| env := env a; model := model a; gamma := gamma a; epsilon := epsilon a;
     epsilonDecay := epsilonDecay a; epsilonMin := epsilonMin a;
     batchSize := batchSize a; memoryMaxLen := memoryMaxLen a;
     targetUpdateFreq := targetUpdateFreq a; memory := memory a;
     memoryIndex := memoryIndex a; episode := episode a;
     totalSteps := totalSteps a; isTraining := isTraining a;
     currentEpisodeState := v; isPaused := isPaused a;
     episodeRewards := episodeRewards a; episodeScores := episodeScores a;
     episodeLengths := episodeLengths a; trainingDelay := trainingDelay a;
     logged := logged a |}.

Definition set_isPaused (v : bool) (a : Agent) : Agent :=
  {| env := env a; model := model a; gamma := gamma a; epsilon := epsilon a;
     epsilonDecay := epsilonDecay a; epsilonMin := epsilonMin a;
     batchSize := batchSize a; memoryMaxLen := memoryMaxLen a;
     targetUpdateFreq := targetUpdateFreq a; memory := memory a;
     memoryIndex := memoryIndex a; episode := episode a;
     totalSteps := totalSteps a; isTraining := isTraining a;
     currentEpisodeState := currentEpisodeState a; isPaused := v;
     episodeRewards := episodeRewards a; episodeScores := episodeScores a;
     episodeLengths := episodeLengths a; trainingDelay := trainingDelay a;
     logged := logged a |}.

Definition set_episodeRewards (v : list Q) (a : Agent) : Agent :=
  {| env := env a; model := model a; gamma := gamma a; epsilon := epsilon a;
     epsilonDecay := epsilonDecay a; epsilonMin := epsilonMin a;
     batchSize := batchSize a; memoryMaxLen := memoryMaxLen a;
     targetUpdateFreq := targetUpdateFreq a; memory := memory a;
     memoryIndex := memoryIndex a; episode := episode a;
     totalSteps := totalSteps a; isTraining := isTraining a;
     currentEpisodeState := currentEpisodeState a; isPaused := isPaused a;
     episodeRewards := v; episodeScores := episodeScores a;
     episodeLengths := episodeLengths a; trainingDelay := trainingDelay a;
     logged := logged a |}.

Definition set_episodeScores (v : list Z) (a : Agent) : Agent :=
  {| env := env a; model := model a; gamma := gamma a; epsilon := epsilon a;
     epsilonDecay := epsilonDecay a; epsilonMin := epsilonMin a;
     batchSize := batchSize a; memoryMaxLen := memoryMaxLen a;
     targetUpdateFreq := targetUpdateFreq a; memory := memory a;
     memoryIndex := memoryIndex a; episode := episode a;
     totalSteps := totalSteps a; isTraining := isTraining a;
     currentEpisodeState := currentEpisodeState a; isPaused := isPaused a;
     episodeRewards := episodeRewards a; episodeScores := v;
     episodeLengths := episodeLengths a; trainingDelay := trainingDelay a;
     logged := logged a |}.

Definition set_episodeLengths (v : list nat) (a : Agent) : Agent :=
  {| env := env a; model := model a; gamma := gamma a; epsilon := epsilon a;
     epsilonDecay := epsilonDecay a; epsilonMin := epsilonMin a;
     batchSize := batchSize a; memoryMaxLen := memoryMaxLen a;
     targetUpdateFreq := targetUpdateFreq a; memory := memory a;
     memoryIndex := memoryIndex a; episode := episode a;
     totalSteps := totalSteps a; isTraining := isTraining a;
     currentEpisodeState := currentEpisodeState a; isPaused := isPaused a;
     episodeRewards := episodeRewards a; episodeScores := episodeScores a;
     episodeLengths := v; trainingDelay := trainingDelay a;
     logged := logged a |}.

Definition set_trainingDelay (v : nat) (a : Agent) : Agent :=
  {| env := env a; model := model a; gamma := gamma a; epsilon := epsilon a;
     epsilonDecay := epsilonDecay a; epsilonMin := epsilonMin a;
     batchSize := batchSize a; memoryMaxLen := memoryMaxLen a;
     targetUpdateFreq := targetUpdateFreq a; memory := memory a;
     memoryIndex := memoryIndex a; episode := episode a;
     totalSteps := totalSteps a; isTraining := isTraining a;
     currentEpisodeState := currentEpisodeState a; isPaused := isPaused a;
     episodeRewards := episodeRewards a; episodeScores := episodeScores a;
     episodeLengths := episodeLengths a; trainingDelay := v;
     logged := logged a |}.

Definition set_logged (v : list LogEntry) (a : Agent) : Agent :=
  {| env := env a; model := model a; gamma := gamma a; epsilon := epsilon a;
     epsilonDecay := epsilonDecay a; epsilonMin := epsilonMin a;
     batchSize := batchSize a; memoryMaxLen := memoryMaxLen a;
     targetUpdateFreq := targetUpdateFreq a; memory := memory a;
     memoryIndex := memoryIndex a; episode := episode a;
     totalSteps := totalSteps a; isTraining := isTraining a;
     currentEpisodeState := currentEpisodeState a; isPaused := isPaused a;
     episodeRewards := episodeRewards a; episodeScores := episodeScores a;
     episodeLengths := episodeLengths a; trainingDelay := trainingDelay a;
     logged := v |}.

(** [v || d] for a number or [undefined]: the default replaces every
    falsy value, zero included. *)
Definition or_default (v : option Q) (d : Q) : Q :=
  match v with
  | Some q => if Qeq_bool q 0 then d else q
  | None => d
  end.

Definition or_default_nat (v : option nat) (d : nat) : nat :=
  match v with
  | Some 0%nat => d
  | Some n => n
  | None => d
  end.

(** [new Agent(env, model, config)]. *)
Definition new (e : E) (m : M) (config : Config) : Agent :=
  {| env := e;
     model := m;
     gamma := or_default (cfg_gamma config) (99 # 100);
     epsilon := or_default (cfg_epsilon config) (3 # 10);
     epsilonDecay := or_default (cfg_epsilonDecay config) (9995 # 10000);
     epsilonMin := or_default (cfg_epsilonMin config) (1 # 100);
     batchSize := or_default_nat (cfg_batchSize config) 32;
     memoryMaxLen := or_default_nat (cfg_memoryMaxLen config) (Z.to_nat 10000);
     targetUpdateFreq := or_default_nat (cfg_targetUpdateFreq config) 10;
     memory := [];
     memoryIndex := 0;
     episode := 0;
     totalSteps := 0;
     isTraining := false;
     currentEpisodeState := None;
     isPaused := false;
     episodeRewards := [];
     episodeScores := [];
     episodeLengths := [];
     trainingDelay := 0;
     logged := [] |}.

(** [act(state)]: epsilon-greedy choice; the action and the tape. *)
Definition act (a : Agent) (s : list Q) (tape : list Q) : nat * list Q :=
  let '(r1, tape1) := Math_random tape in
  if Qltb r1 (epsilon a) then
    let '(r2, tape2) := Math_random tape1 in
    if Qltb r2 (75 # 100) then (0%nat, tape2) else (1%nat, tape2)
  else (argMax (predict (model a) s), tape1).

(** [remember(state, action, reward, nextState, done)].  With a capacity
    of zero the index [memoryIndex % memoryMaxLen] is NaN and the write
    adds no element. *)
Definition remember (experience : Experience) (a : Agent) : Agent :=
  let mem :=
    if (length (memory a) <? memoryMaxLen a)%nat
    then memory a ++ [experience]
    else match memoryMaxLen a with
         | 0%nat => memory a
         | _ => <[(memoryIndex a mod memoryMaxLen a)%nat := experience]> (memory a)
         end in
  set_memoryIndex (S (memoryIndex a)) (set_memory mem a).

(** [this.memory[index]] for a number [index]. *)
Definition memory_at (mem : list Experience) (index : Z) : option Experience :=
  if (index <? 0)%Z then None else mem !! Z.to_nat index.

(** The loop of [sampleBatch(size)].  [fuel] bounds the number of
    iterations; the batch is built in the order of the pushes. *)
Fixpoint sampleBatch_loop (fuel : nat) (mem : list Experience) (size_ : nat)
    (indices : gset Z) (batch : list (option Experience)) (tape : list Q)
  : outcome (list (option Experience) * list Q) :=
  if (size indices <? size_)%nat then
    match fuel with
    | 0%nat => Diverges
    | S fuel' =>
        let '(r, tape') := Math_random tape in
        let index := Math_floor (r * inject_Z (Z.of_nat (length mem))) in
        if decide (index ∈ indices)
        then sampleBatch_loop fuel' mem size_ indices batch tape'
        else sampleBatch_loop fuel' mem size_ ({[index]} ∪ indices)
               (batch ++ [memory_at mem index]) tape'
    end
  else Ret (batch, tape).

(** [sampleBatch(size)].  Past the end of the tape every draw is 0, so
    one iteration more than the tape is long decides whether the loop
    ends. *)
Definition sampleBatch (a : Agent) (size_ : nat) (tape : list Q)
  : outcome (list (option Experience) * list Q) :=
  sampleBatch_loop (S (length tape)) (memory a) size_ ∅ [] tape.

(** The row of targets that [replay] builds for one sampled transition. *)
Definition target_row (a : Agent) (isDDQN : bool) (experience : Experience)
  : list Q :=
  let qValues := predict (model a) (state experience) in
  if done experience then
    <[action experience := reward experience]> qValues
  else
    let nextQ :=
      match isDDQN, predictTarget with
      | true, Some pt => rowMax (pt (model a) (nextState experience))
      | _, _ => rowMax (predict (model a) (nextState experience))
      end in
    <[action experience := reward experience + gamma a * nextQ]> qValues.

(** The loop of [replay] over the batch: the states and the targets.
    Destructuring an [undefined] entry throws. *)
Fixpoint replay_rows (a : Agent) (isDDQN : bool)
    (batch : list (option Experience))
  : outcome (list (list Q) * list (list Q)) :=
  match batch with
  | [] => Ret ([], [])
  | None :: _ => Throws
  | Some experience :: rest =>
      '(states, targets) ← replay_rows a isDDQN rest;
      Ret (state experience :: states,
           target_row a isDDQN experience :: targets)
  end.

(** What the user interface does to the agent while a call is
    suspended: [stop()], [reset()], a move of the epsilon slider, a move
    of the speed slider. *)
Inductive Event :=
| EvStop
| EvReset
| EvSetEpsilon (q : Q)
| EvSetDelay (d : nat).

(** [stop()]. *)
Definition stop (a : Agent) : Agent := set_isTraining false a.

(** [reset()]. *)
Definition reset (a : Agent) : Agent :=
  {| env := env a;
     model := model a;
     gamma := gamma a;
     epsilon := epsilon a;
     epsilonDecay := epsilonDecay a;
     epsilonMin := epsilonMin a;
     batchSize := batchSize a;
     memoryMaxLen := memoryMaxLen a;
     targetUpdateFreq := targetUpdateFreq a;
     memory := [];
     memoryIndex := 0;
     episode := 0;
     totalSteps := 0;
     isTraining := false;
     currentEpisodeState := None;
     isPaused := false;
     episodeRewards := [];
     episodeScores := [];
     episodeLengths := [];
     trainingDelay := trainingDelay a;
     logged := logged a |}.

Definition apply_event (a : Agent) (ev : Event) : Agent :=
  match ev with
  | EvStop => stop a
  | EvReset => reset a
  | EvSetEpsilon q => set_epsilon q a
  | EvSetDelay d => set_trainingDelay d a
  end.

(** The agent together with what surrounds it: the tape of random
    draws and, for each coming suspension of the running call, the
    events that arrive during it. *)
Record World := {
  agent : Agent;
  tape : list Q;
  pending : list (list Event)
}.

Definition with_agent (f : Agent -> Agent) (w : World) : World :=
  {| agent := f (agent w); tape := tape w; pending := pending w |}.

(** A suspension ([await] of a timer or of the fitting pass): the events
    scheduled for it are handled in order. *)
Definition suspend (w : World) : World :=
  match pending w with
  | [] => w
  | evs :: later =>
      {| agent := fold_left apply_event evs (agent w);
         tape := tape w; pending := later |}
  end.

(** [replay(isDDQN)]. *)
Definition replay (isDDQN : bool) (w : World) : outcome World :=
  let a := agent w in
  if (length (memory a) <? batchSize a)%nat then Ret w
  else
    '(batch, tape') ← sampleBatch a (batchSize a) (tape w);
    '(states, targets) ← replay_rows a isDDQN batch;
    let a' := set_model (update (model a) states targets) a in
    Ret (suspend {| agent := a'; tape := tape'; pending := pending w |}).

Definition maxSteps : nat := Z.to_nat 30000.

(** What [trainEpisode] returns when the episode has completed;
    [null], for a paused episode, is [None]. *)
Record EpisodeResult := {
  res_episode : nat;
  res_score : Z;
  res_reward : Q;
  res_steps : nat
}.

(** The head of [trainEpisode]: the synchronisation of the target
    network, then either the locals of the paused episode or those of a
    new one. *)
Definition begin (isDDQN : bool) (w : World) : EpisodeState * World :=
  let a := agent w in
  let a1 :=
    match updateTarget with
    | Some ut =>
        if isDDQN && divides (targetUpdateFreq a) (episode a)
        then set_model (ut (model a)) a else a
    | None => a
    end in
  match currentEpisodeState a1, isPaused a1 with
  | Some saved, true =>
      (saved, with_agent (fun _ => set_isPaused false a1) w)
  | _, _ =>
      let '(e', s0) := env_reset (env a1) in
      ({| ep_state := s0; ep_done := false; totalReward := 0; steps := 0 |},
       with_agent (fun _ => set_env e' a1) w)
  end.

(** The condition of the [while] loop. *)
Definition loop_cond (l : EpisodeState) (w : World) : bool :=
  negb (ep_done l) && (steps l <? maxSteps)%nat && isTraining (agent w).

(** The body of the loop up to the end of the delay: choose, act,
    remember, count, and sleep when a delay is set. *)
Definition tick (l : EpisodeState) (w : World) : EpisodeState * World :=
  let a := agent w in
  let '(act_, tape1) := act a (ep_state l) (tape w) in
  let a1 := set_env (env_set_lastAction (env a) act_) a in
  let '(e2, result) := env_step (env a1) act_ in
  let a2 := set_env e2 a1 in
  let nextState_ := Environment.state result in
  let reward_ := Environment.reward result in
  let done_ := Environment.done result in
  let a3 :=
    remember {| state := ep_state l; action := act_; reward := reward_;
                nextState := nextState_; done := done_ |} a2 in
  let l' := {| ep_state := nextState_; ep_done := done_;
               totalReward := totalReward l + reward_;
               steps := S (steps l) |} in
  let a4 := set_totalSteps (S (totalSteps a3)) a3 in
  let w4 := {| agent := a4; tape := tape1; pending := pending w |} in
  (l', if (0 <? trainingDelay a4)%nat then suspend w4 else w4).

(** The test at the end of the body: was training stopped while the
    episode is not over? *)
Definition halted (l : EpisodeState) (w : World) : bool :=
  negb (isTraining (agent w)) && negb (ep_done l).

(** The pause: the locals are saved and the flag is raised. *)
Definition pause (l : EpisodeState) (w : World) : World :=
  with_agent (fun a => set_isPaused true (set_currentEpisodeState (Some l) a)) w.

(** The loop.  [fuel] is [maxSteps - steps]: it reaches zero exactly when
    the condition [steps < maxSteps] fails.  [None] is the early
    [return null]. *)
Fixpoint rollout (fuel : nat) (l : EpisodeState) (w : World)
  : option EpisodeState * World :=
  match fuel with
  | 0%nat => (Some l, w)
  | S fuel' =>
      if loop_cond l w then
        let '(l', w') := tick l w in
        if halted l' w' then (None, pause l' w')
        else rollout fuel' l' w'
      else (Some l, w)
  end.

(** The tail of [trainEpisode], after the loop has ended on its
    condition: clear the saved state, learn, decay epsilon, record the
    statistics, log, count the episode. *)
Definition finish (isDDQN : bool) (l : EpisodeState) (w : World)
  : outcome (EpisodeResult * World) :=
  let w1 := with_agent
              (fun a => set_isPaused false (set_currentEpisodeState None a)) w in
  w2 ← replay isDDQN w1;
  let a2 := agent w2 in
  let a3 := set_epsilon
              (Math_max (epsilonMin a2) (epsilon a2 * epsilonDecay a2)) a2 in
  let sc := env_score (env a3) in
  let a4 := set_episodeLengths (episodeLengths a3 ++ [steps l])
             (set_episodeScores (episodeScores a3 ++ [sc])
               (set_episodeRewards (episodeRewards a3 ++ [totalReward l]) a3)) in
  let a5 := set_logged
              ({| log_episode := episode a4; log_score := sc;
                  log_reward := totalReward l; log_epsilon := epsilon a4;
                  log_steps := steps l;
                  log_memorySize := length (memory a4) |} :: logged a4) a4 in
  let a6 := set_episode (S (episode a5)) a5 in
  Ret ({| res_episode := episode a6; res_score := sc;
          res_reward := totalReward l; res_steps := steps l |},
       with_agent (fun _ => a6) w2).

(** [trainEpisode(isDDQN)]. *)
Definition trainEpisode (isDDQN : bool) (w : World)
  : outcome (option EpisodeResult * World) :=
  let '(l0, w0) := begin isDDQN w in
  match rollout (maxSteps - steps l0) l0 w0 with
  | (None, w1) => Ret (None, w1)
  | (Some l1, w1) =>
      '(r, w2) ← finish isDDQN l1 w1;
      Ret (Some r, w2)
  end.

(** The loop of [train]. *)
Fixpoint train_loop (remainingEpisodes : nat) (isDDQN : bool) (w : World)
  : outcome World :=
  match remainingEpisodes with
  | 0%nat => Ret w
  | S n =>
      if isTraining (agent w) then
        '(result, w') ← trainEpisode isDDQN w;
        match result with
        | None => Ret w'
        | Some _ => train_loop n isDDQN w'
        end
      else Ret w
  end.

(** The head of [train]: the flag is raised and the delay stored. *)
Definition start_training (delay : nat) (w : World) : World :=
  with_agent (fun a => set_trainingDelay delay (set_isTraining true a)) w.

(** [train(episodes, isDDQN, delay)]. *)
Definition train (episodes : nat) (isDDQN : bool) (delay : nat) (w : World)
  : outcome World :=
  w1 ← train_loop episodes isDDQN (start_training delay w);
  Ret (with_agent (set_isTraining false) w1).

(** *** Vocabulary of the statements *)

(** A run of [remember] over a list of transitions, in order. *)
Definition remember_all (es : list Experience) (a : Agent) : Agent :=
  fold_left (fun acc e => remember e acc) es a.

(** The slots that the draws of a tape select in a memory of [n]
    entries. *)
Definition slots (n : nat) (tape : list Q) : gset Z :=
  list_to_set (map (fun r => Math_floor (r * inject_Z (Z.of_nat n))) tape).

(** What the loop of [sampleBatch] keeps true: [idxs] lists, in the order
    of the pushes, the slots drawn so far. *)
Definition drawn (mem : list Experience) (indices : gset Z)
    (batch : list (option Experience)) (idxs : list Z) : Prop :=
  NoDup idxs
  /\ (forall i, i ∈ indices <-> i ∈ idxs)
  /\ size indices = length idxs
  /\ Forall (fun i => (0 <= i < Z.of_nat (length mem))%Z) idxs
  /\ batch = map (memory_at mem) idxs.

(** A world in which training is on, a delay [d] is set and nothing is
    scheduled. *)
Definition quiet (w : World) (d : nat) : Prop :=
  pending w = [] /\ isTraining (agent w) = true
  /\ trainingDelay (agent w) = d /\ (0 < d)%nat.

(** What the head of [trainEpisode] reads to synchronise the target
    network. *)
Definition setup (a : Agent) := (model a, episode a, targetUpdateFreq a).

(** Synchronising the target network of this agent, when the head of
    [trainEpisode] would do it, changes nothing. *)
Definition synchronised (isDDQN : bool) (a : Agent) : Prop :=
  forall ut, updateTarget = Some ut ->
    isDDQN && divides (targetUpdateFreq a) (episode a) = true ->
    ut (model a) = model a.

(** The two writes of a pause or of a resume, as one update. *)
Definition set_saved (c : option EpisodeState) (b : bool) (a : Agent) : Agent :=
  set_isPaused b (set_currentEpisodeState c a).

(** The world with another schedule of events. *)
Definition with_pending (pd : list (list Event)) (w : World) : World :=
  {| agent := agent w; tape := tape w; pending := pd |}.

(** The locals with which the loop of [trainEpisode] ends, [None] when it
    ends in a pause. *)
Definition final_locals (isDDQN : bool) (w : World) : option EpisodeState :=
  let '(l0, w0) := begin isDDQN w in
  fst (rollout (maxSteps - steps l0) l0 w0).

(** A view [p] of the agent that an event leaves as it is, and a schedule
    of such events. *)
Definition event_keeps {X : Type} (p : Agent -> X) (ev : Event) : Prop :=
  forall a, p (apply_event a ev) = p a.

Definition events_keep {X : Type} (p : Agent -> X) (pd : list (list Event)) : Prop :=
  Forall (Forall (event_keeps p)) pd.

(** A view of the agent that does not read the fields that the loop of
    [trainEpisode], the pause and [stop] write. *)
Record ignores_rollout {X : Type} (p : Agent -> X) : Prop := {
  ig_env : forall v a, p (set_env v a) = p a;
  ig_memory : forall v a, p (set_memory v a) = p a;
  ig_memoryIndex : forall v a, p (set_memoryIndex v a) = p a;
  ig_totalSteps : forall v a, p (set_totalSteps v a) = p a;
  ig_saved : forall v a, p (set_currentEpisodeState v a) = p a;
  ig_isPaused : forall v a, p (set_isPaused v a) = p a;
  ig_isTraining : forall v a, p (set_isTraining v a) = p a;
  ig_trainingDelay : forall v a, p (set_trainingDelay v a) = p a
}.

(** The statistics, the rate and the counter of episodes, as one view. *)
Definition records (a : Agent) :=
  (epsilon a, episode a, episodeRewards a, episodeScores a, episodeLengths a, logged a).

(** The exploration rate with its decay and its floor, as one view. *)
Definition rates (a : Agent) := (epsilon a, epsilonDecay a, epsilonMin a).

(** Events that leave everything but the run flag and the delay alone. *)
Definition calm_event (ev : Event) : bool :=
  match ev with
  | EvStop | EvSetDelay _ => true
  | EvReset | EvSetEpsilon _ => false
  end.

Definition calm (p : list (list Event)) : bool := forallb (forallb calm_event) p.

(** Events that do not write [epsilon]. *)
Definition keeps_epsilon (ev : Event) : bool :=
  match ev with
  | EvSetEpsilon _ => false
  | _ => true
  end.

Definition epsilon_untouched (p : list (list Event)) : bool :=
  forallb (forallb keeps_epsilon) p.

(** The loop started with locals [l] in world [w] meets a halt at the end
    of some iteration: the body has left locals [l'] and world [w'],
    training is off and the episode is not over. *)
Inductive halts_at : EpisodeState -> World -> EpisodeState -> World -> Prop :=
| halts_now l w l' w' :
    loop_cond l w = true -> tick l w = (l', w') -> halted l' w' = true ->
    halts_at l w l' w'
| halts_later l w l1 w1 l' w' :
    loop_cond l w = true -> tick l w = (l1, w1) -> halted l1 w1 = false ->
    halts_at l1 w1 l' w' ->
    halts_at l w l' w'.

(** [n] episodes in a row, each run to its natural end, with no write to
    [epsilon] from outside. *)
Inductive completes (isDDQN : bool) : nat -> World -> World -> Prop :=
| completes_0 w : completes isDDQN 0 w w
| completes_S n w r w1 w2 :
    epsilon_untouched (pending w) = true ->
    trainEpisode isDDQN w = Ret (Some r, w1) ->
    completes isDDQN n w1 w2 ->
    completes isDDQN (S n) w w2.

(** The decay of epsilon at the end of an episode, [n] times. *)
Definition decayed (a : Agent) (n : nat) : Q :=
  Nat.iter n (fun e => Math_max (epsilonMin a) (e * epsilonDecay a)) (epsilon a).

(** The moves of the trainer between two points at which the rest of
    the page can look at it, and the moves of the page itself. *)
Inductive move : World -> World -> Prop :=
| move_start d w : move w (start_training d w)
| move_begin isDDQN w : move w (snd (begin isDDQN w))
| move_tick l w : move w (snd (tick l w))
| move_pause l w : move w (pause l w)
| move_clear w :
    move w (with_agent (fun a => set_isPaused false (set_currentEpisodeState None a)) w)
| move_finish isDDQN l w r w' : finish isDDQN l w = Ret (r, w') -> move w w'
| move_event ev w : move w (with_agent (fun a => apply_event a ev) w).

(** The saved episode is gone and the flag is down. *)
Definition cleared (a : Agent) : Prop :=
  currentEpisodeState a = None /\ isPaused a = false.


(** *** The rest of the class *)

(** [array.slice(-n)]: the last [n] elements, all of them when there are
    fewer. *)
Definition slice_last {A : Type} (n : nat) (l : list A) : list A :=
  skipn (length l - n) l.

(** What [getStatistics()] returns. *)
Record Statistics := {
  avgScore : Q;
  maxScore : Z;
  avgReward : Q;
  totalEpisodes : nat;
  stat_totalSteps : nat
}.

(** [getStatistics()]: the averages are over the last 100 episodes and
    are 0 when there is none; [Math.max(...episodeScores, 0)] is the
    largest of the scores and 0. *)
Definition getStatistics (a : Agent) : Statistics :=
  let recentScores := slice_last 100 (episodeScores a) in
  let recentRewards := slice_last 100 (episodeRewards a) in
  {| avgScore :=
       if (0 <? length recentScores)%nat
       then inject_Z (fold_left Z.add recentScores 0%Z)
            / inject_Z (Z.of_nat (length recentScores))
       else 0;
     maxScore := fold_right Z.max 0%Z (episodeScores a);
     avgReward :=
       if (0 <? length recentRewards)%nat
       then fold_left Qplus recentRewards 0
            / inject_Z (Z.of_nat (length recentRewards))
       else 0;
     totalEpisodes := episode a;
     stat_totalSteps := totalSteps a |}.

(** The counters of the agent and the sizes of its arrays, as one view. *)
Definition counters (a : Agent) :=
  (memoryIndex a, totalSteps a, length (memory a), memoryMaxLen a,
   (length (episodeRewards a), length (episodeScores a),
    length (episodeLengths a), episode a)).

(** The write cursor of the memory counts the steps, the memory holds
    as many transitions as steps were taken, up to its capacity, and each
    array of statistics has one entry per counted episode. *)
Definition counters_ok (a : Agent) : Prop :=
  memoryIndex a = totalSteps a
  /\ length (memory a) = Nat.min (totalSteps a) (memoryMaxLen a)
  /\ length (episodeRewards a) = episode a
  /\ length (episodeScores a) = episode a
  /\ length (episodeLengths a) = episode a.

(** A saved episode is there exactly when the pause flag is up. *)
Definition saved_iff_paused (a : Agent) : Prop :=
  isPaused a = true <-> currentEpisodeState a <> None.

(** A saved episode, if any, is within the cap on steps. *)
Definition saved_within_cap (a : Agent) : Prop :=
  forall l, currentEpisodeState a = Some l -> (steps l <= maxSteps)%nat.


End Trainer.
End Agent.

(** [Math.min] on two numbers. *)
Definition Math_min (a b : Q) : Q := if Qltb b a then b else a.

(** ** The entry script: the application around the agent *)

Module FlappyBirdDQN.
Section App.

(** [new DDQN(4, 2, hiddenDim)]: the freshly initialised network is a
    parameter. *)
Context {M : Type} `{ValueModel M} (newDDQN : nat -> M).

Local Abbreviation Agent := (@Agent.Agent Environment.Env M).

(** The fields of the application that the training controls use.
    [this.env] and [this.game] are the objects that the agent holds in
    [agent.env]; [this.model] is [agent.model]. *)
Record App := {
  agent : Agent;
  isTraining : bool;
  isTrainingPaused : bool;
  skipNextStopTrainingCallback : bool;
  hiddenDim : nat;
  totalEpisodes : nat
}.

(** The configuration that the constructor passes to [new Agent]. *)
Definition config : Agent.Config :=
  {| Agent.cfg_gamma := Some (99 # 100);
     Agent.cfg_epsilon := Some (3 # 10);
     Agent.cfg_epsilonDecay := Some (9995 # 10000);
     Agent.cfg_epsilonMin := Some (1 # 100);
     Agent.cfg_batchSize := Some 32%nat;
     Agent.cfg_memoryMaxLen := Some (Z.to_nat 10000);
     Agent.cfg_targetUpdateFreq := Some 10%nat |}.

(** [new FlappyBirdDQN()], without the page. *)
Definition new (tape : list Q) : App :=
  let game := Game.new tape in
  let env := Environment.new game in
  {| agent := Agent.new env (newDDQN 64) config;
     isTraining := false;
     isTrainingPaused := false;
     skipNextStopTrainingCallback := false;
     hiddenDim := 64;
     totalEpisodes := Z.to_nat 10000 |}.

(** [stopTraining({ silent })], without the page. *)
Definition stopTraining (silent : bool) (app : App) : App :=
  let a := Agent.stop (agent app) in
  let paused :=
    negb silent && Agent.isPaused a
    && match Agent.currentEpisodeState a with Some _ => true | None => false end in
  {| agent := a;
     isTraining := false;
     isTrainingPaused := paused;
     skipNextStopTrainingCallback := skipNextStopTrainingCallback app;
     hiddenDim := hiddenDim app;
     totalEpisodes := totalEpisodes app |}.

(** [reset()], without the page: stop silently, reset the agent, put
    epsilon back, replace the network, and bring the game back to HOME. *)
Definition reset (app : App) : App :=
  let app1 := stopTraining true app in
  let a1 := Agent.reset (agent app1) in
  let a2 := Agent.set_epsilon (3 # 10) a1 in
  let a3 := Agent.set_model (newDDQN (hiddenDim app1)) a2 in
  let e := Agent.env a3 in
  let e' := {| Environment.game := Game.initializeGame (Environment.game e);
               Environment.previousScore := 0;
               Environment.lastAction := Environment.lastAction e |} in
  {| agent := Agent.set_env e' a3;
     isTraining := false;
     isTrainingPaused := false;
     skipNextStopTrainingCallback := true;
     hiddenDim := hiddenDim app1;
     totalEpisodes := totalEpisodes app1 |}.

(** [clamp(value, min, max)]; [None] is a value that is not finite, as
    [parseInt] gives for a field that holds no number. *)
Definition clamp (value : option Q) (min max : Q) : Q :=
  match value with
  | None => min
  | Some v => Math_min max (Math_max min v)
  end.

(** The handler of the epsilon slider, without the page: the position
    read from the slider, clamped to 0..100, sets [agent.epsilon] to a
    hundredth of it. *)
Definition epsilonSliderInput (value : option Q) (app : App) : App :=
  let raw := clamp value 0 100 in
  let epsilon := raw / 100 in
  {| agent := Agent.set_epsilon epsilon (agent app);
     isTraining := isTraining app;
     isTrainingPaused := isTrainingPaused app;
     skipNextStopTrainingCallback := skipNextStopTrainingCallback app;
     hiddenDim := hiddenDim app;
     totalEpisodes := totalEpisodes app |}.

(** [this.game]: the object that [agent.env.game] holds too. *)
Definition game_of (app : App) : Game.Game :=
  Environment.game (Agent.env (agent app)).

(** A method of the game called on [this.game]. *)
Definition with_game (f : Game.Game -> Game.Game) (app : App) : App :=
  let e := Agent.env (agent app) in
  {| agent :=
       Agent.set_env
         {| Environment.game := f (Environment.game e);
            Environment.previousScore := Environment.previousScore e;
            Environment.lastAction := Environment.lastAction e |} (agent app);
     isTraining := isTraining app;
     isTrainingPaused := isTrainingPaused app;
     skipNextStopTrainingCallback := skipNextStopTrainingCallback app;
     hiddenDim := hiddenDim app;
     totalEpisodes := totalEpisodes app |}.

(** The keys that the handler of [keydown] tells apart. *)
Inductive Key := Space | ArrowUp | KeyR | OtherKey.

(** [onJump], [onKey] and [onClick] of [setupManualInput()], without
    the page. *)
Definition onJump (app : App) : App :=
  if isTraining app || isTrainingPaused app then app
  else with_game Game.jump app.

Definition onKey (k : Key) (app : App) : App :=
  if isTraining app || isTrainingPaused app then app
  else
    match k with
    | Space | ArrowUp =>
        if Game.GameState_eqb (Game.gameState (game_of app)) Game.GAME_OVER
        then with_game Game.initializeGame app
        else onJump app
    | KeyR =>
        if isTrainingPaused app then reset app
        else with_game Game.initializeGame app
    | OtherKey => app
    end.


(** [manualUpdateIntervalMs]. *)
Definition manualUpdateIntervalMs : Q := 50.

(** The loop of the render callback that lets the game catch up with
    the time accumulated; [fuel] bounds the number of iterations. *)
Fixpoint catch_up (fuel : nat) (accumulatedMs : Q) (g : Game.Game)
  : outcome (Game.Game * Q) :=
  if Qle_bool manualUpdateIntervalMs accumulatedMs then
    match fuel with
    | 0%nat => Diverges
    | S fuel' =>
        catch_up fuel' (accumulatedMs - manualUpdateIntervalMs) (Game.update g)
    end
  else Ret (g, accumulatedMs).

(** The render callback, without the drawing: [dt] is the time since
    the last frame; the application and [_accumulatedMs]. *)
Definition renderFrame (fuel : nat) (dt : Q) (app : App) (accumulatedMs : Q)
  : outcome (App * Q) :=
  if negb (isTraining app) && negb (isTrainingPaused app) then
    '(g, acc) ← catch_up fuel (accumulatedMs + dt) (game_of app);
    Ret (with_game (fun _ => g) app, acc)
  else Ret (app, accumulatedMs).

End App.
End FlappyBirdDQN.

(** ** A small value model to run the trainer on concrete inputs

    The network of the demo lives in the tensor library.  [RowModel] is a
    stand-in of the double variant whose prediction is one row of action
    values whatever the state: a live row and a target row; a fitting pass
    moves the live row to the first target row it is given. *)
Definition RowModel : Type := list Q * list Q.

#[global] Instance RowModel_ValueModel : ValueModel RowModel := {
  predict m _ := fst m;
  update m _ targets :=
    match targets with
    | [] => m
    | t :: _ => (t, snd m)
    end;
  predictTarget := Some (fun m _ => snd m);
  updateTarget := Some (fun m => (fst m, fst m))
}.

(** ** Concrete inputs

    The pixels of the sprite sheet are not part of the model; the masks
    below follow the geometry that [setTubeY] documents (a pipe of 44
    rows: 17 of upper pipe, a gap of 12, 15 of lower pipe) and take the
    bird as a full rectangle of 5 by 3. *)

Definition bird_rect : Game.Mask :=
  {| Game.mask := repeat true 15; Game.w := 5; Game.h := 3 |}.

Definition pipe_mask : Game.Mask :=
  {| Game.mask := repeat true (6 * 17) ++ repeat false (6 * 12)
                    ++ repeat true (6 * 15);
     Game.w := 6; Game.h := 44 |}.

Definition loaded_sprites : Game.Sprites :=
  {| Game.birdMasks := (bird_rect, bird_rect, bird_rect);
     Game.tubeMask := pipe_mask |}.

(** The environment of a new game whose sprite sheet has loaded, after
    [reset()].  Every draw is 0: the gaps are centred on row 10. *)
Definition first_frame : Environment.Env :=
  fst (Environment.reset
         (Environment.new (Game.onload loaded_sprites (Game.new [])))).

(** The environment after a list of actions, one step each. *)
Definition after_steps (actions : list nat) (e : Environment.Env)
  : Environment.Env :=
  fold_left (fun acc a => fst (Environment.step acc a)) actions e.

(** 48 actions (a jump whenever the bird is below row 10) that bring the
    bird into the gap of the first pipe, one tick before it clears it:
    the pipe stands at column 0 and reaches column
    [birdX - tubeWidth = -1] on the next update. *)
Definition flight : list nat :=
  [1; 1; 1; 0; 0; 0; 0; 0; 0; 0; 0; 0; 0; 0; 1; 0; 0; 0; 0; 0; 0; 0; 0; 0;
   0; 0; 1; 0; 0; 0; 0; 0; 0; 0; 0; 0; 0; 0; 1; 0; 0; 0; 0; 0; 0; 0; 0; 0]%nat.

Definition about_to_score : Environment.Env := after_steps flight first_frame.

(** 11 steps without a jump: the bird is one tick above the ground,
    below the gap of the closest pipe. *)
Definition about_to_land : Environment.Env :=
  after_steps (repeat 0%nat 11) first_frame.

(** An agent with a memory of two slots, and five transitions told apart
    by their reward. *)
Definition two_slots : Agent.Agent (E := Environment.Env) (M := RowModel) :=
  Agent.new about_to_score ([0; 0], [0; 0])
    (Agent.Build_Config None None None None None (Some 2%nat) None).

Definition numbered (n : Z) : Agent.Experience :=
  {| Agent.state := [0; 0; 0; 0]; Agent.action := 0; Agent.reward := inject_Z n;
     Agent.nextState := [0; 0; 0; 0]; Agent.done := false |}.

Definition five_transitions : list Agent.Experience :=
  map numbered [0; 1; 2; 3; 4]%Z.

(** An agent with the default capacity after three of the transitions. *)
Definition three_remembered : Agent.Agent (E := Environment.Env) (M := RowModel) :=
  Agent.remember_all (map numbered [0; 1; 2]%Z)
    (Agent.new about_to_score ([0; 0], [0; 0])
       (Agent.Build_Config None None None None None None None)).

(** Two draws that select the slots 0 and 1 of a memory of three. *)
Definition two_draws : list Q := [0; 1 # 2].

(** The agent of a freshly built application whose sprite sheet has
    loaded, with a network whose two rows are zero; and a world in which
    [train] has just raised the flag with a delay of 50 ms and the user
    presses Stop during the first sleep. *)
Definition fresh_agent : Agent.Agent (E := Environment.Env) (M := RowModel) :=
  let a := FlappyBirdDQN.agent (FlappyBirdDQN.new (fun _ => ([0; 0], [0; 0])) []) in
  let e := Agent.env a in
  Agent.set_env
    {| Environment.game := Game.onload loaded_sprites (Environment.game e);
       Environment.previousScore := Environment.previousScore e;
       Environment.lastAction := Environment.lastAction e |} a.

Definition stopped_in_first_sleep : Agent.World :=
  Agent.start_training 50
    {| Agent.agent := fresh_agent; Agent.tape := [];
       Agent.pending := [[Agent.EvStop]] |}.

(** The same world with nobody touching the page. *)
Definition undisturbed : Agent.World :=
  Agent.start_training 50
    {| Agent.agent := fresh_agent; Agent.tape := []; Agent.pending := [] |}.

(** An agent configured with a negative floor and a negative rate, about
    to train with no delay, and the world that one call of [trainEpisode]
    leaves. *)
Definition negative_rates : Agent.World :=
  Agent.start_training 0
    {| Agent.agent :=
         Agent.new (Environment.new (Game.new [])) (([0; 0], [0; 0]) : RowModel)
           (Agent.Build_Config None (Some (- (1 # 2))) (Some (1 # 2))
              (Some (- 1)) None None None);
       Agent.tape := []; Agent.pending := [] |}.

Definition DemoWorld : Type := Agent.World (E := Environment.Env) (M := RowModel).

Definition world_after (o : outcome (option Agent.EpisodeResult * DemoWorld))
    (otherwise : DemoWorld) : DemoWorld :=
  match o with
  | Ret (_, w) => w
  | _ => otherwise
  end.

Definition negative_rates_after : DemoWorld :=
  world_after (Agent.trainEpisode true negative_rates) negative_rates.

Definition undisturbed_after : DemoWorld :=
  world_after (Agent.trainEpisode true undisturbed) undisturbed.



(** The undisturbed world with a Stop arriving in the third sleep of the
    episode, and the world that the stopped call leaves. *)
Definition stopped_in_third_sleep : DemoWorld :=
  Agent.with_pending (replicate 2 [] ++ [[Agent.EvStop]]) undisturbed.

Definition paused_in_third_sleep : DemoWorld :=
  world_after (Agent.trainEpisode true stopped_in_third_sleep) stopped_in_third_sleep.

(** A game in play with the bird at the top of the screen inside the
    upper part of a pipe. *)
Definition in_the_pipe : Game.Game :=
  {| Game.birdY := 0; Game.birdYSpeed := 0; Game.birdFrame := Game.F0;
     Game.tubes := ({| Game.x := 5; Game.y := -13 |},
                    [{| Game.x := 24; Game.y := -13 |}]);
     Game.gameState := Game.PLAYING; Game.score := 0; Game.groundX := 0;
     Game.sprites := Some loaded_sprites; Game.rand := [] |}.

(** The environment after the step that takes [about_to_land] to the
    ground. *)
Definition landed : Environment.Env := fst (Environment.step about_to_land 0).

(** An agent that learns on batches of two, after three of the
    transitions, and a world in which it is about to learn with the two
    draws on the tape. *)
Definition small_batches : Agent.Agent (E := Environment.Env) (M := RowModel) :=
  Agent.remember_all (map numbered [0; 1; 2]%Z)
    (Agent.new about_to_score ([0; 0], [0; 0])
       (Agent.Build_Config None None None None (Some 2%nat) None None)).

Definition about_to_learn : DemoWorld :=
  {| Agent.agent := small_batches; Agent.tape := two_draws; Agent.pending := [] |}.

(** The world of the fresh agent before [train] is called, the world
    that a call of [train] for one episode leaves, and the result of the
    episode of [undisturbed]. *)
Definition idle_world : DemoWorld :=
  {| Agent.agent := fresh_agent; Agent.tape := []; Agent.pending := [] |}.

Definition trained_once : DemoWorld :=
  match Agent.train 1 true 50 idle_world with
  | Ret w => w
  | _ => idle_world
  end.

Definition undisturbed_result : option Agent.EpisodeResult :=
  match Agent.trainEpisode true undisturbed with
  | Ret (r, _) => r
  | _ => None
  end.

(** The application of a page on which nobody has pressed anything, the
    one that holds the agent that the training has left, before the
    callback of [startTraining] runs, and one in the middle of a
    training. *)
Definition idle_page : FlappyBirdDQN.App (M := RowModel) :=
  FlappyBirdDQN.new (fun _ => ([0; 0], [0; 0])) [].

Definition page_after_training : FlappyBirdDQN.App (M := RowModel) :=
  {| FlappyBirdDQN.agent := Agent.agent trained_once;
     FlappyBirdDQN.isTraining := true;
     FlappyBirdDQN.isTrainingPaused := false;
     FlappyBirdDQN.skipNextStopTrainingCallback := false;
     FlappyBirdDQN.hiddenDim := 64;
     FlappyBirdDQN.totalEpisodes := 1 |}.


(** * Properties *)

(** ** Numbers *)

Lemma Qltb_lt a b : Qltb a b = true <-> a < b.
Proof.
  unfold Qltb. rewrite negb_true_iff, <- not_true_iff_false, Qle_bool_iff.
  split; [apply Qnot_le_lt | apply Qlt_not_le].
Qed.

Lemma Qltb_ge a b : Qltb a b = false <-> b <= a.
Proof.
  unfold Qltb. rewrite negb_false_iff. apply Qle_bool_iff.
Qed.

Lemma Math_max_lub a b : a <= Math_max a b /\ b <= Math_max a b.
Proof.
  unfold Math_max. destruct (Qltb a b) eqn:Hab.
  - apply Qltb_lt in Hab. split; [apply Qlt_le_weak, Hab | apply Qle_refl].
  - apply Qltb_ge in Hab. split; [apply Qle_refl | exact Hab].
Qed.

Lemma Math_max_cases a b : Math_max a b = a \/ Math_max a b = b.
Proof. unfold Math_max. destruct (Qltb a b); auto. Qed.


(** A draw in [[0, 1)] selects a slot of a non-empty array. *)
Lemma slot_in_range (r : Q) (n : nat) :
  unit_draw r = true -> (0 < n)%nat ->
  (0 <= Math_floor (r * inject_Z (Z.of_nat n)) < Z.of_nat n)%Z.
Proof.
  unfold unit_draw, Math_floor. intros Hr Hn.
  apply andb_true_iff in Hr as [H0 H1].
  apply Qle_bool_iff in H0. apply Qltb_lt in H1.
  assert (Hpos : 0 < inject_Z (Z.of_nat n)).
  { change 0 with (inject_Z 0). rewrite <- Zlt_Qlt. lia. }
  split.
  - rewrite <- (Qfloor_Z 0). apply Qfloor_resp_le.
    change (inject_Z 0) with 0. nra.
  - rewrite Zlt_Qlt.
    apply Qle_lt_trans with (r * inject_Z (Z.of_nat n)); [apply Qfloor_le |].
    nra.
Qed.

(** ** The environment *)

Lemma move_tube_score acc tube :
  (snd (fst acc) <= snd (fst (Game.move_tube acc tube)))%Z.
Proof.
  destruct acc as [[ts sc] tape]. unfold Game.move_tube.
  destruct (_ <=? _)%Z; [destruct (Game.setTubeY _ _) |];
    cbn [fst snd]; destruct (_ =? _)%Z; cbn [fst snd]; lia.
Qed.

Lemma move_tubes_score l acc :
  (snd (fst acc) <= snd (fst (fold_left Game.move_tube l acc)))%Z.
Proof.
  revert acc. induction l as [|t l IH]; intros acc; cbn [fold_left]; [lia |].
  etransitivity; [apply (move_tube_score acc t) | apply IH].
Qed.

(** The score never goes down in an update, and a jump leaves it alone. *)
Lemma update_score_le g : (Game.score g <= Game.score (Game.update g))%Z.
Proof.
  unfold Game.update. destruct (Game.gameState g); cbn; try lia.
  pose proof (move_tubes_score (Game.tube_list g) ([], Game.score g, Game.rand g)) as Hs.
  destruct (fold_left _ _ _) as [[ts sc] tape]. cbn in Hs.
  destruct (Qltb _ 0); destruct (_ <? _)%Z; cbn; exact Hs.
Qed.

Lemma jump_score g : Game.score (Game.jump g) = Game.score g.
Proof. unfold Game.jump. destruct (Game.gameState g); reflexivity. Qed.

(** [calculateReward] reads the game and leaves it as it is. *)
Lemma calculateReward_game e :
  Environment.game (snd (Environment.calculateReward e)) = Environment.game e.
Proof.
  unfold Environment.calculateReward.
  destruct (_ <? _)%Z; destruct (Game.gameState _);
    repeat (destruct (_ && _)); reflexivity.
Qed.

(** The game after a step: the jump, if any, then one update. *)
Lemma step_game e action :
  Environment.game (fst (Environment.step e action))
  = Game.update (if Nat.eqb action Environment.JUMP
                 then Game.jump (Environment.game e) else Environment.game e).
Proof.
  unfold Environment.step.
  match goal with |- context [Environment.calculateReward ?x] =>
    pose proof (calculateReward_game x) as Hg;
    destruct (Environment.calculateReward x) as [r e3] end.
  cbn in *. exact Hg.
Qed.

(** [previousScore] follows the score of the game from step to step. *)
Lemma step_keeps_sync e action :
  Environment.previousScore e = Game.score (Environment.game e) ->
  Environment.previousScore (fst (Environment.step e action))
  = Game.score (Environment.game (fst (Environment.step e action))).
Proof.
  intros Hsync. rewrite step_game. unfold Environment.step.
  set (g1 := if Nat.eqb action Environment.JUMP then _ else _).
  assert (Hle : (Environment.previousScore e <= Game.score (Game.update g1))%Z).
  { rewrite Hsync. etransitivity; [| apply update_score_le].
    subst g1. destruct (Nat.eqb _ _); [rewrite jump_score |]; lia. }
  unfold Environment.calculateReward. cbn [Environment.game Environment.previousScore].
  destruct (_ <? _)%Z eqn:Hlt.
  - destruct (Game.gameState _); repeat (destruct (_ && _)); reflexivity.
  - apply Z.ltb_ge in Hlt.
    destruct (Game.gameState _); repeat (destruct (_ && _)); cbn; lia.
Qed.

(** The reward of a step, read off the game that the step leaves. *)
Lemma step_reward e action :
  let res := Environment.step e action in
  let g := Environment.game (fst res) in
  Environment.reward (snd res)
  = fst (Environment.calculateReward
           {| Environment.game := g;
              Environment.previousScore := Environment.previousScore e;
              Environment.lastAction := Some action |})
  /\ Environment.done (snd res) = Game.GameState_eqb (Game.gameState g) Game.GAME_OVER.
Proof.
  cbn zeta. rewrite step_game. unfold Environment.step.
  match goal with |- context [Environment.calculateReward ?x] =>
    pose proof (calculateReward_game x) as Hg;
    destruct (Environment.calculateReward x) as [r e3] end.
  cbn in *. rewrite Hg. split; reflexivity.
Qed.



(** The game of [about_to_score]: in play, no point yet, the first pipe
    at column 0, the bird at row 7.55 falling at 1.1 rows a tick. *)
Example about_to_score_game :
  let g := Environment.game about_to_score in
  Game.gameState g = Game.PLAYING /\ Game.score g = 0%Z
  /\ Environment.previousScore about_to_score = 0%Z
  /\ Game.tube_list g = [Game.Build_Tube 0 (-13); Game.Build_Tube 19 (-13)]
  /\ Game.birdY g == 755 # 100 /\ Game.birdYSpeed g == 11 # 10.
Proof. cbn zeta. repeat split; vm_compute; reflexivity. Qed.


(** ** The agent *)

Import Agent.

Section AgentFacts.

Context {E M : Type} `{EnvLike E} `{ValueModel M}.

Implicit Types (a : Agent (E := E) (M := M)) (w : World (E := E) (M := M)).

(** *** The constructor *)

Lemma or_default_nonzero v d :
  Qeq_bool d 0 = false -> Qeq_bool (or_default v d) 0 = false.
Proof.
  intros Hd. destruct v as [q|]; cbn; [| exact Hd].
  destruct (Qeq_bool q 0) eqn:Hq; [exact Hd | exact Hq].
Qed.

(** C10: a zero passed for a hyperparameter is replaced by the default,
    for each of the seven fields, and whatever the configuration the
    agent starts with an [epsilon] and an [epsilonMin] other than zero. *)
Theorem zero_takes_default (e : E) (m : M)
    (g eps dec mn : option Q) (b c t : option nat) :
  gamma (new e m (Build_Config (Some 0) eps dec mn b c t)) = 99 # 100
  /\ epsilon (new e m (Build_Config g (Some 0) dec mn b c t)) = 3 # 10
  /\ epsilonDecay (new e m (Build_Config g eps (Some 0) mn b c t)) = 9995 # 10000
  /\ epsilonMin (new e m (Build_Config g eps dec (Some 0) b c t)) = 1 # 100
  /\ batchSize (new e m (Build_Config g eps dec mn (Some 0%nat) c t)) = 32%nat
  /\ memoryMaxLen (new e m (Build_Config g eps dec mn b (Some 0%nat) t)) = Z.to_nat 10000
  /\ targetUpdateFreq (new e m (Build_Config g eps dec mn b c (Some 0%nat))) = 10%nat
  /\ Qeq_bool (epsilon (new e m (Build_Config g eps dec mn b c t))) 0 = false
  /\ Qeq_bool (epsilonMin (new e m (Build_Config g eps dec mn b c t))) 0 = false.
Proof.
  repeat split; try reflexivity; cbn; apply or_default_nonzero; reflexivity.
Qed.

(** *** The learning step on a terminal transition *)

Lemma target_row_done a isDDQN (x : Experience) :
  done x = true ->
  (action x < length (predict (model a) (state x)))%nat ->
  target_row a isDDQN x !! action x = Some (reward x).
Proof.
  intros Hd Hlen. unfold target_row. rewrite Hd.
  apply list_lookup_insert_eq. exact Hlen.
Qed.

(** C6: on a terminal step whose action is on the wrong side of the gap
    (a jump with the bird above the centre of the gap, or no jump with
    the bird below it) the reward is -15, and the row of targets that
    the learning step builds for that transition holds this reward, and
    nothing else, at the action taken. *)
Theorem terminal_wrong_side (e : Environment.Env) (act_ : nat) (s : list Q)
    a (isDDQN : bool) :
  let res := Environment.step e act_ in
  let d := Environment.gap_offset (Environment.game (fst res)) in
  let x := {| state := s; action := act_;
              reward := Environment.reward (snd res);
              nextState := Environment.state (snd res);
              done := Environment.done (snd res) |} in
  Environment.done (snd res) = true ->
  (0 < d /\ act_ = Environment.JUMP) \/ (d < 0 /\ act_ = Environment.STAY) ->
  (act_ < length (predict (model a) s))%nat ->
  Environment.reward (snd res) = - 15
  /\ target_row a isDDQN x !! act_ = Some (- 15).
Proof.
  cbn zeta. intros Hdone Hside Hlen.
  destruct (step_reward e act_) as [Hr Hd]. cbn zeta in Hr, Hd.
  assert (Hrew : Environment.reward (snd (Environment.step e act_)) = - 15).
  { rewrite Hr. rewrite Hd in Hdone. clear Hr Hd.
    set (g := Environment.game (fst (Environment.step e act_))) in *.
    unfold Environment.calculateReward.
    cbn [Environment.game Environment.previousScore Environment.lastAction].
    destruct (Game.gameState g); cbn in Hdone; try discriminate.
    destruct Hside as [[Hpos ->] | [Hneg ->]].
    - apply Qltb_lt in Hpos. rewrite Hpos. cbn.
      destruct (_ <? _)%Z; reflexivity.
    - assert (Hnp : Qltb 0 (Environment.gap_offset g) = false)
        by (apply Qltb_ge, Qlt_le_weak, Hneg).
      apply Qltb_lt in Hneg. rewrite Hnp, Hneg. cbn.
      destruct (_ <? _)%Z; reflexivity. }
  split; [exact Hrew |].
  rewrite <- Hrew.
  match goal with |- target_row _ _ ?x !! _ = _ =>
    apply (target_row_done a isDDQN x) end; [exact Hdone | exact Hlen].
Qed.

End AgentFacts.

(** The step from [about_to_land] without a jump ends the game on the
    ground, 19.5 rows below the centre of the gap. *)
Example landing_step :
  let res := Environment.step about_to_land 0 in
  Environment.done (snd res) = true
  /\ Game.birdY (Environment.game (fst res)) == 28
  /\ Environment.gap_offset (Environment.game (fst res)) == - (195 # 10).
Proof. cbn zeta. repeat split; vm_compute; reflexivity. Qed.

Lemma terminal_wrong_side_witness :
  let a := new about_to_land (([0; 0], [0; 0]) : RowModel)
             (Build_Config None None None None None None None) in
  let res := Environment.step about_to_land 0 in
  Environment.reward (snd res) = - 15
  /\ target_row a true
       {| state := [0; 0; 0; 0]; action := 0;
          reward := Environment.reward (snd res);
          nextState := Environment.state (snd res);
          done := Environment.done (snd res) |} !! 0%nat = Some (- 15).
Proof.
  cbn zeta. apply terminal_wrong_side.
  - vm_compute. reflexivity.
  - right. split; [vm_compute; reflexivity | reflexivity].
  - cbn. lia.
Defined.

(** ** The replay memory *)

Lemma mod_apart (c j k : nat) :
  (0 < c)%nat -> (j < k)%nat -> (k < j + c)%nat -> (j mod c ≠ k mod c)%nat.
Proof.
  intros Hc Hjk Hkj Heq.
  pose proof (Nat.div_mod_eq j c) as Hj.
  pose proof (Nat.div_mod_eq k c) as Hk.
  rewrite Heq in Hj.
  destruct (Nat.lt_ge_cases (j / c) (k / c)) as [Hlt | Hge].
  - assert (c * (j / c) + c <= c * (k / c))%nat by nia. lia.
  - assert (c * (k / c) <= c * (j / c))%nat by nia. lia.
Qed.

(** The latest insertion that went to slot [i], among [k] insertions into
    a memory of [c] slots. *)
Lemma latest_of_slot (c k i : nat) :
  (i < c)%nat -> (c <= k)%nat ->
  exists j, (j < k)%nat /\ (k <= j + c)%nat /\ (j mod c = i)%nat.
Proof.
  intros Hi Hk. exists (i + c * ((k - 1 - i) / c))%nat.
  pose proof (Nat.div_mod_eq (k - 1 - i) c) as Hd.
  assert (Hm : ((k - 1 - i) mod c < c)%nat) by (apply Nat.mod_upper_bound; lia).
  split; [| split].
  - generalize dependent (c * ((k - 1 - i) / c))%nat. intros p Hd. lia.
  - generalize dependent (c * ((k - 1 - i) / c))%nat. intros p Hd. lia.
  - rewrite (Nat.mul_comm c), Nat.Div0.mod_add.
    apply Nat.mod_small, Hi.
Qed.

Lemma same_slot_apart (c j j' : nat) :
  (0 < c)%nat -> (j mod c = j' mod c)%nat -> (j < j')%nat -> (j + c <= j')%nat.
Proof.
  intros Hc Heq Hlt.
  destruct (Nat.le_gt_cases (j + c) j') as [Hle | Hgt]; [exact Hle |].
  exfalso. exact (mod_apart c j j' Hc Hlt Hgt Heq).
Qed.

Section ReplayMemory.

Context {E M : Type} `{EnvLike E} `{ValueModel M}.

Implicit Types (a : Agent (E := E) (M := M)) (es : list Experience).

Lemma remember_all_snoc es (e : Experience) a :
  remember_all (es ++ [e]) a = remember e (remember_all es a).
Proof. unfold remember_all. rewrite fold_left_app. reflexivity. Qed.

Lemma remember_fields (e : Experience) a :
  memoryMaxLen (remember e a) = memoryMaxLen a
  /\ memoryIndex (remember e a) = S (memoryIndex a).
Proof. split; reflexivity. Qed.

(** After [k] insertions into an empty memory the write cursor is [k],
    the memory holds [min k C] entries and each of the last [C]
    insertions sits in the slot of its number modulo [C]. *)
Lemma remember_all_inv a es :
  memory a = [] -> memoryIndex a = 0%nat ->
  let a' := remember_all es a in
  let c := memoryMaxLen a in
  let k := length es in
  memoryMaxLen a' = c /\ memoryIndex a' = k
  /\ length (memory a') = Nat.min k c
  /\ forall j, (j < k)%nat -> (k <= j + c)%nat ->
               memory a' !! (j mod c)%nat = es !! j.
Proof.
  intros Hmem Hidx. cbn zeta. induction es as [|e es IH] using rev_ind.
  - cbn. rewrite Hmem, Hidx. do 3 (split; [reflexivity |]).
    intros j Hj. lia.
  - destruct IH as (Hc & Hi & Hlen & Hslot).
    rewrite remember_all_snoc, length_app. cbn [length].
    set (a' := remember_all es a) in *.
    destruct (remember_fields e a') as [Hc' Hi'].
    rewrite Hc', Hi', Hc, Hi.
    split; [reflexivity |]. split; [lia |].
    unfold remember. cbn [memory set_memoryIndex set_memory].
    rewrite Hc, Hi, Hlen.
    destruct (Nat.ltb_spec (Nat.min (length es) (memoryMaxLen a)) (memoryMaxLen a))
      as [Hroom | Hfull].
    + (* the memory still has room: push *)
      assert (Hk : (length es < memoryMaxLen a)%nat) by lia.
      split; [rewrite length_app, Hlen; cbn; lia |].
      intros j Hj _.
      assert (Hjc : (j < memoryMaxLen a)%nat) by lia.
      rewrite (Nat.mod_small _ _ Hjc).
      destruct (decide (j = length es)) as [-> | Hne].
      * rewrite !lookup_app_r by lia.
        rewrite Hlen, Nat.min_l, Nat.sub_diag by lia. reflexivity.
      * rewrite !lookup_app_l by lia.
        rewrite <- (Nat.mod_small _ _ Hjc) at 1. apply Hslot; lia.
    + (* the memory is full: overwrite the slot of the cursor *)
      assert (Hk : (memoryMaxLen a <= length es)%nat) by lia.
      destruct (memoryMaxLen a) as [|c] eqn:Hcap.
      * split; [rewrite Hlen; lia |]. intros j Hj1 Hj2. lia.
      * rewrite length_insert, Hlen. split; [lia |].
        intros j Hj1 Hj2.
        destruct (decide (j = length es)) as [-> | Hne].
        -- rewrite list_lookup_insert_eq
             by (rewrite Hlen, Nat.min_r by lia; apply Nat.mod_upper_bound; lia).
           rewrite lookup_app_r, Nat.sub_diag by lia. reflexivity.
        -- rewrite list_lookup_insert_ne by (apply not_eq_sym, mod_apart; lia).
           rewrite lookup_app_l by lia. apply Hslot; lia.
Qed.

(** C4: from an empty memory of capacity [C], the size never exceeds
    [C]; after [k >= C] insertions it is [C], and slot [i] holds the
    transition of the latest insertion whose number, counted from zero,
    is [i] modulo [C]. *)
Theorem ring_invariant a es :
  memory a = [] -> memoryIndex a = 0%nat ->
  let a' := remember_all es a in
  let c := memoryMaxLen a in
  let k := length es in
  (length (memory a') <= c)%nat
  /\ ((c <= k)%nat ->
      length (memory a') = c
      /\ forall i, (i < c)%nat ->
           exists j, (j < k)%nat /\ (j mod c = i)%nat
                     /\ (forall j', (j' < k)%nat -> (j' mod c = i)%nat -> (j' <= j)%nat)
                     /\ memory a' !! i = es !! j).
Proof.
  intros Hmem Hidx. cbn zeta.
  destruct (remember_all_inv a es Hmem Hidx) as (_ & _ & Hlen & Hslot).
  split; [lia |]. intros Hk. split; [lia |].
  intros i Hi.
  destruct (latest_of_slot _ _ i Hi Hk) as (j & Hj & Hlast & Hmod).
  exists j. repeat split; try assumption.
  - intros j' Hj' Hmod'.
    destruct (Nat.le_gt_cases j' j) as [Hle | Hgt]; [exact Hle |].
    assert ((j + memoryMaxLen a <= j')%nat)
      by (apply same_slot_apart; [lia | congruence | exact Hgt]).
    lia.
  - rewrite <- Hmod. apply Hslot; assumption.
Qed.

End ReplayMemory.

Lemma ring_invariant_witness :
  (length (memory (remember_all five_transitions two_slots)) <= 2)%nat
  /\ ((2 <= 5)%nat ->
      length (memory (remember_all five_transitions two_slots)) = 2%nat
      /\ forall i, (i < 2)%nat ->
           exists j, (j < 5)%nat /\ (j mod 2 = i)%nat
                     /\ (forall j', (j' < 5)%nat -> (j' mod 2 = i)%nat -> (j' <= j)%nat)
                     /\ memory (remember_all five_transitions two_slots) !! i
                        = five_transitions !! j).
Proof.
  apply (ring_invariant two_slots five_transitions); reflexivity.
Defined.

Example ring_after_five :
  memory (remember_all five_transitions two_slots) = [numbered 4; numbered 3].
Proof. reflexivity. Qed.

(** ** Reset *)

Section Reset.

Context {M : Type} `{ValueModel M} (newDDQN : nat -> M).

(** [Agent.reset] alone empties the memory and the statistics and zeroes
    the counters; it does not write [epsilon]. *)
Lemma Agent_reset_clears {E : Type} `{EnvLike E} (a : Agent (E := E) (M := M)) :
  memory (reset a) = [] /\ memoryIndex (reset a) = 0%nat
  /\ episode (reset a) = 0%nat /\ totalSteps (reset a) = 0%nat
  /\ episodeRewards (reset a) = [] /\ episodeScores (reset a) = []
  /\ episodeLengths (reset a) = []
  /\ currentEpisodeState (reset a) = None /\ isPaused (reset a) = false
  /\ isTraining (reset a) = false
  /\ epsilon (reset a) = epsilon a.
Proof. repeat split. Qed.

(** C1: whatever the state of the application, after its [reset()] the
    memory of the agent is empty, the episode index is 0, epsilon is the
    value that the constructor configures, and the three arrays of
    statistics are empty. *)
Theorem reset_complete (app : FlappyBirdDQN.App (M := M))
    (e : Environment.Env) (m : M) :
  let a := FlappyBirdDQN.agent (FlappyBirdDQN.reset newDDQN app) in
  length (memory a) = 0%nat
  /\ episode a = 0%nat
  /\ epsilon a = epsilon (new e m FlappyBirdDQN.config)
  /\ episodeRewards a = [] /\ episodeScores a = [] /\ episodeLengths a = [].
Proof. repeat split. Qed.

End Reset.

(** ** Sampling *)

Section Sampling.

Context {E M : Type} `{EnvLike E} `{ValueModel M}.

Implicit Types (a : Agent (E := E) (M := M)) (mem : list Experience).

Lemma sampleBatch_loop_eq fuel mem size_ (indices : gset Z) batch tape :
  sampleBatch_loop fuel mem size_ indices batch tape
  = if (size indices <? size_)%nat then
      match fuel with
      | 0%nat => Diverges
      | S fuel' =>
          let '(r, tape') := Math_random tape in
          let index := Math_floor (r * inject_Z (Z.of_nat (length mem))) in
          if decide (index ∈ indices)
          then sampleBatch_loop fuel' mem size_ indices batch tape'
          else sampleBatch_loop fuel' mem size_ ({[index]} ∪ indices)
                 (batch ++ [memory_at mem index]) tape'
      end
    else Ret (batch, tape).
Proof. destruct fuel; reflexivity. Qed.

Lemma size_add_fresh (i : Z) (s : gset Z) : i ∉ s -> size ({[i]} ∪ s) = S (size s).
Proof.
  intros Hi. rewrite size_union by set_solver. rewrite size_singleton. reflexivity.
Qed.

(** A draw of the tape, valid or past its end, selects a slot. *)
Lemma draw_in_range tape mem :
  valid_tape tape = true -> (0 < length mem)%nat ->
  (0 <= Math_floor (fst (Math_random tape) * inject_Z (Z.of_nat (length mem)))
   < Z.of_nat (length mem))%Z
  /\ valid_tape (snd (Math_random tape)) = true.
Proof.
  intros Hv Hn. destruct tape as [|r t]; cbn [Math_random fst snd].
  - split; [apply slot_in_range; [reflexivity | exact Hn] | reflexivity].
  - cbn in Hv. apply andb_true_iff in Hv as [Hr Ht].
    split; [apply slot_in_range; assumption | exact Ht].
Qed.

Lemma sampleBatch_loop_sound fuel : forall mem size_ indices batch tape idxs batch' tape',
  (0 < length mem)%nat -> valid_tape tape = true ->
  drawn mem indices batch idxs -> (length idxs <= size_)%nat ->
  sampleBatch_loop fuel mem size_ indices batch tape = Ret (batch', tape') ->
  exists idxs', drawn mem (list_to_set idxs') batch' idxs' /\ length idxs' = size_.
Proof.
  induction fuel as [|fuel IH];
    intros mem size_ indices batch tape idxs batch' tape' Hmem Hv Hd Hle Hrun;
    rewrite sampleBatch_loop_eq in Hrun;
    destruct Hd as (Hnd & Hin & Hsz & Hrange & Hbatch);
    destruct (Nat.ltb_spec (size indices) size_) as [Hlt | Hge].
  - discriminate.
  - injection Hrun as <- <-. exists idxs. split; [| lia].
    repeat split; try assumption.
    + intros Hi. apply elem_of_list_to_set in Hi. exact Hi.
    + intros Hi. apply elem_of_list_to_set. exact Hi.
    + apply size_list_to_set, Hnd.
  - destruct (draw_in_range tape mem Hv Hmem) as [Hslot Hv'].
    destruct (Math_random tape) as [r t]. cbn [fst snd] in *. cbn zeta in Hrun.
    set (index := Math_floor (r * inject_Z (Z.of_nat (length mem)))) in *.
    destruct (decide (index ∈ indices)) as [Hold | Hnew].
    + eapply IH; [exact Hmem | exact Hv' | | exact Hle | exact Hrun].
      exact (conj Hnd (conj Hin (conj Hsz (conj Hrange Hbatch)))).
    + eapply (IH _ _ _ _ _ (idxs ++ [index]));
        [exact Hmem | exact Hv' | | | exact Hrun].
      * repeat split.
        -- apply NoDup_app. split; [exact Hnd |]. split; [| apply NoDup_singleton].
           intros i Hi Hi'. apply list_elem_of_singleton in Hi'. subst i.
           apply Hnew, Hin, Hi.
        -- intros Hi. apply elem_of_app. apply elem_of_union in Hi as [Hi | Hi].
           ++ right. apply elem_of_singleton in Hi. subst i.
              apply list_elem_of_singleton. reflexivity.
           ++ left. apply Hin, Hi.
        -- intros Hi. apply elem_of_app in Hi as [Hi | Hi].
           ++ apply elem_of_union_r, Hin, Hi.
           ++ apply list_elem_of_singleton in Hi. subst i.
              apply elem_of_union_l, elem_of_singleton. reflexivity.
        -- rewrite size_add_fresh by exact Hnew. rewrite length_app, Hsz. cbn. lia.
        -- apply Forall_app. split; [exact Hrange |].
           constructor; [exact Hslot | constructor].
        -- rewrite map_app, Hbatch. reflexivity.
      * rewrite length_app. cbn. lia.
  - injection Hrun as <- <-. exists idxs. split; [| lia].
    repeat split; try assumption.
    + intros Hi. apply elem_of_list_to_set in Hi. exact Hi.
    + intros Hi. apply elem_of_list_to_set. exact Hi.
    + apply size_list_to_set, Hnd.
Qed.

(** The loop ends as soon as the draws left on the tape, together with
    the slots already taken, cover [size_] slots. *)
Lemma sampleBatch_loop_ends tape : forall fuel mem size_ (indices : gset Z) batch,
  (length tape < fuel)%nat ->
  (size_ <= size (indices ∪ slots (length mem) tape))%nat ->
  exists res, sampleBatch_loop fuel mem size_ indices batch tape = Ret res.
Proof.
  induction tape as [|r t IH]; intros fuel mem size_ indices batch Hfuel Hcover;
    rewrite sampleBatch_loop_eq;
    destruct (Nat.ltb_spec (size indices) size_) as [Hlt | Hge]; eauto.
  - exfalso. unfold slots in Hcover. cbn in Hcover.
    rewrite union_empty_r_L in Hcover. lia.
  - destruct fuel as [|fuel]; [cbn in Hfuel; lia |].
    cbn [Math_random]. cbn zeta.
    set (index := Math_floor (r * inject_Z (Z.of_nat (length mem)))) in *.
    assert (Hs : slots (length mem) (r :: t) = {[index]} ∪ slots (length mem) t)
      by reflexivity.
    rewrite Hs in Hcover. cbn in Hfuel.
    destruct (decide (index ∈ indices)) as [Hold | Hnew]; apply IH; try lia.
    + etransitivity; [exact Hcover |]. apply subseteq_size.
      intros i Hi. rewrite !elem_of_union, elem_of_singleton in Hi.
      rewrite elem_of_union. destruct Hi as [Hi | [-> | Hi]]; auto.
    + etransitivity; [exact Hcover |]. apply subseteq_size.
      intros i Hi. rewrite !elem_of_union, elem_of_singleton in Hi.
      rewrite !elem_of_union, elem_of_singleton. tauto.
Qed.

(** The slots as positions of the array. *)
Lemma drawn_positions mem indices batch (idxs : list Z) :
  drawn mem indices batch idxs ->
  let ns := map Z.to_nat idxs in
  NoDup ns /\ length ns = length idxs
  /\ Forall (fun i => (i < length mem)%nat) ns
  /\ batch = map (fun i => mem !! i) ns.
Proof.
  intros (Hnd & _ & _ & Hrange & Hbatch). cbn zeta.
  rewrite Forall_forall in Hrange.
  split; [| split; [| split]].
  - apply (NoDup_fmap_2_strong Z.to_nat); [| exact Hnd].
    intros i j Hi Hj Hij. apply Hrange in Hi, Hj. lia.
  - apply length_map.
  - apply Forall_forall. intros n Hn. apply list_elem_of_fmap in Hn as (i & -> & Hi).
    apply Hrange in Hi. lia.
  - rewrite Hbatch, map_map. apply map_ext_in. intros i Hi.
    apply list_elem_of_In, Hrange in Hi. unfold memory_at.
    destruct (Z.ltb_spec i 0); [lia | reflexivity].
Qed.

(** Past the end of the tape the draw is 0 and the slot is 0. *)
Lemma slot_past_end mem :
  Math_floor (fst (Math_random []) * inject_Z (Z.of_nat (length mem))) = 0%Z.
Proof.
  cbn [Math_random fst]. unfold Math_floor, Qfloor, Qmult. cbn. reflexivity.
Qed.

(** With the tape used up and slot 0 taken, a loop that still wants slots
    never ends. *)
Lemma sampleBatch_loop_stuck fuel : forall mem size_ (indices : gset Z) batch,
  (size indices < size_)%nat -> 0%Z ∈ indices ->
  sampleBatch_loop fuel mem size_ indices batch [] = Diverges.
Proof.
  induction fuel as [|fuel IH]; intros mem size_ indices batch Hlt Hzero;
    rewrite sampleBatch_loop_eq; apply Nat.ltb_lt in Hlt as Hlt'; rewrite Hlt';
    [reflexivity |].
  pose proof (slot_past_end mem) as Hs. cbn [Math_random fst] in Hs.
  cbn [Math_random]. cbn zeta. rewrite Hs.
  destruct (decide (0%Z ∈ indices)); [apply IH; assumption | contradiction].
Qed.

(** The fuel that [sampleBatch] gives its loop is enough: if the loop
    has not returned within one iteration more than the tape is long, it
    returns with no amount of fuel. *)
Lemma sampleBatch_loop_diverges tape : forall fuel mem size_ (indices : gset Z) batch,
  (length tape < fuel)%nat ->
  sampleBatch_loop fuel mem size_ indices batch tape = Diverges ->
  forall fuel', sampleBatch_loop fuel' mem size_ indices batch tape = Diverges.
Proof.
  induction tape as [|r t IH]; intros fuel mem size_ indices batch Hfuel Hdiv fuel';
    rewrite sampleBatch_loop_eq in Hdiv |- *;
    (destruct (Nat.ltb_spec (size indices) size_) as [Hlt | Hge]; [| discriminate]);
    (destruct fuel as [|fuel]; [cbn in Hfuel; lia |]);
    (destruct fuel' as [|fuel']; [reflexivity |]).
  - pose proof (slot_past_end mem) as Hs. cbn [Math_random fst] in Hs.
    cbn [Math_random] in *. cbn zeta in *. rewrite Hs in *.
    destruct (decide (0%Z ∈ indices)) as [Hin | Hout].
    + apply sampleBatch_loop_stuck; assumption.
    + destruct (Nat.ltb_spec (size ({[0%Z]} ∪ indices)) size_) as [Hlt' | Hge'].
      * apply sampleBatch_loop_stuck; [exact Hlt' |].
        apply elem_of_union_l, elem_of_singleton. reflexivity.
      * rewrite sampleBatch_loop_eq in Hdiv.
        apply Nat.ltb_ge in Hge'. rewrite Hge' in Hdiv. discriminate.
  - cbn [Math_random] in *. cbn zeta in *. cbn in Hfuel.
    destruct (decide (_ ∈ indices)); eapply IH; try exact Hdiv; lia.
Qed.

End Sampling.

(** ** What a call leaves as it is *)

Section Frames.

Context {E M : Type} `{EnvLike E} `{ValueModel M}.

Implicit Types (a : Agent (E := E) (M := M)) (w : World (E := E) (M := M)).

Context {X : Type} (p : Agent (E := E) (M := M) -> X).

Lemma fold_events_keep evs a :
  Forall (event_keeps p) evs -> p (fold_left apply_event evs a) = p a.
Proof.
  intros Hk. revert a. induction Hk as [|ev evs Hev _ IH]; intros a; cbn.
  - reflexivity.
  - rewrite IH. apply Hev.
Qed.

Lemma suspend_keeps w :
  events_keep p (pending w) ->
  p (agent (suspend w)) = p (agent w) /\ events_keep p (pending (suspend w)).
Proof.
  unfold suspend, events_keep. intros Hk.
  destruct (pending w) as [|evs later] eqn:Hp.
  - rewrite Hp. split; [reflexivity | constructor].
  - inversion Hk as [|? ? Hevs Hlater]; subst. cbn.
    split; [apply fold_events_keep, Hevs | exact Hlater].
Qed.

Lemma calm_event_keeps ev :
  ignores_rollout p -> calm_event ev = true -> event_keeps p ev.
Proof.
  intros Hig Hc a. destruct ev; try discriminate; cbn.
  - apply (ig_isTraining p Hig).
  - apply (ig_trainingDelay p Hig).
Qed.

Lemma calm_events_keep pd : ignores_rollout p -> calm pd = true -> events_keep p pd.
Proof.
  intros Hig Hc. unfold calm in Hc. rewrite forallb_forall in Hc.
  apply Forall_forall. intros evs Hevs. apply list_elem_of_In, Hc in Hevs.
  rewrite forallb_forall in Hevs.
  apply Forall_forall. intros ev Hev. apply list_elem_of_In, Hevs in Hev.
  apply calm_event_keeps; assumption.
Qed.

Lemma remember_keeps (x : Experience) a : ignores_rollout p -> p (remember x a) = p a.
Proof.
  intros Hig. unfold remember.
  rewrite (ig_memoryIndex p Hig), (ig_memory p Hig). reflexivity.
Qed.

Lemma tick_keeps l w :
  ignores_rollout p -> events_keep p (pending w) ->
  p (agent (snd (tick l w))) = p (agent w)
  /\ events_keep p (pending (snd (tick l w))).
Proof.
  intros Hig Hk. unfold tick.
  destruct (act _ _ _) as [act_ tape1].
  destruct (env_step _ _) as [e2 result]. cbn [snd].
  match goal with |- context [if ?c then suspend ?w4 else _] =>
    assert (Hw4 : p (agent w4) = p (agent w) /\ pending w4 = pending w);
    [| destruct c; [destruct (suspend_keeps w4) as [Hs1 Hs2] |]] end.
  - cbn [agent pending]. split; [| reflexivity].
    rewrite (ig_totalSteps p Hig), remember_keeps, !(ig_env p Hig) by exact Hig.
    reflexivity.
  - destruct Hw4 as [_ ->]. exact Hk.
  - destruct Hw4 as [<- _]. split; assumption.
  - destruct Hw4 as [-> ->]. split; [reflexivity | exact Hk].
Qed.

Lemma pause_keeps l w : ignores_rollout p -> p (agent (pause l w)) = p (agent w).
Proof.
  intros Hig. unfold pause, with_agent. cbn [agent].
  rewrite (ig_isPaused p Hig), (ig_saved p Hig). reflexivity.
Qed.

Lemma rollout_keeps fuel : forall l w,
  ignores_rollout p -> events_keep p (pending w) ->
  p (agent (snd (rollout fuel l w))) = p (agent w)
  /\ events_keep p (pending (snd (rollout fuel l w))).
Proof.
  induction fuel as [|fuel IH]; intros l w Hig Hk; cbn [rollout].
  - split; [reflexivity | exact Hk].
  - destruct (loop_cond l w); [| split; [reflexivity | exact Hk]].
    destruct (tick_keeps l w Hig Hk) as [Ht1 Ht2].
    destruct (tick l w) as [l' w']. cbn [snd] in Ht1, Ht2.
    destruct (halted l' w').
    + cbn [snd]. rewrite pause_keeps by exact Hig. split; [exact Ht1 | exact Ht2].
    + destruct (IH l' w' Hig Ht2) as [Hr1 Hr2]. rewrite Hr1, Ht1.
      split; [reflexivity | exact Hr2].
Qed.

Lemma begin_keeps isDDQN w :
  ignores_rollout p -> (forall v a, p (set_model v a) = p a) ->
  p (agent (snd (begin isDDQN w))) = p (agent w)
  /\ pending (snd (begin isDDQN w)) = pending w.
Proof.
  intros Hig Hm. unfold begin.
  set (a1 := match updateTarget with Some _ => _ | None => _ end).
  assert (Ha1 : p a1 = p (agent w)).
  { subst a1. destruct updateTarget; [| reflexivity].
    destruct (_ && _); [apply Hm | reflexivity]. }
  destruct (currentEpisodeState a1) as [saved|]; [destruct (isPaused a1) |].
  - cbn. rewrite (ig_isPaused p Hig). split; [exact Ha1 | reflexivity].
  - destruct (env_reset _) as [e' s0]. cbn. rewrite (ig_env p Hig).
    split; [exact Ha1 | reflexivity].
  - destruct (env_reset _) as [e' s0]. cbn. rewrite (ig_env p Hig).
    split; [exact Ha1 | reflexivity].
Qed.

Lemma replay_keeps isDDQN w w' :
  (forall v a, p (set_model v a) = p a) -> events_keep p (pending w) ->
  replay isDDQN w = Ret w' ->
  p (agent w') = p (agent w) /\ events_keep p (pending w').
Proof.
  intros Hm Hk. unfold replay.
  destruct (_ <? _)%nat.
  - intros [= <-]. split; [reflexivity | exact Hk].
  - destruct (sampleBatch _ _ _) as [[batch tape'] | |]; cbn; try discriminate.
    destruct (replay_rows _ _ _) as [[states targets] | |]; cbn; try discriminate.
    intros [= <-].
    match goal with |- context [suspend ?w1] =>
      destruct (suspend_keeps w1) as [Hs1 Hs2]; [exact Hk |] end.
    rewrite Hs1. cbn [agent]. rewrite Hm. split; [reflexivity | exact Hs2].
Qed.

End Frames.

(** ** Sampling is valid *)

Section SamplingValid.

Context {E M : Type} `{EnvLike E} `{ValueModel M}.

Implicit Types (a : Agent (E := E) (M := M)) (w : World (E := E) (M := M)).

Lemma calm_keeps_memory pd :
  calm pd = true -> events_keep (memory (E := E) (M := M)) pd.
Proof.
  intros Hc. unfold calm in Hc. rewrite forallb_forall in Hc.
  apply Forall_forall. intros evs Hevs. apply list_elem_of_In, Hc in Hevs.
  rewrite forallb_forall in Hevs.
  apply Forall_forall. intros ev Hev. apply list_elem_of_In, Hevs in Hev.
  intros a. destruct ev; try discriminate; reflexivity.
Qed.

(** C5: with [1 <= n <= size], whenever [sampleBatch(n)] returns, it
    returns [n] transitions read from [n] distinct slots of the memory;
    it does return as soon as the draws of the tape cover [n] slots; and
    the learning step that calls it leaves the memory as it was. *)
Theorem sampleBatch_valid a (n : nat) (tape : list Q) :
  (1 <= n)%nat -> (n <= length (memory a))%nat -> valid_tape tape = true ->
  (forall batch tape',
      sampleBatch a n tape = Ret (batch, tape') ->
      length batch = n
      /\ exists ns : list nat,
           NoDup ns /\ length ns = n
           /\ Forall (fun i => (i < length (memory a))%nat) ns
           /\ batch = map (fun i => memory a !! i) ns)
  /\ ((n <= size (slots (length (memory a)) tape))%nat ->
      exists batch tape', sampleBatch a n tape = Ret (batch, tape'))
  /\ (forall isDDQN w w',
        agent w = a -> calm (pending w) = true ->
        replay isDDQN w = Ret w' -> memory (agent w') = memory a).
Proof.
  intros Hn Hsize Hv. split; [| split].
  - intros batch tape' Hrun. unfold sampleBatch in Hrun.
    eapply (sampleBatch_loop_sound _ _ _ _ _ _ []) in Hrun;
      [| lia | exact Hv | | cbn; lia].
    + destruct Hrun as (idxs & Hd & Hlen).
      destruct (drawn_positions _ _ _ _ Hd) as (Hnd & Hl & Hr & Hb). cbn zeta in *.
      split.
      * rewrite Hb, length_map, Hl. exact Hlen.
      * eexists. split; [exact Hnd |]. split; [lia |]. split; [exact Hr | exact Hb].
    + repeat split; try constructor; try reflexivity.
      * intros Hi. apply not_elem_of_empty in Hi. contradiction.
      * intros Hi. apply not_elem_of_nil in Hi. contradiction.
  - intros Hcover. unfold sampleBatch.
    destruct (sampleBatch_loop_ends tape (S (length tape)) (memory a) n ∅ [])
      as [[batch tape'] Hrun]; [lia | | eauto].
    rewrite union_empty_l_L. exact Hcover.
  - intros isDDQN w w' <- Hcalm Hrun.
    apply (replay_keeps memory) in Hrun as [Hm _];
      [exact Hm | reflexivity | apply calm_keeps_memory, Hcalm].
Qed.

End SamplingValid.

Lemma sampleBatch_valid_witness :
  (forall batch tape',
      sampleBatch three_remembered 2 two_draws = Ret (batch, tape') ->
      length batch = 2%nat
      /\ exists ns : list nat,
           NoDup ns /\ length ns = 2%nat
           /\ Forall (fun i => (i < length (memory three_remembered))%nat) ns
           /\ batch = map (fun i => memory three_remembered !! i) ns)
  /\ ((2 <= size (slots (length (memory three_remembered)) two_draws))%nat ->
      exists batch tape', sampleBatch three_remembered 2 two_draws = Ret (batch, tape'))
  /\ (forall isDDQN w w',
        agent w = three_remembered -> calm (pending w) = true ->
        replay isDDQN w = Ret w' -> memory (agent w') = memory three_remembered).
Proof.
  apply (sampleBatch_valid three_remembered 2 two_draws);
    [lia | vm_compute; lia | reflexivity].
Defined.

(** On that input the call returns the transitions of the slots 0 and 1
    and consumes the two draws. *)
Example sampleBatch_two_of_three :
  sampleBatch three_remembered 2 two_draws
  = Ret ([Some (numbered 0); Some (numbered 1)], []).
Proof. vm_compute. reflexivity. Qed.

(** ** Halting in the middle of an episode *)

Section Halting.

Context {E M : Type} `{EnvLike E} `{ValueModel M}.

Implicit Types (a : Agent (E := E) (M := M)) (w : World (E := E) (M := M)).

Lemma tick_steps l w : steps (fst (tick l w)) = S (steps l).
Proof.
  unfold tick. destruct (act _ _ _) as [act_ tape1].
  destruct (env_step _ _) as [e2 result]. reflexivity.
Qed.

Lemma loop_cond_steps l w : loop_cond l w = true -> (steps l < maxSteps)%nat.
Proof.
  unfold loop_cond. intros Hc.
  apply andb_true_iff in Hc as [Hc _]. apply andb_true_iff in Hc as [_ Hc].
  apply Nat.ltb_lt, Hc.
Qed.

(** A halt met by the loop makes it return early with the pause done,
    whatever fuel the remaining steps leave. *)
Lemma rollout_halts l w l' w' :
  halts_at l w l' w' ->
  forall fuel, (maxSteps - steps l <= fuel)%nat ->
  rollout fuel l w = (None, pause l' w').
Proof.
  induction 1 as [l w l' w' Hc Ht Hh | l w l1 w1 l' w' Hc Ht Hh _ IH];
    intros fuel Hfuel; pose proof (loop_cond_steps l w Hc) as Hs;
    (destruct fuel as [|fuel]; [lia |]); cbn [rollout]; rewrite Hc, Ht, Hh.
  - reflexivity.
  - apply IH. pose proof (tick_steps l w) as Hst. rewrite Ht in Hst. cbn in Hst. lia.
Qed.

Lemma halts_at_halted l w l' w' : halts_at l w l' w' -> halted l' w' = true.
Proof. induction 1; assumption. Qed.

Lemma records_ignore_rollout : ignores_rollout (records (E := E) (M := M)).
Proof. constructor; reflexivity. Qed.

Lemma model_ignores_rollout : ignores_rollout (model (E := E) (M := M)).
Proof. constructor; reflexivity. Qed.

(** C8: when the loop of [trainEpisode] meets a halt (training switched
    off at the end of an iteration that has not ended the episode), the
    call returns [null] with the locals of that iteration saved and the
    pause flag up, and, the page sending nothing but stops and speed
    changes, it has left epsilon, the statistics, the log and the episode
    index as they were and has not fitted the network. *)
Theorem halt_returns_sentinel (isDDQN : bool) w l' w' :
  halts_at (fst (begin isDDQN w)) (snd (begin isDDQN w)) l' w' ->
  calm (pending w) = true ->
  let w1 := pause l' w' in
  trainEpisode isDDQN w = Ret (None, w1)
  /\ currentEpisodeState (agent w1) = Some l'
  /\ isPaused (agent w1) = true
  /\ ep_done l' = false
  /\ epsilon (agent w1) = epsilon (agent w)
  /\ episode (agent w1) = episode (agent w)
  /\ episodeRewards (agent w1) = episodeRewards (agent w)
  /\ episodeScores (agent w1) = episodeScores (agent w)
  /\ episodeLengths (agent w1) = episodeLengths (agent w)
  /\ logged (agent w1) = logged (agent w)
  /\ model (agent w1) = model (agent (snd (begin isDDQN w))).
Proof.
  intros Hhalt Hcalm. cbn zeta.
  pose proof (rollout_halts _ _ _ _ Hhalt _ (Nat.le_refl _)) as Hroll.
  pose proof (halts_at_halted _ _ _ _ Hhalt) as Hh.
  destruct (begin_keeps records isDDQN w records_ignore_rollout) as [Hb Hp];
    [reflexivity |].
  assert (Hrun : trainEpisode isDDQN w = Ret (None, pause l' w')).
  { unfold trainEpisode. destruct (begin isDDQN w) as [l0 w0]. cbn [fst snd] in *.
    rewrite Hroll. reflexivity. }
  assert (Hrec : records (agent (pause l' w')) = records (agent w)).
  { rewrite <- Hb.
    destruct (rollout_keeps records (maxSteps - steps (fst (begin isDDQN w)))
                (fst (begin isDDQN w)) (snd (begin isDDQN w)) records_ignore_rollout)
      as [Hr _].
    - rewrite Hp. apply calm_events_keep; [exact records_ignore_rollout | exact Hcalm].
    - rewrite Hroll in Hr. exact Hr. }
  assert (Hmod : model (agent (pause l' w')) = model (agent (snd (begin isDDQN w)))).
  { destruct (rollout_keeps model (maxSteps - steps (fst (begin isDDQN w)))
                (fst (begin isDDQN w)) (snd (begin isDDQN w)) model_ignores_rollout)
      as [Hr _].
    - rewrite Hp. apply calm_events_keep; [exact model_ignores_rollout | exact Hcalm].
    - rewrite Hroll in Hr. exact Hr. }
  unfold records in Hrec. injection Hrec as He Hep Hrw Hsc Hln Hlg.
  unfold halted in Hh. apply andb_true_iff in Hh as [_ Hd]. apply negb_true_iff in Hd.
  repeat split; assumption.
Qed.

End Halting.

Lemma halt_returns_sentinel_witness :
  let w := stopped_in_first_sleep in
  let l' := fst (tick (fst (begin true w)) (snd (begin true w))) in
  let w1 := pause l' (snd (tick (fst (begin true w)) (snd (begin true w)))) in
  trainEpisode true w = Ret (None, w1)
  /\ currentEpisodeState (agent w1) = Some l'
  /\ isPaused (agent w1) = true
  /\ ep_done l' = false
  /\ epsilon (agent w1) = epsilon (agent w)
  /\ episode (agent w1) = episode (agent w)
  /\ episodeRewards (agent w1) = episodeRewards (agent w)
  /\ episodeScores (agent w1) = episodeScores (agent w)
  /\ episodeLengths (agent w1) = episodeLengths (agent w)
  /\ logged (agent w1) = logged (agent w)
  /\ model (agent w1) = model (agent (snd (begin true w))).
Proof.
  cbn zeta. apply (halt_returns_sentinel true stopped_in_first_sleep).
  - apply halts_now.
    + vm_compute. reflexivity.
    + apply surjective_pairing.
    + vm_compute. reflexivity.
  - reflexivity.
Defined.

(** ** The decay of epsilon *)

Lemma decay_step_bounds (m e d : Q) :
  0 <= m -> m <= e -> d <= 1 ->
  m <= Math_max m (e * d) /\ Math_max m (e * d) <= e.
Proof.
  intros Hm Hme Hd. split; [apply Math_max_lub |].
  destruct (Math_max_cases m (e * d)) as [-> | ->]; [exact Hme | nra].
Qed.

Section Decay.

Context {E M : Type} `{EnvLike E} `{ValueModel M}.

Implicit Types (a : Agent (E := E) (M := M)) (w : World (E := E) (M := M)).

Local Abbreviation rates := (Agent.rates (E := E) (M := M)).

Lemma rates_ignore_rollout : ignores_rollout rates.
Proof. constructor; reflexivity. Qed.

Lemma epsilon_untouched_keeps pd :
  epsilon_untouched pd = true -> events_keep rates pd.
Proof.
  intros Hc. unfold epsilon_untouched in Hc. rewrite forallb_forall in Hc.
  apply Forall_forall. intros evs Hevs. apply list_elem_of_In, Hc in Hevs.
  rewrite forallb_forall in Hevs.
  apply Forall_forall. intros ev Hev. apply list_elem_of_In, Hevs in Hev.
  intros a. destruct ev; try discriminate; reflexivity.
Qed.

(** The tail of [trainEpisode] decays epsilon once. *)
Lemma finish_rates isDDQN l w r w' :
  events_keep rates (pending w) ->
  finish isDDQN l w = Ret (r, w') ->
  rates (agent w')
  = (Math_max (epsilonMin (agent w)) (epsilon (agent w) * epsilonDecay (agent w)),
     epsilonDecay (agent w), epsilonMin (agent w)).
Proof.
  intros Hk. unfold finish.
  destruct (replay isDDQN _) as [w2 | |] eqn:Hrep; cbn; try discriminate.
  apply (replay_keeps rates) in Hrep as [Hr _]; [| reflexivity | exact Hk].
  intros [= _ <-]. cbn in Hr. unfold rates in *. cbn.
  injection Hr as -> -> ->. reflexivity.
Qed.

(** A completed call of [trainEpisode] decays epsilon once and leaves the
    decay and the floor alone. *)
Lemma trainEpisode_rates isDDQN w r w' :
  epsilon_untouched (pending w) = true ->
  trainEpisode isDDQN w = Ret (Some r, w') ->
  rates (agent w')
  = (Math_max (epsilonMin (agent w)) (epsilon (agent w) * epsilonDecay (agent w)),
     epsilonDecay (agent w), epsilonMin (agent w)).
Proof.
  intros Hq. apply epsilon_untouched_keeps in Hq.
  destruct (begin_keeps rates isDDQN w rates_ignore_rollout) as [Hb Hp];
    [reflexivity |].
  unfold trainEpisode. destruct (begin isDDQN w) as [l0 w0]. cbn [fst snd] in *.
  destruct (rollout_keeps rates (maxSteps - steps l0) l0 w0 rates_ignore_rollout)
    as [Hr Hk]; [rewrite Hp; exact Hq |].
  destruct (rollout _ l0 w0) as [[l1|] w1]; cbn [snd] in *; [| discriminate].
  destruct (finish isDDQN l1 w1) as [[r' w2] | |] eqn:Hfin; cbn; try discriminate.
  intros [= _ <-].
  rewrite (finish_rates _ _ _ _ _ Hk Hfin).
  rewrite Hb in Hr. unfold rates in Hr. injection Hr as -> -> ->. reflexivity.
Qed.

(** C9 (with the floor required to be non-negative): over [n] episodes
    run to completion with no outside write to epsilon, epsilon becomes
    [max(epsilonMin, epsilon * epsilonDecay)] once per episode; with
    [0 <= epsilonMin <= epsilon] and [epsilonDecay <= 1] it does not
    increase and stays at or above [epsilonMin]. *)
Theorem epsilon_decay (isDDQN : bool) (n : nat) w w' :
  completes isDDQN n w w' ->
  0 <= epsilonMin (agent w) ->
  epsilonMin (agent w) <= epsilon (agent w) ->
  epsilonDecay (agent w) <= 1 ->
  epsilon (agent w') = decayed (agent w) n
  /\ epsilonDecay (agent w') = epsilonDecay (agent w)
  /\ epsilonMin (agent w') = epsilonMin (agent w)
  /\ epsilon (agent w') <= epsilon (agent w)
  /\ epsilonMin (agent w) <= epsilon (agent w').
Proof.
  induction 1 as [w | n w r w1 w2 Hq Hrun _ IH]; intros Hm Hme Hd.
  - repeat split; try reflexivity; [apply Qle_refl | exact Hme].
  - pose proof (trainEpisode_rates _ _ _ _ Hq Hrun) as Hr.
    unfold rates in Hr. injection Hr as He Hdec Hmin.
    destruct (decay_step_bounds _ _ _ Hm Hme Hd) as [Hlo Hhi].
    rewrite <- He in Hlo, Hhi.
    destruct IH as (IHe & IHd & IHm & IHle & IHge);
      [rewrite Hmin; exact Hm | rewrite Hmin; exact Hlo | rewrite Hdec; exact Hd |].
    split; [| split; [| split; [| split]]].
    + rewrite IHe. unfold decayed. rewrite Nat.iter_succ_r, Hmin, Hdec, He. reflexivity.
    + congruence.
    + congruence.
    + eapply Qle_trans; [exact IHle | exact Hhi].
    + rewrite <- Hmin. exact IHge.
Qed.

(** *** The loop of [train] *)

Lemma suspend_pending w : pending (suspend w) `suffix_of` pending w.
Proof.
  unfold suspend. destruct (pending w) as [|evs later] eqn:Hp.
  - rewrite Hp. reflexivity.
  - cbn. apply suffix_cons_r. reflexivity.
Qed.

Lemma tick_pending l w : pending (snd (tick l w)) `suffix_of` pending w.
Proof.
  unfold tick. destruct (act _ _ _) as [act_ tape1].
  destruct (env_step _ _) as [e2 result]. cbn [snd].
  match goal with |- context [if ?c then suspend ?w4 else _] =>
    destruct c; [apply (suspend_pending w4) | reflexivity] end.
Qed.

Lemma rollout_pending fuel : forall l w,
  pending (snd (rollout fuel l w)) `suffix_of` pending w.
Proof.
  induction fuel as [|fuel IH]; intros l w; cbn [rollout]; [reflexivity |].
  destruct (loop_cond l w); [| reflexivity].
  pose proof (tick_pending l w) as Ht.
  destruct (tick l w) as [l' w']. cbn [snd] in Ht.
  destruct (halted l' w'); [exact Ht |].
  etransitivity; [apply IH | exact Ht].
Qed.

Lemma replay_pending isDDQN w w' :
  replay isDDQN w = Ret w' -> pending w' `suffix_of` pending w.
Proof.
  unfold replay. destruct (_ <? _)%nat.
  - intros [= <-]. reflexivity.
  - destruct (sampleBatch _ _ _) as [[batch tape'] | |]; cbn; try discriminate.
    destruct (replay_rows _ _ _) as [[states targets] | |]; cbn; try discriminate.
    intros [= <-].
    match goal with |- context [suspend ?w1] => apply (suspend_pending w1) end.
Qed.

Lemma trainEpisode_pending isDDQN w r w' :
  trainEpisode isDDQN w = Ret (r, w') -> pending w' `suffix_of` pending w.
Proof.
  unfold trainEpisode.
  destruct (begin_keeps rates isDDQN w rates_ignore_rollout) as [_ Hb];
    [reflexivity |].
  destruct (begin isDDQN w) as [l0 w0]. cbn [snd] in Hb. rewrite <- Hb.
  pose proof (rollout_pending (maxSteps - steps l0) l0 w0) as Hr.
  destruct (rollout _ l0 w0) as [[l1|] w1]; cbn [snd] in Hr.
  - unfold finish.
    destruct (replay isDDQN _) as [w2 | |] eqn:Hrep; cbn; try discriminate.
    apply replay_pending in Hrep. intros [= _ <-]. cbn.
    etransitivity; [exact Hrep | exact Hr].
  - intros [= _ <-]. exact Hr.
Qed.

Lemma epsilon_untouched_suffix (p1 p2 : list (list Event)) :
  p1 `suffix_of` p2 -> epsilon_untouched p2 = true -> epsilon_untouched p1 = true.
Proof.
  intros [k ->]. unfold epsilon_untouched. rewrite forallb_app.
  intros Hk. apply andb_true_iff in Hk as [_ Hk]. exact Hk.
Qed.

(** What [train] runs is a row of completed episodes, followed by
    nothing or by one paused episode. *)
Lemma train_loop_completes isDDQN n : forall w w',
  epsilon_untouched (pending w) = true ->
  train_loop n isDDQN w = Ret w' ->
  exists m w'', (m <= n)%nat /\ completes isDDQN m w w''
    /\ (w' = w'' \/ trainEpisode isDDQN w'' = Ret (None, w')).
Proof.
  induction n as [|n IH]; intros w w' Hq; cbn [train_loop].
  - intros [= <-]. exists 0%nat, w. split; [lia |]. split; [constructor | auto].
  - destruct (isTraining (agent w)).
    + destruct (trainEpisode isDDQN w) as [[[r|] w1] | |] eqn:Hrun; cbn; try discriminate.
      * intros Hrest.
        pose proof (epsilon_untouched_suffix _ _ (trainEpisode_pending _ _ _ _ Hrun) Hq)
          as Hq1.
        destruct (IH w1 w' Hq1 Hrest) as (m & w'' & Hm & Hc & Hend).
        exists (S m), w''. split; [lia |]. split; [| exact Hend].
        econstructor; eassumption.
      * intros [= <-]. exists 0%nat, w. split; [lia |]. split; [constructor | auto].
    + intros [= <-]. exists 0%nat, w. split; [lia |]. split; [constructor | auto].
Qed.

End Decay.

Lemma epsilon_decay_witness :
  epsilon (agent undisturbed_after) = decayed (agent undisturbed) 1
  /\ epsilonDecay (agent undisturbed_after) = epsilonDecay (agent undisturbed)
  /\ epsilonMin (agent undisturbed_after) = epsilonMin (agent undisturbed)
  /\ epsilon (agent undisturbed_after) <= epsilon (agent undisturbed)
  /\ epsilonMin (agent undisturbed) <= epsilon (agent undisturbed_after).
Proof.
  apply (epsilon_decay true 1 undisturbed undisturbed_after).
  - eapply completes_S; [reflexivity | | apply completes_0].
    vm_compute. reflexivity.
  - vm_compute. discriminate.
  - vm_compute. discriminate.
  - vm_compute. discriminate.
Defined.

(** C9 (as stated) fails below zero: configured with [epsilonMin = -1],
    [epsilon = -1/2] and [epsilonDecay = 1/2], one completed episode moves
    epsilon up to [-1/4]. *)
Lemma epsilon_can_increase :
  completes true 1 negative_rates negative_rates_after
  /\ epsilonMin (agent negative_rates) <= epsilon (agent negative_rates)
  /\ epsilonDecay (agent negative_rates) <= 1
  /\ epsilon (agent negative_rates) == - (1 # 2)
  /\ epsilon (agent negative_rates_after) == - (1 # 4)
  /\ ~ epsilon (agent negative_rates_after) <= epsilon (agent negative_rates).
Proof.
  split; [| repeat split; try (vm_compute; (reflexivity || discriminate))].
  - eapply completes_S; [reflexivity | | apply completes_0].
    vm_compute. reflexivity.
  - vm_compute. intros Hle. apply Hle. reflexivity.
Qed.

(** ** The saved episode and the pause flag *)

Section Saved.

Context {E M : Type} `{EnvLike E} `{ValueModel M}.

Implicit Types (a b : Agent (E := E) (M := M)) (w : World (E := E) (M := M)).








Lemma events_cleared evs : forall a, cleared a -> cleared (fold_left apply_event evs a).
Proof.
  induction evs as [|ev evs IH]; intros a Ha; cbn; [exact Ha |].
  apply IH. destruct ev; cbn; try exact Ha. split; reflexivity.
Qed.

Lemma replay_cleared isDDQN w w' :
  cleared (agent w) -> replay isDDQN w = Ret w' -> cleared (agent w').
Proof.
  intros Hc. unfold replay. destruct (_ <? _)%nat.
  - intros [= <-]. exact Hc.
  - destruct (sampleBatch _ _ _) as [[batch tape'] | |]; cbn; try discriminate.
    destruct (replay_rows _ _ _) as [[states targets] | |]; cbn; try discriminate.
    intros [= <-]. unfold suspend. cbn [pending agent].
    destruct (pending w); cbn [agent]; [exact Hc | apply events_cleared; exact Hc].
Qed.

Lemma finish_cleared isDDQN l w r w' :
  finish isDDQN l w = Ret (r, w') -> cleared (agent w').
Proof.
  unfold finish.
  destruct (replay isDDQN _) as [w2 | |] eqn:Hrep; cbn; try discriminate.
  apply replay_cleared in Hrep; [| split; reflexivity].
  intros [= _ <-]. exact Hrep.
Qed.


Lemma rollout_moves fuel : forall l w, rtc move w (snd (rollout fuel l w)).
Proof.
  induction fuel as [|fuel IH]; intros l w; cbn [rollout]; [apply rtc_refl |].
  destruct (loop_cond l w); [| apply rtc_refl].
  pose proof (move_tick l w) as Ht.
  destruct (tick l w) as [l' w']. cbn [snd] in Ht.
  destruct (halted l' w').
  - cbn [snd]. eapply rtc_l; [exact Ht |]. apply rtc_once, move_pause.
  - eapply rtc_l; [exact Ht | apply IH].
Qed.

(** Every call of [trainEpisode] is a sequence of moves. *)
Lemma trainEpisode_moves isDDQN w r w' :
  trainEpisode isDDQN w = Ret (r, w') -> rtc move w w'.
Proof.
  unfold trainEpisode.
  pose proof (move_begin isDDQN w) as Hb.
  destruct (begin isDDQN w) as [l0 w0]. cbn [snd] in Hb.
  pose proof (rollout_moves (maxSteps - steps l0) l0 w0) as Hr.
  destruct (rollout _ l0 w0) as [[l1|] w1]; cbn [snd] in Hr.
  - destruct (finish isDDQN l1 w1) as [[r' w2] | |] eqn:Hf; cbn; try discriminate.
    intros [= _ <-].
    eapply rtc_l; [exact Hb |]. eapply rtc_trans; [exact Hr |].
    apply rtc_once. eapply move_finish, Hf.
  - intros [= _ <-]. eapply rtc_l; [exact Hb | exact Hr].
Qed.



End Saved.



(** ** Pausing and resuming *)

Section Resume.

Context {E M : Type} `{EnvLike E} `{ValueModel M}.

Implicit Types (a : Agent (E := E) (M := M)) (w : World (E := E) (M := M)).

Local Abbreviation setup := (Agent.setup (E := E) (M := M)).

Lemma setup_ignores_rollout : ignores_rollout setup.
Proof. constructor; reflexivity. Qed.

Lemma tick_quiet l w d :
  quiet w d ->
  quiet (snd (tick l w)) d /\ setup (agent (snd (tick l w))) = setup (agent w).
Proof.
  intros (Hp & Ht & Hd & Hpos). unfold tick.
  destruct (act _ _ _) as [act_ tape1].
  destruct (env_step _ _) as [e2 result]. cbn [snd].
  unfold suspend. cbn [pending agent]. rewrite Hp.
  destruct (_ <? _)%nat; (split; [repeat split; assumption | reflexivity]).
Qed.

(** With a schedule, the body of the loop does what it does without one
    and then handles the events of its sleep. *)
Lemma tick_scheduled l w d evs later :
  quiet w d ->
  tick l (with_pending (evs :: later) w)
  = (fst (tick l w),
     with_pending later (with_agent (fold_left apply_event evs) (snd (tick l w)))).
Proof.
  intros (Hp & Ht & Hd & Hpos). unfold tick.
  cbn [with_pending agent tape pending].
  destruct (act _ _ _) as [act_ tape1].
  destruct (env_step _ _) as [e2 result].
  cbn [fst snd trainingDelay set_totalSteps remember set_memoryIndex set_memory set_env].
  rewrite Hd. apply Nat.ltb_lt in Hpos. rewrite Hpos.
  unfold suspend. cbn [pending agent tape]. rewrite Hp. reflexivity.
Qed.

Lemma with_pending_same w : pending w = [] -> with_pending [] w = w.
Proof. destruct w as [a t p]. cbn. intros ->. reflexivity. Qed.

(** A Stop during the sleep of an iteration that has not ended the
    episode is a halt. *)
Lemma stop_in_sleep_halts l w d later :
  quiet w d -> loop_cond l w = true -> ep_done (fst (tick l w)) = false ->
  halts_at l (with_pending ([EvStop] :: later) w)
    (fst (tick l w)) (with_pending later (with_agent stop (snd (tick l w)))).
Proof.
  intros Hq Hc Hlive. apply halts_now.
  - exact Hc.
  - rewrite (tick_scheduled l w d _ _ Hq). reflexivity.
  - unfold halted. rewrite Hlive. reflexivity.
Qed.

(** A loop that a Stop in its [k+1]-th sleep turns into a pause has run
    [k+1] iterations, the same that the undisturbed loop starts with. *)
Lemma rollout_prefix k : forall fuel l w d w1,
  quiet w d ->
  rollout fuel l (with_pending (replicate k [] ++ [[EvStop]]) w) = (None, w1) ->
  exists l' w',
    w1 = pause l' (with_agent stop w')
    /\ rollout fuel l w = rollout (fuel - S k) l' w'
    /\ steps l' = (steps l + S k)%nat
    /\ quiet w' d
    /\ setup (agent w') = setup (agent w).
Proof.
  induction k as [|k IH]; intros fuel l w d w1 Hq Hrun;
    (destruct fuel as [|fuel]; [discriminate |]);
    cbn [rollout replicate app] in Hrun |- *;
    change (loop_cond l (with_pending _ w)) with (loop_cond l w) in Hrun;
    (destruct (loop_cond l w) eqn:Hc; [| discriminate]);
    rewrite (tick_scheduled l w d _ _ Hq) in Hrun;
    destruct (tick_quiet l w d Hq) as [Hq' Hsetup];
    pose proof (tick_steps l w) as Hsteps;
    destruct (tick l w) as [l' w']; cbn [fst snd] in *;
    destruct Hq' as (Hp' & Ht' & Hd' & Hpos).
  - (* the Stop arrives in this sleep *)
    assert (Hoff : halted l' w' = false) by (unfold halted; rewrite Ht'; reflexivity).
    rewrite Hoff.
    unfold halted in Hrun. cbn [with_pending with_agent agent fold_left apply_event stop
                               isTraining set_isTraining negb andb] in Hrun.
    destruct (ep_done l') eqn:Hdone; cbn [negb] in Hrun.
    + destruct fuel; cbn [rollout] in Hrun; [discriminate |].
      unfold loop_cond in Hrun. rewrite Hdone in Hrun. cbn in Hrun. discriminate.
    + injection Hrun as <-. exists l', w'.
      split; [| split; [| split; [| split]]].
      * unfold pause, with_agent, with_pending. cbn. rewrite Hp'. reflexivity.
      * replace (S fuel - 1)%nat with fuel by lia. reflexivity.
      * lia.
      * repeat split; assumption.
      * exact Hsetup.
  - (* an empty sleep *)
    assert (Hoff : halted l' w' = false) by (unfold halted; rewrite Ht'; reflexivity).
    rewrite Hoff.
    assert (Hsame : with_agent (fold_left apply_event []) w' = w')
      by (destruct w'; reflexivity).
    rewrite Hsame in Hrun.
    change (halted l' (with_pending _ w')) with (halted l' w') in Hrun.
    rewrite Hoff in Hrun.
    destruct (IH fuel l' w' d w1) as (l2 & w2 & Hw1 & Hroll & Hst & Hq2 & Hset2);
      [repeat split; assumption | exact Hrun |].
    exists l2, w2. split; [exact Hw1 |]. split; [exact Hroll |].
    split; [lia |]. split; [exact Hq2 | congruence].
Qed.

(** The body of the loop neither reads nor, without events, writes the
    saved episode and the pause flag. *)
Lemma tick_set_saved l w c b :
  pending w = [] ->
  tick l (with_agent (set_saved c b) w)
  = (fst (tick l w), with_agent (set_saved c b) (snd (tick l w))).
Proof.
  intros Hp. destruct w as [a t p]. cbn in Hp. subst p. unfold tick.
  cbn [with_agent agent tape pending].
  change (act (set_saved c b a)) with (act a).
  destruct (act a (ep_state l) t) as [act_ tape1].
  change (env (set_env (env_set_lastAction (env (set_saved c b a)) act_)
                 (set_saved c b a)))
    with (env (set_env (env_set_lastAction (env a) act_) a)).
  destruct (env_step _ act_) as [e2 result].
  cbn [fst snd]. f_equal.
  unfold suspend. cbn [pending agent tape].
  destruct a; destruct (_ <? _)%nat; reflexivity.
Qed.

Lemma rollout_set_saved fuel : forall l w d c b,
  quiet w d ->
  (exists lf, fst (rollout fuel l w) = Some lf)
  /\ rollout fuel l (with_agent (set_saved c b) w)
     = (fst (rollout fuel l w), with_agent (set_saved c b) (snd (rollout fuel l w))).
Proof.
  induction fuel as [|fuel IH]; intros l w d c b Hq; cbn [rollout].
  - split; [eexists |]; reflexivity.
  - change (loop_cond l (with_agent (set_saved c b) w)) with (loop_cond l w).
    destruct (loop_cond l w); [| split; [eexists |]; reflexivity].
    rewrite tick_set_saved by apply Hq.
    destruct (tick_quiet l w d Hq) as [Hq' _].
    destruct (tick l w) as [l' w']. cbn [fst snd] in *.
    change (halted l' (with_agent (set_saved c b) w')) with (halted l' w').
    assert (Hoff : halted l' w' = false).
    { unfold halted. destruct Hq' as (_ & -> & _). reflexivity. }
    rewrite Hoff. apply IH with d. exact Hq'.
Qed.

(** The tail of [trainEpisode] starts by clearing both. *)
Lemma finish_set_saved isDDQN l w c b :
  finish isDDQN l (with_agent (set_saved c b) w) = finish isDDQN l w.
Proof.
  unfold finish.
  replace (with_agent (fun a => set_isPaused false (set_currentEpisodeState None a))
             (with_agent (set_saved c b) w))
    with (with_agent (fun a => set_isPaused false (set_currentEpisodeState None a)) w)
    by (destruct w as [[] ? ?]; reflexivity).
  reflexivity.
Qed.

Lemma begin_with_pending isDDQN pd w :
  begin isDDQN (with_pending pd w)
  = (fst (begin isDDQN w), with_pending pd (snd (begin isDDQN w))).
Proof.
  unfold begin. cbn [with_pending agent].
  set (a1 := match updateTarget with Some _ => _ | None => _ end).
  destruct (currentEpisodeState a1); [destruct (isPaused a1) |];
    try destruct (env_reset _); reflexivity.
Qed.

Lemma begin_quiet isDDQN w d : quiet w d -> quiet (snd (begin isDDQN w)) d.
Proof.
  intros (Hp & Ht & Hd & Hpos). unfold begin.
  set (a1 := match updateTarget with Some _ => _ | None => _ end).
  assert (Ha1 : isTraining a1 = true /\ trainingDelay a1 = d).
  { subst a1. destruct updateTarget; [| auto]. destruct (_ && _); auto. }
  destruct Ha1 as [Ht1 Hd1].
  destruct (currentEpisodeState a1); [destruct (isPaused a1) |];
    try destruct (env_reset _); repeat split; assumption.
Qed.

Lemma begin_synchronised isDDQN w :
  (forall ut m, updateTarget = Some ut -> ut (ut m) = ut m) ->
  synchronised isDDQN (agent (snd (begin isDDQN w))).
Proof.
  intros Hidem ut Hut. unfold begin. rewrite Hut.
  destruct (isDDQN && divides (targetUpdateFreq (agent w)) (episode (agent w))) eqn:Hc.
  - intros _.
    destruct (currentEpisodeState _); [destruct (isPaused _) |];
      try destruct (env_reset _); cbn; apply Hidem, Hut.
  - destruct (currentEpisodeState _); [destruct (isPaused _) |];
      try destruct (env_reset _); cbn; rewrite Hc; discriminate.
Qed.

Lemma synchronised_setup isDDQN a b :
  setup b = setup a -> synchronised isDDQN a -> synchronised isDDQN b.
Proof.
  unfold setup. intros [= Hm He Hf] Ha ut Hut. rewrite Hm, He, Hf. apply Ha, Hut.
Qed.

(** The head of the call that resumes: the saved locals, and the world
    of the pause with training on and the flag down. *)
Lemma begin_after_pause isDDQN l' w' d :
  quiet w' d -> synchronised isDDQN (agent w') ->
  begin isDDQN (start_training d (pause l' (with_agent stop w')))
  = (l', with_agent (set_saved (Some l') false) w').
Proof.
  intros (Hp & Ht & Hd & Hpos) Hsync. unfold begin.
  destruct w' as [a t p]. cbn in Hp, Ht, Hd, Hsync. subst p.
  cbn [start_training pause with_agent agent tape pending].
  set (a0 := set_trainingDelay d _).
  assert (Ha1 : match updateTarget with
                | Some ut =>
                    if isDDQN && divides (targetUpdateFreq a0) (episode a0)
                    then set_model (ut (model a0)) a0 else a0
                | None => a0
                end = a0).
  { destruct updateTarget as [ut|] eqn:Hut; [| reflexivity].
    destruct (_ && _) eqn:Hc; [| reflexivity].
    subst a0. cbn in Hc |- *. rewrite (Hsync ut Hut Hc).
    destruct a; reflexivity. }
  rewrite Ha1. subst a0. cbn. f_equal. unfold with_agent. cbn. f_equal.
  destruct a; cbn in *; subst; reflexivity.
Qed.

(** C7: take a world in which training runs with a delay and nobody
    touches the page, and let a Stop arrive in the [k+1]-th sleep of the
    episode.  If the call returns the pause, then starting training again
    and calling [trainEpisode] gives the very outcome of the undisturbed
    call (the result and the whole world: memory, counters, statistics),
    and the loop ends with the same locals (state, done, totalReward,
    steps).  Synchronising the target network is taken to be idempotent,
    as copying the weights is. *)
Theorem pause_resume_equivalence (isDDQN : bool) w (k d : nat) w1 :
  quiet w d ->
  (forall ut m, updateTarget = Some ut -> ut (ut m) = ut m) ->
  trainEpisode isDDQN (with_pending (replicate k [] ++ [[EvStop]]) w) = Ret (None, w1) ->
  let w2 := start_training d w1 in
  trainEpisode isDDQN w2 = trainEpisode isDDQN w
  /\ final_locals isDDQN w2 = final_locals isDDQN w
  /\ exists l, final_locals isDDQN w = Some l.
Proof.
  intros Hq Hidem Hrun. cbn zeta.
  pose proof (begin_quiet isDDQN w d Hq) as Hq0.
  pose proof (begin_synchronised isDDQN w Hidem) as Hs0.
  unfold trainEpisode, final_locals in *.
  rewrite begin_with_pending in Hrun.
  destruct (begin isDDQN w) as [l0 w0]. cbn [fst snd] in *.
  destruct (rollout _ l0 (with_pending _ w0)) as [[l1|] w1'] eqn:Hroll.
  { destruct (finish isDDQN l1 w1') as [[] | |]; discriminate. }
  injection Hrun as ->.
  destruct (rollout_prefix k _ l0 w0 d w1 Hq0 Hroll)
    as (l' & w' & -> & Hsame & Hsteps & Hq' & Hsetup).
  rewrite (begin_after_pause isDDQN l' w' d Hq'
             (synchronised_setup isDDQN _ _ Hsetup Hs0)).
  replace (maxSteps - steps l')%nat with (maxSteps - steps l0 - S k)%nat by lia.
  destruct (rollout_set_saved (maxSteps - steps l0 - S k) l' w' d (Some l') false Hq')
    as [[lf Hlf] Hcomm].
  rewrite Hcomm, Hsame, Hlf.
  destruct (rollout _ l' w') as [lf' wf]. cbn [fst snd] in *. subst lf'.
  rewrite finish_set_saved.
  split; [reflexivity |]. split; [reflexivity |]. exists lf. reflexivity.
Qed.

End Resume.

Lemma pause_resume_equivalence_witness :
  let w2 := start_training 50 paused_in_third_sleep in
  trainEpisode true w2 = trainEpisode true undisturbed
  /\ final_locals true w2 = final_locals true undisturbed
  /\ exists l, final_locals true undisturbed = Some l.
Proof.
  apply (pause_resume_equivalence true undisturbed 2 50 paused_in_third_sleep).
  - repeat split. vm_compute. lia.
  - intros ut m [= <-]. reflexivity.
  - vm_compute. reflexivity.
Defined.

(** On that input: the stopped call has run three steps, the resumed
    call finishes the episode at step 12, as the undisturbed call does. *)
Example pause_resume_steps :
  (steps <$> currentEpisodeState (agent paused_in_third_sleep)) = Some 3%nat
  /\ (steps <$> final_locals true (start_training 50 paused_in_third_sleep)) = Some 12%nat
  /\ (steps <$> final_locals true undisturbed) = Some 12%nat.
Proof. repeat split; vm_compute; reflexivity. Qed.

(** * More of the code *)

(** ** The game *)

Lemma Qfloor_unique (q : Q) (n : Z) :
  inject_Z n <= q -> q < inject_Z (n + 1) -> Qfloor q = n.
Proof.
  intros Hlo Hhi.
  assert (H1 : (n <= Qfloor q)%Z)
    by (rewrite <- (Qfloor_Z n); apply Qfloor_resp_le, Hlo).
  assert (H2 : (Qfloor q < n + 1)%Z).
  { rewrite Zlt_Qlt. eapply Qle_lt_trans; [apply Qfloor_le | exact Hhi]. }
  lia.
Qed.

Lemma Math_abs_nonneg a : 0 <= Math_abs a.
Proof.
  unfold Math_abs. destruct (Qltb a 0) eqn:Ha.
  - apply Qltb_lt in Ha. lra.
  - apply Qltb_ge in Ha. exact Ha.
Qed.

(** A draw of a valid tape, or the 0 past its end. *)
Lemma Math_random_valid tape :
  valid_tape tape = true ->
  0 <= fst (Math_random tape) /\ fst (Math_random tape) < 1
  /\ valid_tape (snd (Math_random tape)) = true.
Proof.
  intros Hv. destruct tape as [|r t]; cbn [Math_random fst snd].
  - split; [apply Qle_refl |]. split; reflexivity.
  - cbn in Hv. apply andb_true_iff in Hv as [Hr Ht].
    unfold unit_draw in Hr. apply andb_true_iff in Hr as [H0 H1].
    apply Qle_bool_iff in H0. apply Qltb_lt in H1. auto.
Qed.

(** [setTubeY] keeps the column of the tube and, for a draw in [[0, 1)],
    puts the top of the sprite between the rows -13 and -2. *)
Lemma setTubeY_spec (tube : Game.Tube) (tape : list Q) :
  valid_tape tape = true ->
  let res := Game.setTubeY tube tape in
  Game.x (fst res) = Game.x tube
  /\ (-13 <= Game.y (fst res) <= -2)%Z
  /\ valid_tape (snd res) = true.
Proof.
  intros Hv. cbn zeta. unfold Game.setTubeY.
  destruct (Math_random_valid tape Hv) as (H0 & H1 & Hv').
  destruct (Math_random tape) as [r tape']. cbn [fst snd] in *.
  split; [reflexivity |]. split; [| exact Hv'].
  set (span := inject_Z Game.height - 1 - 4 - inject_Z Game.tubeGap / 2
               - (4 + inject_Z Game.tubeGap / 2) + 1).
  assert (Hspan : span == 12) by reflexivity.
  set (k := Math_floor _).
  assert (Hk : (0 <= k <= 11)%Z).
  { subst k. unfold Math_floor. split.
    - rewrite <- (Qfloor_Z 0). apply Qfloor_resp_le.
      change (inject_Z 0) with 0. nra.
    - assert (Hlt : (Qfloor (r * span) < 12)%Z).
      { rewrite Zlt_Qlt. eapply Qle_lt_trans; [apply Qfloor_le |].
        change (inject_Z 12) with 12. nra. }
      lia. }
  set (low := 4 + inject_Z Game.tubeGap / 2).
  assert (Hlow : low == 10) by reflexivity.
  assert (Hy : Math_round (inject_Z k + low - (17 + 6)) = (k - 13)%Z).
  { unfold Math_round. clearbody k low span. apply Qfloor_unique.
    - unfold Z.sub. rewrite inject_Z_plus, inject_Z_opp.
      change (inject_Z 13) with 13. lra.
    - unfold Z.sub. rewrite !inject_Z_plus, inject_Z_opp.
      change (inject_Z 13) with 13. change (inject_Z 1) with 1. lra. }
  cbn [Game.y]. rewrite Hy. lia.
Qed.

(** X1: for draws in [[0, 1)], [setTubeY] keeps the column of the tube
    and places the gap of 12 rows at least 4 rows below the top of the
    screen and at least 4 rows above its last row, and the draws left on
    the tape are still in [[0, 1)]. *)
Theorem setTubeY_gap_on_screen (tube : Game.Tube) (tape : list Q) :
  valid_tape tape = true ->
  let tube' := fst (Game.setTubeY tube tape) in
  let gapTop := (Game.y tube' + Environment.tubeUpperHeight)%Z in
  Game.x tube' = Game.x tube
  /\ (4 <= gapTop)%Z
  /\ (gapTop + Game.tubeGap <= Game.height - 1 - 4)%Z
  /\ valid_tape (snd (Game.setTubeY tube tape)) = true.
Proof.
  intros Hv. cbn zeta.
  destruct (setTubeY_spec tube tape Hv) as (Hx & Hy & Hv').
  unfold Environment.tubeUpperHeight, Game.tubeGap, Game.height.
  repeat split; [exact Hx | lia | lia | exact Hv'].
Qed.

Lemma setTubeY_gap_on_screen_witness :
  let tube' := fst (Game.setTubeY (Game.Build_Tube 32 0) [1 # 2]) in
  let gapTop := (Game.y tube' + Environment.tubeUpperHeight)%Z in
  Game.x tube' = 32%Z
  /\ (4 <= gapTop)%Z
  /\ (gapTop + Game.tubeGap <= Game.height - 1 - 4)%Z
  /\ valid_tape (snd (Game.setTubeY (Game.Build_Tube 32 0) [1 # 2])) = true.
Proof.
  apply (setTubeY_gap_on_screen (Game.Build_Tube 32 0) [1 # 2]). reflexivity.
Defined.

(** *** The closest tube *)

Lemma closer_fold (l : list Game.Tube) (c : Game.Tube) :
  let r := fold_left Game.closer l c in
  In r (c :: l)
  /\ (Game.ahead c = true -> Game.ahead r = true /\ (Game.x r <= Game.x c)%Z)
  /\ (forall t, In t l -> Game.ahead t = true ->
        Game.ahead r = true /\ (Game.x r <= Game.x t)%Z).
Proof.
  cbn zeta. revert c. induction l as [|t l IH]; intros c; cbn [fold_left].
  - split; [left; reflexivity |]. split; [intros Hc; split; [exact Hc | lia] |].
    intros t [].
  - destruct (IH (Game.closer c t)) as (Hin & Hc & Hl).
    assert (Hstep : (Game.ahead c = true ->
                     Game.ahead (Game.closer c t) = true
                     /\ (Game.x (Game.closer c t) <= Game.x c)%Z)
                    /\ (Game.ahead t = true ->
                        Game.ahead (Game.closer c t) = true
                        /\ (Game.x (Game.closer c t) <= Game.x t)%Z)
                    /\ (Game.closer c t = c \/ Game.closer c t = t)).
    { unfold Game.closer, Game.ahead, Game.birdX, Game.tubeWidth.
      destruct (5 <? Game.x t + 6)%Z eqn:Ht.
      - destruct ((Game.x t <? Game.x c) || (Game.x c + 6 <=? 5))%Z eqn:Hor.
        + apply orb_true_iff in Hor. rewrite Ht.
          split; [| split; [intros _; split; [reflexivity | lia] | right; reflexivity]].
          intros Hc'. split; [reflexivity |].
          apply Z.ltb_lt in Hc'. destruct Hor as [Hlt | Hle];
            [apply Z.ltb_lt in Hlt | apply Z.leb_le in Hle]; lia.
        + apply orb_false_iff in Hor as [Hlt Hle].
          apply Z.ltb_ge in Hlt. apply Z.leb_gt in Hle.
          assert (Hc' : (5 <? Game.x c + 6)%Z = true) by (apply Z.ltb_lt; lia).
          rewrite Hc'.
          split; [intros _; split; [reflexivity | lia] |].
          split; [intros _; split; [reflexivity | lia] | left; reflexivity].
      - split; [intros Hc'; split; [exact Hc' | lia] |].
        split; [discriminate | left; reflexivity]. }
    destruct Hstep as (Hsc & Hst & Hwhich).
    split; [| split].
    + destruct Hin as [Heq | Hin]; [| right; right; exact Hin].
      rewrite <- Heq. destruct Hwhich as [-> | ->];
        [left; reflexivity | right; left; reflexivity].
    + intros Hc'. destruct (Hsc Hc') as [Ha Hx].
      destruct (Hc Ha) as [Ha' Hx']. split; [exact Ha' | lia].
    + intros t' [<- | Hin'] Ht'.
      * destruct (Hst Ht') as [Ha Hx].
        destruct (Hc Ha) as [Ha' Hx']. split; [exact Ha' | lia].
      * apply Hl; assumption.
Qed.

Lemma getClosestTube_spec (g : Game.Game) :
  In (Game.getClosestTube g) (Game.tube_list g)
  /\ (forall t, In t (Game.tube_list g) -> Game.ahead t = true ->
        Game.ahead (Game.getClosestTube g) = true
        /\ (Game.x (Game.getClosestTube g) <= Game.x t)%Z).
Proof.
  unfold Game.getClosestTube.
  destruct (closer_fold (Game.tube_list g) (fst (Game.tubes g))) as (Hin & Hc & Hl).
  cbn zeta in *. split.
  - destruct Hin as [<- | Hin]; [left; reflexivity | exact Hin].
  - exact Hl.
Qed.

(** X2: [getClosestTube] returns one of the tubes of the game, and when
    some tube has not been left behind by the bird it returns such a
    tube, the leftmost of them. *)
Theorem getClosestTube_nearest_ahead (g : Game.Game) :
  In (Game.getClosestTube g) (Game.tube_list g)
  /\ (forall t, In t (Game.tube_list g) -> Game.ahead t = true ->
        Game.ahead (Game.getClosestTube g) = true
        /\ (Game.x (Game.getClosestTube g) <= Game.x t)%Z).
Proof. exact (getClosestTube_spec g). Qed.

(** *** The layout of the tubes and the rows of the bird *)

(** One turn of the loop of [update()] over the tubes. *)
Lemma move_tube_spec (ts : list Game.Tube) (sc : Z) (tape : list Q) (t : Game.Tube) :
  valid_tape tape = true ->
  (-5 <= Game.x t <= 67)%Z -> (-13 <= Game.y t <= -2)%Z ->
  exists t' sc' tape',
    Game.move_tube (ts, sc, tape) t = (ts ++ [t'], sc', tape')
    /\ valid_tape tape' = true
    /\ (-13 <= Game.y t' <= -2)%Z
    /\ ((Game.x t = -5 /\ Game.x t' = 32) \/ (Game.x t <> -5 /\ Game.x t' = Game.x t - 1))%Z
    /\ ((Game.x t' = -1 /\ sc' = sc + 1) \/ (Game.x t' <> -1 /\ sc' = sc))%Z.
Proof.
  intros Hv Hx Hy. unfold Game.move_tube, Game.tubeWidth, Game.birdX.
  destruct (Game.x t - 1 <=? - (6))%Z eqn:Hout.
  - apply Z.leb_le in Hout.
    destruct (setTubeY_spec (Game.Build_Tube 32 (Game.y t)) tape Hv) as (Hx' & Hy' & Hv').
    destruct (Game.setTubeY _ tape) as [t' tape']. cbn [fst snd Game.x] in *.
    rewrite Hx'. cbn.
    exists t', sc, tape'. repeat split; try assumption; lia.
  - apply Z.leb_gt in Hout. cbn [Game.x Game.y].
    destruct (Game.x t - 1 =? 5 - 6)%Z eqn:Hsc.
    + apply Z.eqb_eq in Hsc.
      exists (Game.Build_Tube (Game.x t - 1) (Game.y t)), (sc + 1)%Z, tape.
      cbn. repeat split; try assumption; lia.
    + apply Z.eqb_neq in Hsc.
      exists (Game.Build_Tube (Game.x t - 1) (Game.y t)), sc, tape.
      cbn. repeat split; try assumption; lia.
Qed.

(** The loop of [update()] over the two tubes of a well placed game. *)
Lemma move_tubes_spec (g : Game.Game) :
  Game.well_placed g ->
  exists t0 t1 sc tape,
    fold_left Game.move_tube (Game.tube_list g) ([], Game.score g, Game.rand g)
    = ([t0; t1], sc, tape)
    /\ (-5 <= Game.x t0 <= 66)%Z /\ (-5 <= Game.x t1 <= 66)%Z
    /\ (Game.x t1 - Game.x t0 = 19 \/ Game.x t0 - Game.x t1 = 19)%Z
    /\ (-13 <= Game.y t0 <= -2)%Z /\ (-13 <= Game.y t1 <= -2)%Z
    /\ valid_tape tape = true
    /\ (Game.score g <= sc <= Game.score g + 1)%Z.
Proof.
  intros (t0 & t1 & Ht & Hx0 & Hx1 & Hd & Hy0 & Hy1 & Hv).
  unfold Game.tube_list. rewrite Ht. cbn [fst snd fold_left].
  destruct (move_tube_spec [] (Game.score g) (Game.rand g) t0 Hv Hx0 Hy0)
    as (t0' & sc0 & tape0 & -> & Hv0 & Hy0' & Hx0' & Hs0).
  destruct (move_tube_spec ([] ++ [t0']) sc0 tape0 t1 Hv0 Hx1 Hy1)
    as (t1' & sc1 & tape1 & -> & Hv1 & Hy1' & Hx1' & Hs1).
  exists t0', t1', sc1, tape1. cbn [app].
  repeat split; try assumption; lia.
Qed.

Lemma update_well_placed (g : Game.Game) :
  Game.well_placed g -> Game.well_placed (Game.update g).
Proof.
  intros Hw. unfold Game.update.
  destruct (Game.gameState g) eqn:Hst; [exact Hw | | exact Hw].
  destruct (move_tubes_spec g Hw)
    as (t0 & t1 & sc & tape & -> & Hx0 & Hx1 & Hd & Hy0 & Hy1 & Hv & _).
  destruct (Qltb _ 0); destruct (_ <? _)%Z; cbn;
    exists t0, t1; repeat split; try assumption; lia.
Qed.

Lemma jump_tubes (g : Game.Game) :
  Game.tubes (Game.jump g) = Game.tubes g /\ Game.rand (Game.jump g) = Game.rand g
  /\ Game.birdY (Game.jump g) = Game.birdY g.
Proof. unfold Game.jump. destruct (Game.gameState g); repeat split. Qed.

Lemma jump_well_placed (g : Game.Game) :
  Game.well_placed g -> Game.well_placed (Game.jump g).
Proof.
  destruct (jump_tubes g) as (Ht & Hr & _).
  unfold Game.well_placed. rewrite Ht, Hr. tauto.
Qed.

Lemma resetTubes_well_placed (g : Game.Game) :
  valid_tape (Game.rand g) = true -> Game.well_placed (Game.resetTubes g).
Proof.
  intros Hv. unfold Game.resetTubes.
  destruct (setTubeY_spec (Game.Build_Tube (Math_round (48 + 0 * 19)) 0) (Game.rand g) Hv)
    as (Hx0 & Hy0 & Hv0).
  destruct (Game.setTubeY _ (Game.rand g)) as [t0 tape0]. cbn [fst snd] in *.
  destruct (setTubeY_spec (Game.Build_Tube (Math_round (48 + 1 * 19)) 0) tape0 Hv0)
    as (Hx1 & Hy1 & Hv1).
  destruct (Game.setTubeY _ tape0) as [t1 tape1]. cbn [fst snd] in *.
  exists t0, t1. cbn [Game.tubes Game.rand].
  change (Math_round (48 + 0 * 19)) with 48%Z in Hx0.
  change (Math_round (48 + 1 * 19)) with 67%Z in Hx1.
  cbn [Game.x] in Hx0, Hx1.
  repeat split; try assumption; lia.
Qed.

Lemma update_on_screen (g : Game.Game) :
  Game.on_screen g -> Game.on_screen (Game.update g).
Proof.
  intros Hon. unfold Game.update.
  destruct (Game.gameState g); [exact Hon | | exact Hon].
  destruct (fold_left _ _ _) as [[ts sc] tape].
  unfold Game.on_screen.
  destruct (Qltb (Game.birdY g + Game.birdYSpeed g) 0) eqn:Hneg.
  - destruct (_ <? _)%Z eqn:Hfloor; cbn [Game.birdY].
    + split; vm_compute; congruence.
    + apply Z.ltb_ge in Hfloor. split; [apply Qle_refl | lia].
  - apply Qltb_ge in Hneg.
    destruct (_ <? _)%Z eqn:Hfloor; cbn [Game.birdY].
    + split; vm_compute; congruence.
    + apply Z.ltb_ge in Hfloor. split; [exact Hneg | lia].
Qed.

Lemma jump_on_screen (g : Game.Game) :
  Game.on_screen g -> Game.on_screen (Game.jump g).
Proof.
  destruct (jump_tubes g) as (_ & _ & Hy).
  unfold Game.on_screen. rewrite Hy. tauto.
Qed.

Lemma setTubeY_x (tube : Game.Tube) (tape : list Q) :
  Game.x (fst (Game.setTubeY tube tape)) = Game.x tube.
Proof. unfold Game.setTubeY. destruct (Math_random tape). reflexivity. Qed.

Lemma resetTubes_fields (g : Game.Game) :
  Game.birdY (Game.resetTubes g) = Game.birdY g
  /\ Game.gameState (Game.resetTubes g) = Game.gameState g
  /\ Game.score (Game.resetTubes g) = Game.score g.
Proof.
  unfold Game.resetTubes.
  destruct (Game.setTubeY _ (Game.rand g)) as [t0 tape0].
  destruct (Game.setTubeY _ tape0) as [t1 tape1]. repeat split.
Qed.

Lemma step_game_jumped e action :
  Environment.game (fst (Environment.step e action)) = Game.update (Environment.jumped e action).
Proof. apply step_game. Qed.

Lemma step_state e action :
  Environment.state (snd (Environment.step e action))
  = Environment.getState (fst (Environment.step e action)).
Proof.
  unfold Environment.step.
  destruct (Environment.calculateReward _) as [r e3]. reflexivity.
Qed.

Lemma jumped_well_placed e action :
  Game.well_placed (Environment.game e) -> Game.well_placed (Environment.jumped e action).
Proof.
  intros Hw. unfold Environment.jumped. destruct (Nat.eqb _ _); [apply jump_well_placed |]; exact Hw.
Qed.

Lemma jumped_on_screen e action :
  Game.on_screen (Environment.game e) -> Game.on_screen (Environment.jumped e action).
Proof.
  intros Hw. unfold Environment.jumped. destruct (Nat.eqb _ _); [apply jump_on_screen |]; exact Hw.
Qed.

Lemma jumped_score e action :
  Game.score (Environment.jumped e action) = Game.score (Environment.game e).
Proof. unfold Environment.jumped. destruct (Nat.eqb _ _); [apply jump_score | reflexivity]. Qed.

Lemma step_keeps_sound e action :
  Environment.sound e -> Environment.sound (fst (Environment.step e action)).
Proof.
  intros (Hw & Hon & Hsync). unfold Environment.sound.
  rewrite step_game_jumped.
  split; [apply update_well_placed, jumped_well_placed, Hw |].
  split; [apply update_on_screen, jumped_on_screen, Hon |].
  rewrite <- step_game_jumped. apply step_keeps_sync, Hsync.
Qed.

(** X3: [reset()] of the environment, with draws in [[0, 1)] on the tape
    of the game, starts a game in play with no point, the bird at row 14
    and the two tubes at the columns 48 and 67, in which the tubes are
    well placed, the bird is on the screen and [previousScore] is the
    score; the observation returned is the one of that game. *)
Theorem reset_starts_sound (e : Environment.Env) :
  valid_tape (Game.rand (Environment.game e)) = true ->
  let e' := fst (Environment.reset e) in
  Environment.sound e'
  /\ Game.gameState (Environment.game e') = Game.PLAYING
  /\ Game.score (Environment.game e') = 0%Z
  /\ Game.birdY (Environment.game e') = 14
  /\ map Game.x (Game.tube_list (Environment.game e')) = [48; 67]%Z
  /\ snd (Environment.reset e) = Environment.getState e'.
Proof.
  intros Hv. cbn zeta. unfold Environment.reset. cbn [fst snd Environment.game].
  set (g0 := Game.Build_Game 14 0 Game.F0 (Game.tubes (Environment.game e))
               Game.PLAYING 0 (Game.groundX (Environment.game e))
               (Game.sprites (Environment.game e)) (Game.rand (Environment.game e))).
  change (Game.reset (Environment.game e)) with (Game.resetTubes g0).
  destruct (resetTubes_fields g0) as (Hy & Hst & Hsc).
  pose proof (resetTubes_well_placed g0 Hv) as Hw.
  split; [| split; [exact Hst | split; [exact Hsc | split; [exact Hy | split; [| reflexivity]]]]].
  - split; [exact Hw |]. split.
    + unfold Game.on_screen. cbn [Environment.game]. rewrite Hy.
      split; vm_compute; congruence.
    + cbn [Environment.previousScore Environment.game]. rewrite Hsc. reflexivity.
  - unfold Game.resetTubes, Game.tube_list.
    destruct (Game.setTubeY _ (Game.rand g0)) as [t0 tape0] eqn:H0.
    destruct (Game.setTubeY _ tape0) as [t1 tape1] eqn:H1.
    cbn [Game.tubes fst snd map].
    apply (f_equal fst) in H0. apply (f_equal fst) in H1. cbn [fst] in H0, H1.
    rewrite <- H0, <- H1, !setTubeY_x. reflexivity.
Qed.

Lemma reset_starts_sound_witness :
  let e' := fst (Environment.reset (Environment.new (Game.new [1 # 2; 1 # 4; 3 # 4; 1 # 3]))) in
  Environment.sound e'
  /\ Game.gameState (Environment.game e') = Game.PLAYING
  /\ Game.score (Environment.game e') = 0%Z
  /\ Game.birdY (Environment.game e') = 14
  /\ map Game.x (Game.tube_list (Environment.game e')) = [48; 67]%Z
  /\ snd (Environment.reset (Environment.new (Game.new [1 # 2; 1 # 4; 3 # 4; 1 # 3])))
     = Environment.getState e'.
Proof.
  apply (reset_starts_sound (Environment.new (Game.new [1 # 2; 1 # 4; 3 # 4; 1 # 3]))).
  reflexivity.
Defined.

(** X4: [step()] keeps the environment sound: after a step from a sound
    environment, whatever the action, the two tubes are still 19 columns
    apart between the columns -5 and 67 with their gaps in the play area,
    the three rows of the bird are on the screen, and [previousScore] is
    the score of the game. *)
Theorem step_sound (e : Environment.Env) (action : nat) :
  Environment.sound e -> Environment.sound (fst (Environment.step e action)).
Proof. apply step_keeps_sound. Qed.

(** A sound environment given by its two tubes, by evaluation. *)
Ltac sound_by_evaluation t0 t1 :=
  split; [exists t0, t1; vm_compute; intuition congruence
         | split; [split; vm_compute; congruence | reflexivity]].

Lemma step_sound_witness :
  Environment.sound (fst (Environment.step about_to_score 1)).
Proof.
  apply (step_sound about_to_score 1).
  sound_by_evaluation (Game.Build_Tube 0 (-13)) (Game.Build_Tube 19 (-13)).
Defined.

(** *** Scores, rewards and observations of a step *)

(** X5: a step from a sound environment leaves the score as it is or
    raises it by exactly one: the two tubes never pass the bird in the
    same update. *)
Theorem step_score_by_one (e : Environment.Env) (action : nat) :
  Environment.sound e ->
  let s := Game.score (Environment.game e) in
  let s' := Game.score (Environment.game (fst (Environment.step e action))) in
  s' = s \/ s' = (s + 1)%Z.
Proof.
  intros (Hw & _ & _). cbn zeta. rewrite step_game_jumped.
  rewrite <- (jumped_score e action).
  pose proof (jumped_well_placed e action Hw) as Hw'.
  set (g := Environment.jumped e action) in *.
  unfold Game.update. destruct (Game.gameState g); [left; reflexivity | | left; reflexivity].
  destruct (move_tubes_spec g Hw') as (t0 & t1 & sc & tape & -> & _ & _ & _ & _ & _ & _ & Hsc).
  destruct (Qltb _ 0); destruct (_ <? _)%Z; cbn [Game.score]; lia.
Qed.

Lemma step_score_by_one_witness :
  let s := Game.score (Environment.game about_to_score) in
  let s' := Game.score (Environment.game (fst (Environment.step about_to_score 0))) in
  s' = s \/ s' = (s + 1)%Z.
Proof.
  apply (step_score_by_one about_to_score 0).
  sound_by_evaluation (Game.Build_Tube 0 (-13)) (Game.Build_Tube 19 (-13)).
Defined.

(** In a well placed game the closest tube is ahead of the bird, at most
    48 columns from the left of the screen, and is one of the two. *)
Lemma closest_tube_bounds (g : Game.Game) :
  Game.well_placed g ->
  (0 <= Game.x (Game.getClosestTube g) <= 48)%Z
  /\ (-13 <= Game.y (Game.getClosestTube g) <= -2)%Z.
Proof.
  intros (t0 & t1 & Ht & Hx0 & Hx1 & Hd & Hy0 & Hy1 & _).
  destruct (getClosestTube_spec g) as [Hin Hmin].
  unfold Game.tube_list in Hin, Hmin. rewrite Ht in Hin, Hmin. cbn [fst snd] in Hin, Hmin.
  pose proof (Hmin t0 (or_introl eq_refl)) as H0.
  pose proof (Hmin t1 (or_intror (or_introl eq_refl))) as H1.
  unfold Game.ahead, Game.birdX, Game.tubeWidth in H0, H1.
  set (c := Game.getClosestTube g) in *.
  assert (Hc : c = t0 \/ c = t1) by (destruct Hin as [<- | [<- | []]]; auto).
  destruct (5 <? Game.x t0 + 6)%Z eqn:Ha0; destruct (5 <? Game.x t1 + 6)%Z eqn:Ha1;
    try (destruct (H0 eq_refl) as [Hc0 Hle0]; apply Z.ltb_lt in Hc0);
    try (destruct (H1 eq_refl) as [Hc1 Hle1]; apply Z.ltb_lt in Hc1);
    try apply Z.ltb_lt in Ha0; try apply Z.ltb_lt in Ha1;
    try apply Z.ltb_ge in Ha0; try apply Z.ltb_ge in Ha1;
    destruct Hc as [-> | ->]; lia.
Qed.

Lemma on_screen_below (g : Game.Game) :
  Game.on_screen g -> 0 <= Game.birdY g /\ Game.birdY g < 29.
Proof.
  intros [H0 Hf]. split; [exact H0 |].
  unfold Math_floor, Game.birdHeight, Game.height in Hf.
  eapply Qlt_le_trans; [apply Qlt_floor |].
  change 29 with (inject_Z 29). rewrite <- Zle_Qle. lia.
Qed.

Lemma gap_offset_bounds (g : Game.Game) :
  Game.well_placed g -> Game.on_screen g ->
  - (41 # 2) < Environment.gap_offset g /\ Environment.gap_offset g <= 39 # 2.
Proof.
  intros Hw Hon.
  destruct (closest_tube_bounds g Hw) as [_ [Hlo Hhi]].
  destruct (on_screen_below g Hon) as [Hy0 Hy1].
  unfold Environment.gap_offset.
  set (y := Game.y (Game.getClosestTube g)) in *.
  rewrite Zle_Qle in Hlo, Hhi.
  change (inject_Z (-13)) with (- (13 # 1)) in Hlo.
  change (inject_Z (-2)) with (- (2 # 1)) in Hhi.
  change (inject_Z Environment.tubeUpperHeight) with 17.
  assert (Hg : inject_Z Game.tubeGap / 2 == 6) by reflexivity.
  assert (Hb : inject_Z Game.birdHeight / 2 == 3 # 2) by reflexivity.
  set (gh := inject_Z Game.tubeGap / 2) in *.
  set (bh := inject_Z Game.birdHeight / 2) in *.
  clearbody gh bh y. split; lra.
Qed.

Lemma Math_abs_bound (a b : Q) : - b < a -> a < b -> Math_abs a < b /\ 0 <= Math_abs a.
Proof.
  intros Hlo Hhi. split; [| apply Math_abs_nonneg].
  unfold Math_abs. destruct (Qltb a 0) eqn:Ha; [lra | exact Hhi].
Qed.

(** X6: the reward of a step from a sound environment.  On a step that
    ends the episode it is -10 or -15, whether or not the step scored;
    on any other step it is 0.1, or 5 when the step scored, minus a
    hundredth of the distance to the centre of the gap, and it lies
    above -0.105 and at most at 5. *)
Theorem step_reward_range (e : Environment.Env) (action : nat) :
  Environment.sound e ->
  let res := Environment.step e action in
  let r := Environment.reward (snd res) in
  let d := Environment.gap_offset (Environment.game (fst res)) in
  let scored := (Game.score (Environment.game e)
                 <? Game.score (Environment.game (fst res)))%Z in
  if Environment.done (snd res)
  then r = - 10 \/ r = - 15
  else r = (if scored then 5 else 1 # 10) - Math_abs d * (1 # 100)
       /\ - (21 # 200) < r /\ r <= 5.
Proof.
  intros Hs. cbn zeta.
  pose proof (step_keeps_sound e action Hs) as (Hw' & Hon' & _).
  destruct Hs as (_ & _ & Hsync).
  destruct (step_reward e action) as [Hr Hd]. cbn zeta in Hr, Hd.
  rewrite Hr, Hd. clear Hr Hd.
  set (g := Environment.game (fst (Environment.step e action))) in *.
  destruct (gap_offset_bounds g Hw' Hon') as [Hlo Hhi].
  assert (Habs : - (41 # 2) < Environment.gap_offset g) by exact Hlo.
  destruct (Math_abs_bound (Environment.gap_offset g) (41 # 2)) as [Hm1 Hm0];
    [exact Hlo | lra |].
  unfold Environment.calculateReward.
  cbn [Environment.game Environment.previousScore Environment.lastAction].
  rewrite Hsync.
  set (m := Math_abs (Environment.gap_offset g)) in *. clearbody m.
  destruct (Game.score (Environment.game e) <? Game.score g)%Z;
    destruct (Game.gameState g); cbn [Game.GameState_eqb];
    repeat (destruct (_ && _)); cbn [fst];
    solve [left; reflexivity | right; reflexivity
          | split; [reflexivity | split; lra]].
Qed.

Lemma step_reward_range_witness :
  let res := Environment.step about_to_score 0 in
  let r := Environment.reward (snd res) in
  let d := Environment.gap_offset (Environment.game (fst res)) in
  let scored := (Game.score (Environment.game about_to_score)
                 <? Game.score (Environment.game (fst res)))%Z in
  if Environment.done (snd res)
  then r = - 10 \/ r = - 15
  else r = (if scored then 5 else 1 # 10) - Math_abs d * (1 # 100)
       /\ - (21 # 200) < r /\ r <= 5.
Proof.
  apply (step_reward_range about_to_score 0).
  sound_by_evaluation (Game.Build_Tube 0 (-13)) (Game.Build_Tube 19 (-13)).
Defined.

Lemma getState_bounds (e : Environment.Env) :
  Game.well_placed (Environment.game e) -> Game.on_screen (Environment.game e) ->
  exists v dx dy by_,
    Environment.getState e = [v; dx; dy; by_]
    /\ v == Game.birdYSpeed (Environment.game e) / 2
    /\ - (5 # 32) <= dx /\ dx <= 43 # 32
    /\ - (41 # 64) < dy /\ dy <= 39 # 64
    /\ 0 <= by_ /\ by_ < 29 # 32.
Proof.
  intros Hw Hon. unfold Environment.getState.
  destruct (closest_tube_bounds _ Hw) as [[Hx0 Hx1] _].
  destruct (gap_offset_bounds _ Hw Hon) as [Hd0 Hd1].
  destruct (on_screen_below _ Hon) as [Hy0 Hy1].
  eexists _, _, _, _. split; [reflexivity |].
  rewrite Zle_Qle in Hx0, Hx1.
  change (inject_Z 0) with 0 in Hx0. change (inject_Z 48) with 48 in Hx1.
  change (inject_Z Game.birdX) with 5.
  change (inject_Z Game.width) with 32. change (inject_Z Game.height) with 32.
  set (x := inject_Z (Game.x (Game.getClosestTube (Environment.game e)))) in *.
  set (d := Environment.gap_offset (Environment.game e)) in *.
  set (y := Game.birdY (Environment.game e)) in *.
  clearbody x d y. unfold Qdiv. change (/ 32) with (1 # 32).
  split; [reflexivity |]. repeat split; lra.
Qed.

(** X7: the observation of a step from a sound environment has four
    entries: half the speed of the bird; the distance to the closest
    tube, between -5/32 and 43/32 (that tube is ahead of the bird and at
    most at column 48); the offset from the centre of its gap, above
    -41/64 and at most 39/64; and the height of the bird, at least 0
    and below 29/32. *)
Theorem step_state_bounded (e : Environment.Env) (action : nat) :
  Environment.sound e ->
  let res := Environment.step e action in
  exists v dx dy by_,
    Environment.state (snd res) = [v; dx; dy; by_]
    /\ v == Game.birdYSpeed (Environment.game (fst res)) / 2
    /\ - (5 # 32) <= dx /\ dx <= 43 # 32
    /\ - (41 # 64) < dy /\ dy <= 39 # 64
    /\ 0 <= by_ /\ by_ < 29 # 32.
Proof.
  intros Hs. cbn zeta. rewrite step_state.
  destruct (step_keeps_sound e action Hs) as (Hw & Hon & _).
  apply getState_bounds; assumption.
Qed.

Lemma step_state_bounded_witness :
  let res := Environment.step about_to_land 1 in
  exists v dx dy by_,
    Environment.state (snd res) = [v; dx; dy; by_]
    /\ v == Game.birdYSpeed (Environment.game (fst res)) / 2
    /\ - (5 # 32) <= dx /\ dx <= 43 # 32
    /\ - (41 # 64) < dy /\ dy <= 39 # 64
    /\ 0 <= by_ /\ by_ < 29 # 32.
Proof.
  apply (step_state_bounded about_to_land 1).
  sound_by_evaluation (Game.Build_Tube 37 (-13)) (Game.Build_Tube 56 (-13)).
Defined.

(** X8: a step on a finished game changes nothing in the game, whatever
    the action: the episode is reported as done again, with a reward of
    -10 or -15 and the observation of the unchanged game.  Only
    [reset()] leaves the GAME_OVER state. *)
Theorem step_after_game_over (e : Environment.Env) (action : nat) :
  Game.gameState (Environment.game e) = Game.GAME_OVER ->
  let res := Environment.step e action in
  Environment.game (fst res) = Environment.game e
  /\ Environment.done (snd res) = true
  /\ (Environment.reward (snd res) = - 10 \/ Environment.reward (snd res) = - 15)
  /\ Environment.state (snd res) = Environment.getState e.
Proof.
  intros Hover. cbn zeta.
  assert (Hg : Environment.game (fst (Environment.step e action)) = Environment.game e).
  { rewrite step_game. unfold Game.jump, Game.update.
    destruct (Nat.eqb _ _); rewrite !Hover; reflexivity. }
  destruct (step_reward e action) as [Hr Hd]. cbn zeta in Hr, Hd.
  split; [exact Hg |]. split; [rewrite Hd, Hg, Hover; reflexivity |]. split.
  - rewrite Hr, Hg. unfold Environment.calculateReward.
    cbn [Environment.game Environment.previousScore Environment.lastAction].
    rewrite Hover.
    destruct (_ <? _)%Z; repeat (destruct (_ && _)); cbn [fst];
      solve [left; reflexivity | right; reflexivity].
  - rewrite step_state. unfold Environment.getState. rewrite Hg. reflexivity.
Qed.

Lemma step_after_game_over_witness :
  let res := Environment.step landed 1 in
  Environment.game (fst res) = Environment.game landed
  /\ Environment.done (snd res) = true
  /\ (Environment.reward (snd res) = - 10 \/ Environment.reward (snd res) = - 15)
  /\ Environment.state (snd res) = Environment.getState landed.
Proof. apply (step_after_game_over landed 1). reflexivity. Defined.

(** *** Collisions *)

Lemma Zrange_In (lo hi k : Z) : In k (Zrange lo hi) <-> (lo <= k < hi)%Z.
Proof.
  unfold Zrange. rewrite in_map_iff. split.
  - intros (n & <- & Hn). apply in_seq in Hn. lia.
  - intros Hk. exists (Z.to_nat (k - lo)). split; [lia |]. apply in_seq. lia.
Qed.

Lemma hits_overlap (bm tm : Game.Mask) (by_ : Z) (tube : Game.Tube) :
  Game.hits bm tm by_ tube = true <-> Game.overlap bm tm by_ tube.
Proof.
  unfold Game.hits, Game.overlap.
  destruct ((_ <=? _) || (_ <=? _))%Z eqn:Hempty.
  - split; [discriminate |]. intros (xx & yy & Hx1 & Hx2 & Hy1 & Hy2 & _).
    apply orb_true_iff in Hempty as [Hle | Hle]; apply Z.leb_le in Hle; lia.
  - rewrite existsb_exists. split.
    + intros (yy & Hyy & Hrow). apply existsb_exists in Hrow as (xx & Hxx & Hpix).
      apply Zrange_In in Hyy, Hxx. apply andb_true_iff in Hpix as [Hb Ht].
      exists xx, yy. repeat split; try assumption; lia.
    + intros (xx & yy & Hx1 & Hx2 & Hy1 & Hy2 & Hb & Ht).
      exists yy. split; [apply Zrange_In; lia |].
      apply existsb_exists. exists xx. split; [apply Zrange_In; lia |].
      rewrite Hb, Ht. reflexivity.
Qed.

Lemma checkCollision_spec (g : Game.Game) (s : Game.Sprites) :
  Game.sprites g = Some s ->
  Game.checkCollision g = Game.GAME_OVER
  <-> Game.gameState g = Game.GAME_OVER
      \/ exists tube, In tube (Game.tube_list g)
           /\ Game.overlap (Game.bird_mask s (Game.birdFrame g)) (Game.tubeMask s)
                (Math_floor (Game.birdY g)) tube.
Proof.
  intros Hs. unfold Game.checkCollision. rewrite Hs.
  destruct (existsb _ _) eqn:Hex.
  - split; [intros _; right | reflexivity].
    apply existsb_exists in Hex as (tube & Hin & Hhit).
    exists tube. split; [exact Hin | apply hits_overlap, Hhit].
  - split; [intros Hst; left; exact Hst |].
    intros [Hst | (tube & Hin & Hov)]; [exact Hst |].
    apply hits_overlap in Hov.
    assert (Htrue : existsb (Game.hits (Game.bird_mask s (Game.birdFrame g))
                     (Game.tubeMask s) (Math_floor (Game.birdY g))) (Game.tube_list g) = true)
      by (apply existsb_exists; exists tube; split; assumption).
    congruence.
Qed.

(** X9: [checkCollision()] is exact to the pixel.  With the sprite sheet
    loaded it leaves a game over exactly when the game was over already,
    or when some pixel of the screen is opaque both in the mask of the
    current frame of the bird and in the mask of one of the tubes; before
    the sprite sheet has loaded it never changes the state. *)
Theorem checkCollision_pixel_exact (g : Game.Game) :
  (Game.sprites g = None -> Game.checkCollision g = Game.gameState g)
  /\ (forall s, Game.sprites g = Some s ->
       Game.checkCollision g = Game.GAME_OVER
       <-> Game.gameState g = Game.GAME_OVER
           \/ exists tube, In tube (Game.tube_list g)
                /\ Game.overlap (Game.bird_mask s (Game.birdFrame g)) (Game.tubeMask s)
                     (Math_floor (Game.birdY g)) tube).
Proof.
  split.
  - intros Hs. unfold Game.checkCollision. rewrite Hs. reflexivity.
  - intros s Hs. apply checkCollision_spec, Hs.
Qed.

(** *** The end of the game *)

Lemma move_tubes_length (l ts : list Game.Tube) (sc : Z) (tape : list Q) :
  exists l' sc' tape',
    fold_left Game.move_tube l (ts, sc, tape) = (ts ++ l', sc', tape')
    /\ length l' = length l.
Proof.
  revert ts sc tape. induction l as [|t l IH]; intros ts sc tape; cbn [fold_left].
  - exists [], sc, tape. rewrite app_nil_r. split; reflexivity.
  - unfold Game.move_tube at 2.
    destruct (if (_ <=? _)%Z then _ else _) as [t' tape'].
    destruct (IH (ts ++ [t']) (if (Game.x t' =? Game.birdX - Game.tubeWidth)%Z
                               then (sc + 1)%Z else sc) tape')
      as (l' & sc' & tape'' & -> & Hlen).
    exists (t' :: l'), sc', tape''. rewrite <- app_assoc. cbn [app length].
    split; [reflexivity | lia].
Qed.

(** The test of [update()] for the ground. *)
Lemma ground_test (q : Q) :
  (Game.height - 1 <? Math_floor q + Game.birdHeight)%Z = true <-> 29 <= q.
Proof.
  unfold Math_floor, Game.height, Game.birdHeight. rewrite Z.ltb_lt. split.
  - intros Hf. apply Qle_trans with (inject_Z (Qfloor q)); [| apply Qfloor_le].
    change 29 with (inject_Z 29). rewrite <- Zle_Qle. lia.
  - intros Hq. assert (Hf : (Qfloor (inject_Z 29) <= Qfloor q)%Z)
      by (apply Qfloor_resp_le; exact Hq).
    rewrite Qfloor_Z in Hf. lia.
Qed.

(** X10: an update of a game in play ends it in exactly two cases: the
    bird, moved by its speed, reaches row 29 (its three rows would pass
    the last row of the screen), or, once the sprite sheet has loaded,
    the bird at its new row overlaps, pixel on pixel, one of the tubes at
    their new columns, with the mask of the frame before the update. *)
Theorem update_game_over_iff (g : Game.Game) :
  Game.gameState g = Game.PLAYING ->
  let g' := Game.update g in
  let grounded := 29 <= Game.birdY g + Game.birdYSpeed g in
  (Game.sprites g = None -> Game.gameState g' = Game.GAME_OVER <-> grounded)
  /\ (forall s, Game.sprites g = Some s ->
       Game.gameState g' = Game.GAME_OVER
       <-> grounded
           \/ exists tube, In tube (Game.tube_list g')
                /\ Game.overlap (Game.bird_mask s (Game.birdFrame g)) (Game.tubeMask s)
                     (Math_floor (Game.birdY g')) tube).
Proof.
  intros Hst. cbn zeta. unfold Game.update. rewrite Hst.
  destruct (move_tubes_length (Game.tube_list g) [] (Game.score g) (Game.rand g))
    as (l' & sc & tape & -> & Hlen).
  destruct l' as [|t r]; [cbn in Hlen; discriminate |]. cbn [app Game.as_tubes].
  set (y1 := Game.birdY g + Game.birdYSpeed g).
  assert (Hcases :
    exists y3 st3,
      (let '(y2, v2) := if Qltb y1 0 then (0, 0) else (y1, Game.birdYSpeed g + Game.gravity) in
       let '(y3, st3) :=
         if (Game.height - 1 <? Math_floor y2 + Game.birdHeight)%Z
         then (inject_Z (Game.height - Game.birdHeight - 1), Game.GAME_OVER)
         else (y2, Game.PLAYING) in (y3, st3)) = (y3, st3)
      /\ (st3 = Game.GAME_OVER <-> 29 <= y1) /\ (st3 = Game.GAME_OVER \/ st3 = Game.PLAYING)).
  { destruct (Qltb y1 0) eqn:Hneg.
    - apply Qltb_lt in Hneg. exists 0, Game.PLAYING. split; [reflexivity |].
      split; [| right; reflexivity]. split; [discriminate | intros Hq; lra].
    - destruct (Game.height - 1 <? Math_floor y1 + Game.birdHeight)%Z eqn:Hfl.
      + exists (inject_Z (Game.height - Game.birdHeight - 1)), Game.GAME_OVER.
        split; [reflexivity |]. split; [| left; reflexivity].
        split; [intros _; apply ground_test, Hfl | reflexivity].
      + exists y1, Game.PLAYING. split; [reflexivity |]. split; [| right; reflexivity].
        split; [discriminate |]. intros Hq. apply ground_test in Hq. congruence. }
  destruct Hcases as (y3 & st3 & Heq & Hground & Hst3).
  destruct (Qltb y1 0); destruct (_ <? _)%Z; injection Heq as <- <-;
    cbn [Game.gameState Game.tube_list Game.tubes Game.birdY fst snd];
    (split;
     [ intros Hnone; unfold Game.checkCollision; cbn [Game.sprites];
       rewrite Hnone; cbn [Game.gameState]; exact Hground
     | intros s Hs;
       match goal with |- Game.checkCollision ?g4 = _ <-> _ =>
         rewrite (checkCollision_spec g4 s Hs) end;
       cbn [Game.gameState Game.tube_list Game.tubes Game.birdY Game.birdFrame fst snd];
       rewrite Hground; reflexivity ]).
Qed.

Lemma update_game_over_iff_witness :
  let g' := Game.update in_the_pipe in
  let grounded := 29 <= Game.birdY in_the_pipe + Game.birdYSpeed in_the_pipe in
  (Game.sprites in_the_pipe = None -> Game.gameState g' = Game.GAME_OVER <-> grounded)
  /\ (forall s, Game.sprites in_the_pipe = Some s ->
       Game.gameState g' = Game.GAME_OVER
       <-> grounded
           \/ exists tube, In tube (Game.tube_list g')
                /\ Game.overlap (Game.bird_mask s (Game.birdFrame in_the_pipe))
                     (Game.tubeMask s) (Math_floor (Game.birdY g')) tube).
Proof. apply (update_game_over_iff in_the_pipe). reflexivity. Defined.

(** ** More of the agent *)

(** *** The choice of an action *)

Lemma argMax_from_spec (l : list Q) : forall (best : Q) (besti i : nat) (pre : list Q),
  length pre = i -> pre !! besti = Some best -> Forall (fun u => u <= best) pre ->
  exists v, (pre ++ l) !! argMax_from best besti i l = Some v
            /\ Forall (fun u => u <= v) (pre ++ l).
Proof.
  induction l as [|v r IH]; intros best besti i pre Hlen Hbest Hall; cbn [argMax_from].
  - exists best. rewrite app_nil_r. split; assumption.
  - replace (pre ++ v :: r) with ((pre ++ [v]) ++ r) by (rewrite <- app_assoc; reflexivity).
    destruct (Qltb best v) eqn:Hlt.
    + apply Qltb_lt in Hlt. apply IH.
      * rewrite length_app. cbn. lia.
      * rewrite lookup_app_r by lia. rewrite Hlen, Nat.sub_diag. reflexivity.
      * apply Forall_app. split.
        -- eapply Forall_impl; [exact Hall |]. cbn. intros u Hu. lra.
        -- constructor; [apply Qle_refl | constructor].
    + apply Qltb_ge in Hlt. apply IH.
      * rewrite length_app. cbn. lia.
      * rewrite lookup_app_l; [exact Hbest |]. apply lookup_lt_Some in Hbest. exact Hbest.
      * apply Forall_app. split; [exact Hall |]. constructor; [exact Hlt | constructor].
Qed.

(** The index that [argMax] returns holds a largest entry of the row. *)
Lemma argMax_spec (l : list Q) :
  l <> [] ->
  exists v, l !! argMax l = Some v /\ Forall (fun u => u <= v) l.
Proof.
  destruct l as [|v r]; [congruence |]. intros _. unfold argMax.
  apply (argMax_from_spec r v 0%nat 1%nat [v]); [reflexivity | reflexivity |].
  constructor; [apply Qle_refl | constructor].
Qed.

Section Acting.

Context {E M : Type} `{EnvLike E} `{ValueModel M}.

Implicit Types (a : Agent (E := E) (M := M)).

Lemma act_greedy a (s tape : list Q) :
  valid_tape tape = true -> epsilon a <= 0 ->
  act a s tape = (argMax (predict (model a) s), snd (Math_random tape)).
Proof.
  intros Hv He. unfold act.
  destruct (Math_random_valid tape Hv) as (Hr0 & _ & _).
  destruct (Math_random tape) as [r1 tape1]. cbn [fst snd] in *.
  assert (Hge : Qltb r1 (epsilon a) = false) by (apply Qltb_ge; lra).
  rewrite Hge. reflexivity.
Qed.

Lemma act_explores a (s tape : list Q) :
  valid_tape tape = true -> 1 <= epsilon a ->
  act a s tape
  = (if Qltb (fst (Math_random (snd (Math_random tape)))) (75 # 100) then 0%nat else 1%nat,
     snd (Math_random (snd (Math_random tape)))).
Proof.
  intros Hv He. unfold act.
  destruct (Math_random_valid tape Hv) as (_ & Hr1 & _).
  destruct (Math_random tape) as [r1 tape1]. cbn [fst snd] in *.
  assert (Hlt : Qltb r1 (epsilon a) = true) by (apply Qltb_lt; lra).
  rewrite Hlt. destruct (Math_random tape1) as [r2 tape2]. cbn [fst snd].
  destruct (Qltb r2 _); reflexivity.
Qed.

(** X11: [act] at the two ends of the exploration rate, for draws in
    [[0, 1)].  With [epsilon] at most 0 the agent never explores: one
    draw is used and the action is an index at which the row predicted
    for the state is largest.  With [epsilon] at least 1 it always
    explores: two draws are used and the action is 0 when the second is
    below 0.75, and 1 otherwise. *)
Theorem act_at_the_extremes a (s tape : list Q) :
  valid_tape tape = true ->
  (epsilon a <= 0 -> predict (model a) s <> [] ->
     snd (act a s tape) = snd (Math_random tape)
     /\ exists v, predict (model a) s !! fst (act a s tape) = Some v
                  /\ Forall (fun u => u <= v) (predict (model a) s))
  /\ (1 <= epsilon a ->
        snd (act a s tape) = snd (Math_random (snd (Math_random tape)))
        /\ fst (act a s tape)
           = if Qltb (fst (Math_random (snd (Math_random tape)))) (75 # 100)
             then 0%nat else 1%nat).
Proof.
  intros Hv. split.
  - intros He Hrow. rewrite (act_greedy a s tape Hv He). cbn [fst snd].
    split; [reflexivity | apply argMax_spec, Hrow].
  - intros He. rewrite (act_explores a s tape Hv He). cbn [fst snd].
    split; reflexivity.
Qed.

End Acting.

(** *** The targets of the learning step *)



Section Targets.

Context {E M : Type} `{EnvLike E} `{ValueModel M}.

Implicit Types (a : Agent (E := E) (M := M)).


End Targets.

(** *** The learning step as a whole *)

Section Replaying.

Context {E M : Type} `{EnvLike E} `{ValueModel M}.

Implicit Types (a : Agent (E := E) (M := M)) (w : World (E := E) (M := M)).

(** No event writes the model. *)
Lemma events_keep_model (evs : list Event) : forall a,
  model (fold_left apply_event evs a) = model a.
Proof.
  induction evs as [|ev evs IH]; intros a; cbn [fold_left]; [reflexivity |].
  rewrite IH. destruct ev; reflexivity.
Qed.

Lemma suspend_model w : model (agent (suspend w)) = model (agent w).
Proof.
  unfold suspend. destruct (pending w); [reflexivity |]. apply events_keep_model.
Qed.

(** The loop of [replay] over a batch of stored transitions. *)
Lemma replay_rows_stored a (isDDQN : bool) (mem : list Experience) (ns : list nat) :
  Forall (fun i => (i < length mem)%nat) ns ->
  exists states targets,
    replay_rows a isDDQN (map (fun i => mem !! i) ns) = Ret (states, targets)
    /\ length states = length ns /\ length targets = length ns
    /\ Forall (fun s => exists x, In x mem /\ s = state x) states.
Proof.
  induction 1 as [|i ns Hi _ IH]; cbn [map replay_rows].
  - exists [], []. repeat split. constructor.
  - destruct IH as (states & targets & -> & Hs & Ht & Hall).
    destruct (lookup_lt_is_Some_2 mem i Hi) as [x Hx]. rewrite Hx. cbn.
    exists (state x :: states), (target_row a isDDQN x :: targets).
    cbn [length]. repeat split; try lia.
    constructor; [| exact Hall]. exists x. split; [| reflexivity].
    apply list_elem_of_In. eapply list_elem_of_lookup_2. exact Hx.
Qed.

(** X13: how [replay] ends, for draws in [[0, 1)].  It never throws: no
    sampled entry is [undefined].  When it returns, either the memory
    held fewer transitions than a batch and nothing has changed, or the
    model has been fitted once, on [batchSize] states of stored
    transitions and as many rows of targets.  It hangs only when the
    draws that are left never select [batchSize] different slots. *)
Theorem replay_outcome (isDDQN : bool) w :
  valid_tape (tape w) = true ->
  let a := agent w in
  match replay isDDQN w with
  | Ret w' =>
      if (length (memory a) <? batchSize a)%nat then w' = w
      else exists states targets,
             model (agent w') = update (model a) states targets
             /\ length states = batchSize a /\ length targets = batchSize a
             /\ Forall (fun s => exists x, In x (memory a) /\ s = state x) states
  | Diverges =>
      (batchSize a <= length (memory a))%nat
      /\ (size (slots (length (memory a)) (tape w)) < batchSize a)%nat
  | Throws => False
  end.
Proof.
  intros Hv. cbn zeta. unfold replay.
  destruct (Nat.ltb_spec (length (memory (agent w))) (batchSize (agent w))) as [Hlt | Hge];
    [reflexivity |].
  destruct (sampleBatch (agent w) (batchSize (agent w)) (tape w)) as [[batch tape'] | |] eqn:Hrun.
  - cbn [mbind outcome_bind].
    assert (Hrows : exists ns, Forall (fun i => (i < length (memory (agent w)))%nat) ns
                               /\ length ns = batchSize (agent w)
                               /\ batch = map (fun i => memory (agent w) !! i) ns).
    { destruct (batchSize (agent w)) as [|n] eqn:Hn.
      - unfold sampleBatch in Hrun. rewrite sampleBatch_loop_eq in Hrun.
        rewrite size_empty in Hrun. cbn in Hrun. injection Hrun as <- <-.
        exists []. repeat split. constructor.
      - unfold sampleBatch in Hrun.
        eapply (sampleBatch_loop_sound _ _ _ _ _ _ []) in Hrun;
          [| lia | exact Hv | | cbn; lia].
        + destruct Hrun as (idxs & Hd & Hlen).
          destruct (drawn_positions _ _ _ _ Hd) as (_ & Hl & Hr & Hb). cbn zeta in *.
          eexists. split; [exact Hr |]. split; [lia | exact Hb].
        + repeat split; try constructor; try reflexivity.
          * intros Hi. apply not_elem_of_empty in Hi. contradiction.
          * intros Hi. apply not_elem_of_nil in Hi. contradiction. }
    destruct Hrows as (ns & Hrange & Hlen & ->).
    destruct (replay_rows_stored (agent w) isDDQN _ ns Hrange)
      as (states & targets & -> & Hs & Ht & Hall).
    cbn. exists states, targets. rewrite suspend_model. cbn.
    repeat split; try lia. exact Hall.
  - cbn. split; [exact Hge |].
    destruct (Nat.lt_ge_cases (size (slots (length (memory (agent w))) (tape w)))
                (batchSize (agent w))) as [Hfew | Hmany]; [exact Hfew | exfalso].
    destruct (sampleBatch_loop_ends (tape w) (S (length (tape w))) (memory (agent w))
                (batchSize (agent w)) ∅ []) as [res Hres]; [lia | |].
    + rewrite union_empty_l_L. exact Hmany.
    + unfold sampleBatch in Hrun. congruence.
  - cbn. unfold sampleBatch in Hrun.
    assert (Hno : forall fuel mem size_ (indices : gset Z) batch tp,
              sampleBatch_loop fuel mem size_ indices batch tp <> Throws).
    { clear. induction fuel as [|fuel IH]; intros mem size_ indices batch tp;
        rewrite sampleBatch_loop_eq; destruct (_ <? _)%nat; try discriminate.
      destruct (Math_random tp) as [r t]. cbn zeta.
      destruct (decide _); apply IH. }
    exact (Hno _ _ _ _ _ _ Hrun).
Qed.

Lemma bounded_size (s : gset Z) (n : nat) :
  (forall i, i ∈ s -> (0 <= i < Z.of_nat n)%Z) -> (size s <= n)%nat.
Proof.
  intros Hs.
  assert (Hsub : s ⊆ list_to_set (map Z.of_nat (seq 0 n))).
  { intros i Hi. apply elem_of_list_to_set, list_elem_of_In, in_map_iff.
    exists (Z.to_nat i). specialize (Hs i Hi). split; [lia |]. apply in_seq. lia. }
  apply subseteq_size in Hsub. etransitivity; [exact Hsub |].
  rewrite size_list_to_set.
  - rewrite length_map, length_seq. lia.
  - apply (NoDup_fmap_2 Z.of_nat), NoDup_seq.
Qed.

Lemma sampleBatch_loop_starved fuel : forall mem size_ (indices : gset Z) batch tape,
  (0 < length mem)%nat -> valid_tape tape = true ->
  (forall i, i ∈ indices -> (0 <= i < Z.of_nat (length mem))%Z) ->
  (length mem < size_)%nat ->
  sampleBatch_loop fuel mem size_ indices batch tape = Diverges.
Proof.
  induction fuel as [|fuel IH]; intros mem size_ indices batch tape Hmem Hv Hin Hbig;
    rewrite sampleBatch_loop_eq;
    pose proof (bounded_size indices (length mem) Hin) as Hsz;
    destruct (Nat.ltb_spec (size indices) size_) as [Hlt | Hge]; try lia;
    [reflexivity |].
  destruct (draw_in_range tape mem Hv Hmem) as [Hslot Hv'].
  destruct (Math_random tape) as [r t]. cbn [fst snd] in *. cbn zeta.
  destruct (decide _); apply IH; try assumption.
  intros i Hi. apply elem_of_union in Hi as [Hi | Hi]; [| apply Hin, Hi].
  apply elem_of_singleton in Hi. subst i. exact Hslot.
Qed.

(** X14: [sampleBatch(size)] asked for more transitions than the memory
    holds never returns: with a memory that is not empty and draws in
    [[0, 1)], the loop is still running after any number of iterations,
    since it can only ever collect as many indices as there are slots. *)
Theorem sampleBatch_starves a (n : nat) (tape : list Q) :
  (0 < length (memory a))%nat -> (length (memory a) < n)%nat ->
  valid_tape tape = true ->
  sampleBatch a n tape = Diverges
  /\ forall fuel, sampleBatch_loop fuel (memory a) n ∅ [] tape = Diverges.
Proof.
  intros Hmem Hbig Hv.
  assert (Hall : forall fuel, sampleBatch_loop fuel (memory a) n ∅ [] tape = Diverges).
  { intros fuel. apply sampleBatch_loop_starved; try assumption.
    intros i Hi. apply not_elem_of_empty in Hi. contradiction. }
  split; [apply Hall | exact Hall].
Qed.

End Replaying.

(** *** The statistics *)

Lemma sum_le_bound (l : list Z) (m : Z) : forall acc,
  Forall (fun s => (s <= m)%Z) l ->
  (fold_left Z.add l acc <= acc + m * Z.of_nat (length l))%Z.
Proof.
  induction l as [|s l IH]; intros acc Hall; cbn [fold_left length]; [lia |].
  apply Forall_cons in Hall as [Hs Hall]. specialize (IH (acc + s)%Z Hall). lia.
Qed.

Lemma sum_ge_zero (l : list Z) : forall acc,
  Forall (fun s => (0 <= s)%Z) l -> (acc <= fold_left Z.add l acc)%Z.
Proof.
  induction l as [|s l IH]; intros acc Hall; cbn [fold_left]; [lia |].
  apply Forall_cons in Hall as [Hs Hall]. specialize (IH (acc + s)%Z Hall). lia.
Qed.

Lemma max_upper (l : list Z) :
  (0 <= fold_right Z.max 0 l)%Z
  /\ Forall (fun s => (s <= fold_right Z.max 0 l)%Z) l.
Proof.
  induction l as [|s l [IH0 IH]]; cbn [fold_right]; [split; [lia | constructor] |].
  split; [lia |]. constructor; [lia |].
  eapply Forall_impl; [exact IH |]. cbn. intros u Hu. lia.
Qed.

Lemma slice_last_sub {A : Type} (n : nat) (l : list A) (P : A -> Prop) :
  Forall P l -> Forall P (slice_last n l).
Proof.
  intros Hall. unfold slice_last. rewrite <- (firstn_skipn (length l - n) l) in Hall.
  apply Forall_app in Hall as [_ Hall]. exact Hall.
Qed.

Section Statistics.

Context {E M : Type} `{EnvLike E} `{ValueModel M}.

Implicit Types (a : Agent (E := E) (M := M)).

(** X15: what [getStatistics()] reports.  The best score is at least 0
    and at least every recorded score; the average score, taken over the
    last 100 episodes at most, is at most the best score, and at least 0
    when no recorded score is negative; before the first episode the
    averages are 0, not the result of a division by zero. *)
Theorem getStatistics_bounds a :
  let st := getStatistics a in
  (0 <= maxScore st)%Z
  /\ Forall (fun s => (s <= maxScore st)%Z) (episodeScores a)
  /\ avgScore st <= inject_Z (maxScore st)
  /\ (Forall (fun s => (0 <= s)%Z) (episodeScores a) -> 0 <= avgScore st)
  /\ (episodeScores a = [] -> avgScore st = 0)
  /\ (episodeRewards a = [] -> avgReward st = 0).
Proof.
  cbn zeta. unfold getStatistics. cbn [maxScore avgScore avgReward].
  destruct (max_upper (episodeScores a)) as [Hmax0 Hmax].
  set (mx := fold_right Z.max 0%Z (episodeScores a)) in *.
  set (recent := slice_last 100 (episodeScores a)).
  split; [exact Hmax0 |]. split; [exact Hmax |].
  split; [| split; [| split]].
  - destruct (Nat.ltb_spec 0 (length recent)) as [Hpos | Hzero].
    + apply Qle_shift_div_r.
      * change 0 with (inject_Z 0). rewrite <- Zlt_Qlt. lia.
      * rewrite <- inject_Z_mult, <- Zle_Qle.
        pose proof (sum_le_bound recent mx 0%Z (slice_last_sub 100 _ _ Hmax)). lia.
    + change 0 with (inject_Z 0). rewrite <- Zle_Qle. exact Hmax0.
  - intros Hnonneg. destruct (Nat.ltb_spec 0 (length recent)) as [Hpos | Hzero];
      [| apply Qle_refl].
    apply Qle_shift_div_l.
    + change 0 with (inject_Z 0). rewrite <- Zlt_Qlt. lia.
    + rewrite Qmult_0_l. change 0 with (inject_Z 0). rewrite <- Zle_Qle.
      apply (sum_ge_zero recent 0%Z). apply slice_last_sub, Hnonneg.
  - intros Hnone. subst recent. rewrite Hnone. reflexivity.
  - intros Hnone. rewrite Hnone. reflexivity.
Qed.

End Statistics.

(** *** The counters *)

Section Counters.

Context {E M : Type} `{EnvLike E} `{ValueModel M}.

Implicit Types (a b : Agent (E := E) (M := M)) (w : World (E := E) (M := M)).

Lemma counters_ok_ext a b : counters b = counters a -> counters_ok a -> counters_ok b.
Proof.
  unfold counters, counters_ok. intros [= -> -> -> -> -> -> -> ->]. auto.
Qed.

Lemma event_counters_ok ev a : counters_ok a -> counters_ok (apply_event a ev).
Proof.
  destruct ev; cbn; try (apply counters_ok_ext; reflexivity).
  intros _. unfold counters_ok. cbn. repeat split.
Qed.

Lemma events_counters_ok evs : forall a,
  counters_ok a -> counters_ok (fold_left apply_event evs a).
Proof.
  induction evs as [|ev evs IH]; intros a Ha; cbn; [exact Ha |].
  apply IH, event_counters_ok, Ha.
Qed.

Lemma suspend_counters_ok w : counters_ok (agent w) -> counters_ok (agent (suspend w)).
Proof.
  unfold suspend. destruct (pending w); [auto |]. cbn. apply events_counters_ok.
Qed.

Lemma begin_counters_ok isDDQN w :
  counters_ok (agent w) -> counters_ok (agent (snd (begin isDDQN w))).
Proof.
  intros Hw. unfold begin.
  set (a1 := match updateTarget with Some _ => _ | None => _ end).
  assert (Ha1 : counters_ok a1).
  { subst a1. destruct updateTarget; [| exact Hw].
    destruct (_ && _); [| exact Hw]. revert Hw. apply counters_ok_ext; reflexivity. }
  destruct (currentEpisodeState a1) as [saved|]; [destruct (isPaused a1) |].
  - cbn. revert Ha1. apply counters_ok_ext; reflexivity.
  - destruct (env_reset _) as [e' s0]. cbn. revert Ha1.
    apply counters_ok_ext; reflexivity.
  - destruct (env_reset _) as [e' s0]. cbn. revert Ha1.
    apply counters_ok_ext; reflexivity.
Qed.

(** One more transition and one more step. *)
Lemma remember_counters_ok (x : Experience) a :
  counters_ok a ->
  counters_ok (set_totalSteps (S (totalSteps (remember x a))) (remember x a)).
Proof.
  unfold counters_ok, remember. cbn -[Nat.ltb Nat.min Nat.modulo].
  intros (Hi & Hm & Hr & Hs & Hl).
  repeat split; try assumption; [congruence |].
  destruct (Nat.ltb_spec (length (memory a)) (memoryMaxLen a)) as [Hlt | Hge].
  - rewrite length_app. cbn [length]. lia.
  - destruct (memoryMaxLen a) eqn:Hcap; [lia |]. rewrite length_insert. lia.
Qed.

Lemma tick_counters_ok l w :
  counters_ok (agent w) -> counters_ok (agent (snd (tick l w))).
Proof.
  intros Hw. unfold tick.
  destruct (act _ _ _) as [act_ tape1].
  destruct (env_step _ _) as [e2 result]. cbn [snd].
  match goal with |- context [if ?c then suspend ?w4 else _] =>
    assert (Hw4 : counters_ok (agent w4));
    [| destruct c; [apply suspend_counters_ok |]; exact Hw4] end.
  cbn [agent]. apply remember_counters_ok.
  revert Hw. apply counters_ok_ext; reflexivity.
Qed.

Lemma replay_counters_ok isDDQN w w' :
  counters_ok (agent w) -> replay isDDQN w = Ret w' -> counters_ok (agent w').
Proof.
  intros Hc. unfold replay. destruct (_ <? _)%nat.
  - intros [= <-]. exact Hc.
  - destruct (sampleBatch _ _ _) as [[batch tape'] | |]; cbn; try discriminate.
    destruct (replay_rows _ _ _) as [[states targets] | |]; cbn; try discriminate.
    intros [= <-]. apply suspend_counters_ok. cbn [agent].
    revert Hc. apply counters_ok_ext; reflexivity.
Qed.

Lemma finish_counters_ok isDDQN l w r w' :
  counters_ok (agent w) -> finish isDDQN l w = Ret (r, w') -> counters_ok (agent w').
Proof.
  intros Hc. unfold finish.
  destruct (replay isDDQN _) as [w2 | |] eqn:Hrep; cbn; try discriminate.
  apply replay_counters_ok in Hrep;
    [| cbn [agent with_agent]; revert Hc; apply counters_ok_ext; reflexivity].
  intros [= _ <-]. destruct Hrep as (Hi & Hm & Hr & Hs & Hl).
  unfold counters_ok. cbn. rewrite !length_app. cbn.
  repeat split; try assumption; lia.
Qed.

Lemma move_counters_ok w w' :
  move w w' -> counters_ok (agent w) -> counters_ok (agent w').
Proof.
  intros Hm Hw.
  destruct Hm as [d w | isDDQN w | l w | l w | w | isDDQN l w r w' Hf | ev w].
  - revert Hw. apply counters_ok_ext; reflexivity.
  - apply begin_counters_ok, Hw.
  - apply tick_counters_ok, Hw.
  - revert Hw. apply counters_ok_ext; reflexivity.
  - revert Hw. apply counters_ok_ext; reflexivity.
  - eapply finish_counters_ok; eassumption.
  - apply event_counters_ok, Hw.
Qed.

Lemma train_loop_moves isDDQN n : forall w w',
  train_loop n isDDQN w = Ret w' -> rtc move w w'.
Proof.
  induction n as [|n IH]; intros w w'; cbn [train_loop].
  - intros [= <-]. apply rtc_refl.
  - destruct (isTraining (agent w)); [| intros [= <-]; apply rtc_refl].
    destruct (trainEpisode isDDQN w) as [[r w1] | |] eqn:Hep; cbn; try discriminate.
    apply trainEpisode_moves in Hep.
    destruct r as [r|].
    + intros Hrest. eapply rtc_trans; [exact Hep | apply IH, Hrest].
    + intros [= <-]. exact Hep.
Qed.

Lemma train_moves n isDDQN delay w w' :
  train n isDDQN delay w = Ret w' -> rtc move w w'.
Proof.
  unfold train.
  destruct (train_loop n isDDQN (start_training delay w)) as [w1 | |] eqn:Hloop;
    cbn; try discriminate.
  intros [= <-]. apply train_loop_moves in Hloop.
  eapply rtc_l; [apply (move_start delay) |].
  eapply rtc_trans; [exact Hloop |].
  apply rtc_once. exact (move_event EvStop w1).
Qed.

(** X16: the counters of the agent stay in step through everything that
    training and the page do to it.  From an agent whose write cursor
    counts the steps, whose memory holds as many transitions as steps
    were taken, up to its capacity, and whose arrays of statistics have
    one entry per counted episode (as a new agent and a reset one do),
    this still holds after any sequence of moves of the trainer and of
    events of the page; the memory is never longer than its capacity;
    and a call of [train] that returns is such a sequence. *)
Theorem counters_invariant w :
  counters_ok (agent w) ->
  (forall w', rtc move w w' ->
     counters_ok (agent w')
     /\ (length (memory (agent w')) <= memoryMaxLen (agent w'))%nat)
  /\ (forall n isDDQN delay w', train n isDDQN delay w = Ret w' -> rtc move w w')
  /\ (forall (e : E) (m : M) cfg, counters_ok (new e m cfg))
  /\ (forall a, counters_ok (reset a)).
Proof.
  intros Hw. split; [| split; [| split]].
  - intros w' Hsteps.
    assert (Hok : counters_ok (agent w')).
    { induction Hsteps as [w | w w1 w2 Hm _ IH]; [exact Hw |].
      apply IH. eapply move_counters_ok; eassumption. }
    split; [exact Hok |]. destruct Hok as (_ & Hm & _). lia.
  - intros n isDDQN delay w'. apply train_moves.
  - intros e m cfg. unfold counters_ok. cbn. repeat split.
  - intros a. unfold counters_ok. cbn. repeat split.
Qed.

End Counters.

(** *** The loop of an episode *)

Section Loop.

Context {E M : Type} `{EnvLike E} `{ValueModel M}.

Implicit Types (a : Agent (E := E) (M := M)) (w : World (E := E) (M := M)).

Lemma rollout_exits fuel : forall l w,
  (maxSteps - steps l <= fuel)%nat ->
  match rollout fuel l w with
  | (Some l', w') =>
      loop_cond l' w' = false
      /\ (steps l <= steps l' <= Nat.max (steps l) maxSteps)%nat
  | (None, w') =>
      isTraining (agent w') = false /\ isPaused (agent w') = true
      /\ exists l', currentEpisodeState (agent w') = Some l'
                    /\ ep_done l' = false
                    /\ (steps l < steps l' <= maxSteps)%nat
  end.
Proof.
  induction fuel as [|fuel IH]; intros l w Hfuel; cbn [rollout].
  - split; [| lia]. unfold loop_cond.
    destruct (Nat.ltb_spec (steps l) maxSteps) as [Hlt | Hge]; [lia |].
    rewrite andb_false_r. reflexivity.
  - destruct (loop_cond l w) eqn:Hcond; [| split; [exact Hcond | lia]].
    pose proof (loop_cond_steps l w Hcond) as Hlt.
    pose proof (tick_steps l w) as Hst.
    destruct (tick l w) as [l1 w1]. cbn [fst] in Hst.
    destruct (halted l1 w1) eqn:Hhalt.
    + unfold halted in Hhalt. apply andb_true_iff in Hhalt as [Htr Hd].
      apply negb_true_iff in Htr, Hd. cbn.
      split; [exact Htr |]. split; [reflexivity |].
      exists l1. split; [reflexivity |]. split; [exact Hd | lia].
    + specialize (IH l1 w1). rewrite Hst in IH.
      destruct (rollout fuel l1 w1) as [[l'|] w'].
      * destruct IH as [Hc Hs]; [lia |]. split; [exact Hc | lia].
      * destruct IH as (Htr & Hp & l' & Hsv & Hd & Hs); [lia |].
        split; [exact Htr |]. split; [exact Hp |].
        exists l'. split; [exact Hsv |]. split; [exact Hd | lia].
Qed.

(** X17: the two ways out of the loop of [trainEpisode].  Run from any
    locals in any world, for the [maxSteps - steps] iterations that the
    cap allows, the loop either ends with its condition false (the
    episode is over, the cap is reached or training is off), so that the
    cap never cuts an iteration short, with a count of steps that has not
    gone down and is within the cap unless it started above it; or it
    ends in a pause, with training off, the flag [isPaused] up and the
    saved episode not over, at least one step further and within the
    cap. *)
Theorem rollout_exit l w :
  match rollout (maxSteps - steps l) l w with
  | (Some l', w') =>
      loop_cond l' w' = false
      /\ (steps l <= steps l' <= Nat.max (steps l) maxSteps)%nat
  | (None, w') =>
      isTraining (agent w') = false /\ isPaused (agent w') = true
      /\ exists l', currentEpisodeState (agent w') = Some l'
                    /\ ep_done l' = false
                    /\ (steps l < steps l' <= maxSteps)%nat
  end.
Proof. apply rollout_exits. lia. Qed.

End Loop.

(** *** The count of episodes *)

Section Training.

Context {E M : Type} `{EnvLike E} `{ValueModel M}.

Implicit Types (a : Agent (E := E) (M := M)) (w : World (E := E) (M := M)).

Lemma events_episode_le (evs : list Event) : forall a,
  (episode (fold_left apply_event evs a) <= episode a)%nat.
Proof.
  induction evs as [|ev evs IH]; intros a; cbn [fold_left]; [lia |].
  etransitivity; [apply IH |]. destruct ev; cbn; lia.
Qed.

Lemma suspend_episode_le w : (episode (agent (suspend w)) <= episode (agent w))%nat.
Proof.
  unfold suspend. destruct (pending w); [lia |]. apply events_episode_le.
Qed.

Lemma tick_episode_le l w : (episode (agent (snd (tick l w))) <= episode (agent w))%nat.
Proof.
  unfold tick.
  destruct (act _ _ _) as [act_ tape1].
  destruct (env_step _ _) as [e2 result]. cbn [snd].
  match goal with |- context [if ?c then suspend ?w4 else _] =>
    assert (Hw4 : episode (agent w4) = episode (agent w)) by reflexivity;
    destruct c; [pose proof (suspend_episode_le w4) |]; lia end.
Qed.

Lemma rollout_episode_le fuel : forall l w,
  (episode (agent (snd (rollout fuel l w))) <= episode (agent w))%nat.
Proof.
  induction fuel as [|fuel IH]; intros l w; cbn [rollout]; [cbn; lia |].
  destruct (loop_cond l w); [| cbn; lia].
  pose proof (tick_episode_le l w) as Ht.
  destruct (tick l w) as [l' w']. cbn [snd] in Ht.
  destruct (halted l' w'); [cbn; lia |].
  etransitivity; [apply IH | exact Ht].
Qed.

Lemma begin_episode isDDQN w :
  episode (agent (snd (begin isDDQN w))) = episode (agent w).
Proof.
  destruct (begin_keeps episode isDDQN w) as [He _];
    [constructor; reflexivity | reflexivity | exact He].
Qed.

Lemma replay_episode_le isDDQN w w' :
  replay isDDQN w = Ret w' -> (episode (agent w') <= episode (agent w))%nat.
Proof.
  unfold replay. destruct (_ <? _)%nat.
  - intros [= <-]. lia.
  - destruct (sampleBatch _ _ _) as [[batch tape'] | |]; cbn; try discriminate.
    destruct (replay_rows _ _ _) as [[states targets] | |]; cbn; try discriminate.
    intros [= <-].
    match goal with |- context [suspend ?w1] => pose proof (suspend_episode_le w1) as Hs end.
    exact Hs.
Qed.

Lemma finish_episode_le isDDQN l w r w' :
  finish isDDQN l w = Ret (r, w') -> (episode (agent w') <= S (episode (agent w)))%nat.
Proof.
  unfold finish.
  destruct (replay isDDQN _) as [w2 | |] eqn:Hrep; cbn; try discriminate.
  apply replay_episode_le in Hrep. cbn in Hrep.
  intros [= _ <-]. cbn. lia.
Qed.

Lemma trainEpisode_episode_le isDDQN w r w' :
  trainEpisode isDDQN w = Ret (r, w') ->
  (episode (agent w') <= S (episode (agent w)))%nat.
Proof.
  unfold trainEpisode.
  pose proof (begin_episode isDDQN w) as Hb.
  destruct (begin isDDQN w) as [l0 w0]. cbn [snd] in Hb.
  pose proof (rollout_episode_le (maxSteps - steps l0) l0 w0) as Hr.
  destruct (rollout _ l0 w0) as [[l1|] w1]; cbn [snd] in Hr.
  - destruct (finish isDDQN l1 w1) as [[r' w2] | |] eqn:Hf; cbn; try discriminate.
    intros [= _ <-]. apply finish_episode_le in Hf. lia.
  - intros [= _ <-]. lia.
Qed.

Lemma train_loop_episode_le isDDQN n : forall w w',
  train_loop n isDDQN w = Ret w' -> (episode (agent w') <= episode (agent w) + n)%nat.
Proof.
  induction n as [|n IH]; intros w w'; cbn [train_loop].
  - intros [= <-]. lia.
  - destruct (isTraining (agent w)); [| intros [= <-]; lia].
    destruct (trainEpisode isDDQN w) as [[r w1] | |] eqn:Hep; cbn; try discriminate.
    apply trainEpisode_episode_le in Hep.
    destruct r as [r|].
    + intros Hrest. apply IH in Hrest. lia.
    + intros [= <-]. lia.
Qed.

(** With nothing scheduled, the head, the body and the loop of an
    episode leave the run flag up and the count of episodes alone. *)
Lemma begin_alone isDDQN w :
  pending (snd (begin isDDQN w)) = pending w
  /\ isTraining (agent (snd (begin isDDQN w))) = isTraining (agent w).
Proof.
  unfold begin.
  set (a1 := match updateTarget with Some _ => _ | None => _ end).
  assert (Ha1 : isTraining a1 = isTraining (agent w)).
  { subst a1. destruct updateTarget; [| reflexivity]. destruct (_ && _); reflexivity. }
  destruct (currentEpisodeState a1) as [saved|]; [destruct (isPaused a1) |];
    try destruct (env_reset _) as [e' s0]; cbn; split; try reflexivity; exact Ha1.
Qed.

Lemma tick_alone l w :
  pending w = [] ->
  pending (snd (tick l w)) = []
  /\ isTraining (agent (snd (tick l w))) = isTraining (agent w)
  /\ episode (agent (snd (tick l w))) = episode (agent w).
Proof.
  intros Hp. unfold tick.
  destruct (act _ _ _) as [act_ tape1].
  destruct (env_step _ _) as [e2 result]. cbn [snd].
  match goal with |- context [if ?c then suspend ?w4 else _] =>
    assert (Hs : suspend w4 = w4) by (unfold suspend; cbn [pending]; rewrite Hp; reflexivity);
    rewrite Hs; destruct c end;
    cbn [pending agent]; repeat split; exact Hp.
Qed.

Lemma rollout_alone fuel : forall l w,
  pending w = [] -> isTraining (agent w) = true ->
  exists l', fst (rollout fuel l w) = Some l'
             /\ pending (snd (rollout fuel l w)) = []
             /\ isTraining (agent (snd (rollout fuel l w))) = true
             /\ episode (agent (snd (rollout fuel l w))) = episode (agent w).
Proof.
  induction fuel as [|fuel IH]; intros l w Hp Ht; cbn [rollout].
  - exists l. cbn. auto.
  - destruct (loop_cond l w); [| exists l; cbn; auto].
    destruct (tick_alone l w Hp) as (Hp' & Ht' & He').
    destruct (tick l w) as [l1 w1]. cbn [snd] in *.
    unfold halted. rewrite Ht', Ht. cbn [negb andb].
    destruct (IH l1 w1 Hp') as (l' & Hl & Hp2 & Ht2 & He2); [congruence |].
    exists l'. rewrite He2, He'. auto.
Qed.

Lemma replay_alone isDDQN w w' :
  pending w = [] -> replay isDDQN w = Ret w' ->
  pending w' = [] /\ isTraining (agent w') = isTraining (agent w)
  /\ episode (agent w') = episode (agent w).
Proof.
  intros Hp. unfold replay. destruct (_ <? _)%nat.
  - intros [= <-]. auto.
  - destruct (sampleBatch _ _ _) as [[batch tape'] | |]; cbn; try discriminate.
    destruct (replay_rows _ _ _) as [[states targets] | |]; cbn; try discriminate.
    intros [= <-]. unfold suspend. cbn [pending]. rewrite Hp. cbn. auto.
Qed.

Lemma trainEpisode_alone isDDQN w r w' :
  pending w = [] -> isTraining (agent w) = true ->
  trainEpisode isDDQN w = Ret (r, w') ->
  r <> None /\ pending w' = [] /\ isTraining (agent w') = true
  /\ episode (agent w') = S (episode (agent w)).
Proof.
  intros Hp Ht. unfold trainEpisode.
  destruct (begin_alone isDDQN w) as [Hbp Hbt].
  pose proof (begin_episode isDDQN w) as Hbe.
  destruct (begin isDDQN w) as [l0 w0]. cbn [snd] in *.
  destruct (rollout_alone (maxSteps - steps l0) l0 w0) as (l1 & Hl & Hp1 & Ht1 & He1);
    [congruence | congruence |].
  destruct (rollout _ l0 w0) as [r1 w1]. cbn [fst snd] in *. subst r1.
  unfold finish.
  destruct (replay isDDQN _) as [w2 | |] eqn:Hrep; cbn; try discriminate.
  apply replay_alone in Hrep as (Hp2 & Ht2 & He2); [| exact Hp1].
  cbn in Ht2, He2. intros [= <- <-]. cbn.
  split; [discriminate |]. split; [exact Hp2 |]. split; congruence.
Qed.

Lemma train_loop_alone isDDQN n : forall w w',
  pending w = [] -> isTraining (agent w) = true ->
  train_loop n isDDQN w = Ret w' ->
  episode (agent w') = (episode (agent w) + n)%nat /\ pending w' = [].
Proof.
  induction n as [|n IH]; intros w w' Hp Ht; cbn [train_loop].
  - intros [= <-]. split; [lia | exact Hp].
  - rewrite Ht.
    destruct (trainEpisode isDDQN w) as [[r w1] | |] eqn:Hep; cbn; try discriminate.
    apply trainEpisode_alone in Hep as (Hr & Hp1 & Ht1 & He1); try assumption.
    destruct r as [r|]; [| congruence].
    intros Hrest. apply IH in Hrest as [He Hp']; try assumption.
    split; [lia | exact Hp'].
Qed.

(** X18: what a call of [train] that returns has done to the count of
    episodes.  Training is off when it returns; the count has gone up by
    at most the number of episodes asked for, whatever the page did in
    between; and when the page did nothing, the count has gone up by
    exactly that number. *)
Theorem train_counts_episodes (n : nat) (isDDQN : bool) (delay : nat) w w' :
  train n isDDQN delay w = Ret w' ->
  isTraining (agent w') = false
  /\ (episode (agent w') <= episode (agent w) + n)%nat
  /\ (pending w = [] -> episode (agent w') = (episode (agent w) + n)%nat).
Proof.
  unfold train.
  destruct (train_loop n isDDQN (start_training delay w)) as [w1 | |] eqn:Hloop;
    cbn; try discriminate.
  intros [= <-]. cbn. split; [reflexivity |]. split.
  - apply train_loop_episode_le in Hloop. exact Hloop.
  - intros Hp. apply train_loop_alone in Hloop as [He _]; [exact He | exact Hp | reflexivity].
Qed.

End Training.

(** *** What a call of [trainEpisode] leaves *)

Section Returns.

Context {E M : Type} `{EnvLike E} `{ValueModel M}.

Implicit Types (a : Agent (E := E) (M := M)) (w : World (E := E) (M := M)).

Lemma trainEpisode_boundary isDDQN w r w' :
  trainEpisode isDDQN w = Ret (r, w') -> saved_iff_paused (agent w').
Proof.
  unfold trainEpisode, saved_iff_paused.
  destruct (begin isDDQN w) as [l0 w0].
  pose proof (rollout_exits (maxSteps - steps l0) l0 w0 (Nat.le_refl _)) as Hexit.
  destruct (rollout _ l0 w0) as [[l1|] w1].
  - destruct (finish isDDQN l1 w1) as [[res w2] | |] eqn:Hf; cbn; try discriminate.
    intros [= _ <-]. destruct (finish_cleared _ _ _ _ _ Hf) as [Hs Hp].
    rewrite Hs, Hp. split; [discriminate | congruence].
  - intros [= _ <-]. destruct Hexit as (_ & Hp & l & Hs & _).
    rewrite Hs, Hp. split; [discriminate | reflexivity].
Qed.

Lemma train_loop_boundary isDDQN n : forall w w',
  train_loop n isDDQN w = Ret w' ->
  saved_iff_paused (agent w) -> saved_iff_paused (agent w').
Proof.
  induction n as [|n IH]; intros w w'; cbn [train_loop].
  - intros [= <-]. auto.
  - destruct (isTraining (agent w)); [| intros [= <-]; auto].
    destruct (trainEpisode isDDQN w) as [[r w1] | |] eqn:Hep; cbn; try discriminate.
    apply trainEpisode_boundary in Hep.
    destruct r as [r|].
    + intros Hrest _. eapply IH; eassumption.
    + intros [= <-] _. exact Hep.
Qed.

Lemma train_boundary n isDDQN delay w w' :
  train (S n) isDDQN delay w = Ret w' -> saved_iff_paused (agent w').
Proof.
  unfold train. cbn [train_loop start_training with_agent agent isTraining set_trainingDelay].
  destruct (trainEpisode isDDQN _) as [[r w1] | |] eqn:Hep; cbn; try discriminate.
  apply trainEpisode_boundary in Hep.
  destruct r as [r|].
  - destruct (train_loop n isDDQN w1) as [w2 | |] eqn:Hloop; cbn; try discriminate.
    intros [= <-]. apply train_loop_boundary in Hloop; [| exact Hep]. exact Hloop.
  - intros [= <-]. exact Hep.
Qed.

(** X19: the two ways in which [trainEpisode] returns.  With a result,
    the saved episode is cleared and the flag [isPaused] is down, the
    result carries the new count of episodes, the reward, the score and
    the steps are the last entries of the three arrays of statistics,
    and the entry passed to the log callback repeats them with the
    exploration rate and the size of the memory that the agent is left
    with, under an episode number that is one less than the one of the
    result.  With [null], training is off, the flag is up and an episode
    that is not over is saved. *)
Theorem trainEpisode_returns (isDDQN : bool) w r w' :
  trainEpisode isDDQN w = Ret (r, w') ->
  match r with
  | Some res =>
      cleared (agent w')
      /\ res_episode res = episode (agent w')
      /\ res_score res = env_score (env (agent w'))
      /\ last (episodeRewards (agent w')) = Some (res_reward res)
      /\ last (episodeScores (agent w')) = Some (res_score res)
      /\ last (episodeLengths (agent w')) = Some (res_steps res)
      /\ exists entry rest,
           logged (agent w') = entry :: rest
           /\ S (log_episode entry) = res_episode res
           /\ log_score entry = res_score res
           /\ log_reward entry = res_reward res
           /\ log_steps entry = res_steps res
           /\ log_epsilon entry = epsilon (agent w')
           /\ log_memorySize entry = length (memory (agent w'))
  | None =>
      isTraining (agent w') = false /\ isPaused (agent w') = true
      /\ exists l, currentEpisodeState (agent w') = Some l /\ ep_done l = false
  end.
Proof.
  unfold trainEpisode.
  destruct (begin isDDQN w) as [l0 w0].
  pose proof (rollout_exits (maxSteps - steps l0) l0 w0 (Nat.le_refl _)) as Hexit.
  destruct (rollout _ l0 w0) as [[l1|] w1].
  - destruct (finish isDDQN l1 w1) as [[res w2] | |] eqn:Hf; cbn; try discriminate.
    intros [= <- <-].
    pose proof (finish_cleared _ _ _ _ _ Hf) as Hclear.
    split; [exact Hclear |]. clear Hclear Hexit.
    unfold finish in Hf.
    destruct (replay isDDQN _) as [w3 | |]; cbn in Hf; try discriminate.
    injection Hf as <- <-. cbn.
    rewrite !last_snoc.
    repeat split. eexists _, _. repeat split.
  - intros [= <- <-]. destruct Hexit as (Ht & Hp & l & Hs & Hd & _).
    split; [exact Ht |]. split; [exact Hp |]. exists l. split; assumption.
Qed.

End Returns.

(** ** More of the entry script *)

Section Page.

Context {M : Type} `{ValueModel M}.

(** X20: [stopTraining()] after a training.  When a call of [train] for
    at least one episode has returned, the agent holds a saved episode
    exactly when its flag [isPaused] is up, so that [stopTraining()], run
    on the application that holds this agent, marks the training as
    paused exactly in that case; the run flags of the application and of
    the agent are down. *)
Theorem stopTraining_after_train (app : FlappyBirdDQN.App (M := M))
    (n : nat) (isDDQN : bool) (delay : nat) (w w' : World (E := Environment.Env) (M := M)) :
  train (S n) isDDQN delay w = Ret w' ->
  FlappyBirdDQN.agent app = agent w' ->
  let app' := FlappyBirdDQN.stopTraining false app in
  FlappyBirdDQN.isTrainingPaused app' = isPaused (agent w')
  /\ (FlappyBirdDQN.isTrainingPaused app' = true
      <-> currentEpisodeState (agent w') <> None)
  /\ FlappyBirdDQN.isTraining app' = false
  /\ isTraining (FlappyBirdDQN.agent app') = false.
Proof.
  intros Hrun Happ. cbn zeta.
  pose proof (train_boundary _ _ _ _ _ Hrun) as Hb. unfold saved_iff_paused in Hb.
  unfold FlappyBirdDQN.stopTraining. cbn. rewrite Happ.
  destruct (isPaused (agent w')) eqn:Hp;
    destruct (currentEpisodeState (agent w')) as [l|] eqn:Hs; cbn.
  - repeat split; congruence.
  - exfalso. destruct Hb as [Hb _]. apply Hb; reflexivity.
  - exfalso. destruct Hb as [_ Hb]. discriminate Hb. congruence.
  - repeat split; congruence.
Qed.

End Page.

Lemma Math_min_glb (a b : Q) : Math_min a b <= a /\ Math_min a b <= b.
Proof.
  unfold Math_min. destruct (Qltb b a) eqn:Hba.
  - apply Qltb_lt in Hba. split; [apply Qlt_le_weak, Hba | apply Qle_refl].
  - apply Qltb_ge in Hba. split; [apply Qle_refl | exact Hba].
Qed.

Lemma Math_min_cases (a b : Q) : Math_min a b = a \/ Math_min a b = b.
Proof. unfold Math_min. destruct (Qltb b a); auto. Qed.

Lemma clamp_spec (value : option Q) (min max : Q) :
  min <= max ->
  min <= FlappyBirdDQN.clamp value min max
  /\ FlappyBirdDQN.clamp value min max <= max
  /\ (forall v, value = Some v -> min <= v -> v <= max ->
        FlappyBirdDQN.clamp value min max == v).
Proof.
  intros Hmm. unfold FlappyBirdDQN.clamp. destruct value as [v|].
  - destruct (Math_max_lub min v) as [Hlo Hv].
    destruct (Math_min_glb max (Math_max min v)) as [Hhi Hle].
    split; [| split; [exact Hhi |]].
    + destruct (Math_min_cases max (Math_max min v)) as [-> | ->]; assumption.
    + intros v' [= <-] H1 H2.
      assert (Hmax : Math_max min v == v).
      { unfold Math_max. destruct (Qltb min v) eqn:Hc; [reflexivity |].
        apply Qltb_ge in Hc. lra. }
      unfold Math_min. destruct (Qltb (Math_max min v) max) eqn:Hc; [exact Hmax |].
      apply Qltb_ge in Hc. lra.
  - split; [apply Qle_refl |]. split; [exact Hmm |]. intros v [=].
Qed.

(** X21: [clamp(value, min, max)] with [min] at most [max] returns a
    number between the two bounds, the value itself when it lies between
    them, and [min] for a value that is not finite. *)
Theorem clamp_within (value : option Q) (min max : Q) :
  min <= max ->
  min <= FlappyBirdDQN.clamp value min max
  /\ FlappyBirdDQN.clamp value min max <= max
  /\ (forall v, value = Some v -> min <= v -> v <= max ->
        FlappyBirdDQN.clamp value min max == v)
  /\ FlappyBirdDQN.clamp None min max = min.
Proof.
  intros Hmm. destruct (clamp_spec value min max Hmm) as (H1 & H2 & H3).
  repeat split; assumption.
Qed.

Lemma clamp_within_witness :
  0 <= FlappyBirdDQN.clamp (Some 130) 0 100
  /\ FlappyBirdDQN.clamp (Some 130) 0 100 <= 100
  /\ (forall v, Some 130 = Some v -> 0 <= v -> v <= 100 ->
        FlappyBirdDQN.clamp (Some 130) 0 100 == v)
  /\ FlappyBirdDQN.clamp None 0 100 = 0.
Proof. apply (clamp_within (Some 130) 0 100). vm_compute. discriminate. Defined.

Section Slider.

Context {M : Type} `{ValueModel M}.

(** X22: a move of the epsilon slider leaves the agent with an
    exploration rate between 0 and 1, whatever the field holds: a
    hundredth of the position when the position is between 0 and 100,
    and 0 when the field holds no number.  Nothing else in the agent
    changes. *)
Theorem epsilonSliderInput_rate (value : option Q) (app : FlappyBirdDQN.App (M := M)) :
  let a := FlappyBirdDQN.agent app in
  let a' := FlappyBirdDQN.agent (FlappyBirdDQN.epsilonSliderInput value app) in
  0 <= epsilon a' /\ epsilon a' <= 1
  /\ (forall v, value = Some v -> 0 <= v -> v <= 100 -> epsilon a' == v / 100)
  /\ (value = None -> epsilon a' == 0)
  /\ a' = set_epsilon (epsilon a') a.
Proof.
  cbn zeta. unfold FlappyBirdDQN.epsilonSliderInput. cbn [FlappyBirdDQN.agent].
  cbn [epsilon set_epsilon].
  assert (Hb : 0 <= 100) by (vm_compute; discriminate).
  destruct (clamp_spec value 0 100 Hb) as (H1 & H2 & H3).
  set (c := FlappyBirdDQN.clamp value 0 100) in *.
  split; [apply Qle_shift_div_l; [reflexivity | lra] |].
  split; [apply Qle_shift_div_r; [reflexivity | lra] |].
  split; [| split; [| reflexivity]].
  - intros v Hv Hv0 Hv1. rewrite (H3 v Hv Hv0 Hv1). reflexivity.
  - intros ->. subst c. reflexivity.
Qed.

End Slider.

(** *** The page around a training *)

Lemma catch_up_spec (k : nat) : forall (fuel : nat) (acc : Q) (g : Game.Game),
  (k <= fuel)%nat ->
  inject_Z (Z.of_nat k) * 50 <= acc -> acc < (inject_Z (Z.of_nat k) + 1) * 50 ->
  exists acc',
    FlappyBirdDQN.catch_up fuel acc g = Ret (Nat.iter k Game.update g, acc')
    /\ acc' == acc - 50 * inject_Z (Z.of_nat k) /\ 0 <= acc' /\ acc' < 50.
Proof.
  induction k as [|k IH]; intros fuel acc g Hfuel Hlo Hhi.
  - change (inject_Z (Z.of_nat 0)) with 0 in *.
    exists acc.
    assert (Hstop : Qle_bool FlappyBirdDQN.manualUpdateIntervalMs acc = false).
    { apply not_true_iff_false. rewrite Qle_bool_iff.
      unfold FlappyBirdDQN.manualUpdateIntervalMs. lra. }
    destruct fuel; cbn [FlappyBirdDQN.catch_up]; rewrite Hstop;
      (split; [reflexivity |]); repeat split; lra.
  - destruct fuel as [|fuel]; [lia |].
    rewrite Nat2Z.inj_succ in *. unfold Z.succ in *. rewrite inject_Z_plus in *.
    change (inject_Z 1) with 1 in *.
    set (q := inject_Z (Z.of_nat k)) in *.
    assert (Hgo : Qle_bool FlappyBirdDQN.manualUpdateIntervalMs acc = true).
    { rewrite Qle_bool_iff. unfold FlappyBirdDQN.manualUpdateIntervalMs.
      assert (0 <= q) by (subst q; change 0 with (inject_Z 0); rewrite <- Zle_Qle; lia).
      lra. }
    cbn [FlappyBirdDQN.catch_up]. rewrite Hgo.
    destruct (IH fuel (acc - FlappyBirdDQN.manualUpdateIntervalMs) (Game.update g))
      as (acc' & Hrun & Heq & H0 & H50).
    + lia.
    + fold q. unfold FlappyBirdDQN.manualUpdateIntervalMs. lra.
    + fold q. unfold FlappyBirdDQN.manualUpdateIntervalMs. lra.
    + exists acc'. rewrite Hrun, Nat.iter_succ_r.
      split; [reflexivity |]. fold q in Heq.
      unfold FlappyBirdDQN.manualUpdateIntervalMs in Heq.
      repeat split; lra.
Qed.

Section Manual.

Context {M : Type} `{ValueModel M} (newDDQN : nat -> M).

Implicit Types (app : FlappyBirdDQN.App (M := M)).

(** X23: a frame of the render callback while nobody trains.  With
    training neither on nor paused and the accumulated time not
    negative, the game is updated once per full 50 ms of the time
    accumulated with this frame, and what is carried over to the next
    frame is the rest, below 50 ms. *)
Theorem renderFrame_catches_up app (dt acc : Q) (fuel : nat) :
  FlappyBirdDQN.isTraining app = false ->
  FlappyBirdDQN.isTrainingPaused app = false ->
  0 <= acc + dt ->
  let k := Z.to_nat (Qfloor ((acc + dt) / 50)) in
  (k <= fuel)%nat ->
  exists acc',
    FlappyBirdDQN.renderFrame fuel dt app acc
    = Ret (FlappyBirdDQN.with_game
             (fun _ => Nat.iter k Game.update (FlappyBirdDQN.game_of app)) app, acc')
    /\ acc' == acc + dt - 50 * inject_Z (Z.of_nat k)
    /\ 0 <= acc' /\ acc' < 50.
Proof.
  intros Ht Hp Hpos. cbn zeta. intros Hfuel.
  unfold FlappyBirdDQN.renderFrame. rewrite Ht, Hp. cbn [negb andb].
  set (t := acc + dt) in *.
  assert (Hf0 : (0 <= Qfloor (t / 50))%Z).
  { rewrite <- (Qfloor_Z 0). apply Qfloor_resp_le.
    change (inject_Z 0) with 0. apply Qle_shift_div_l; [reflexivity | lra]. }
  assert (Hk : inject_Z (Z.of_nat (Z.to_nat (Qfloor (t / 50)))) = inject_Z (Qfloor (t / 50)))
    by (rewrite Z2Nat.id by exact Hf0; reflexivity).
  pose proof (Qfloor_le (t / 50)) as Hlo.
  pose proof (Qlt_floor (t / 50)) as Hhi.
  rewrite inject_Z_plus in Hhi. change (inject_Z 1) with 1 in Hhi.
  assert (Hdiv : t / 50 * 50 == t) by (field; discriminate).
  destruct (catch_up_spec (Z.to_nat (Qfloor (t / 50))) fuel t (FlappyBirdDQN.game_of app))
    as (acc' & Hrun & Heq & H0' & H50); [exact Hfuel | | |].
  - rewrite Hk. set (fl := inject_Z (Qfloor (t / 50))) in *. clearbody fl.
    set (d := t / 50) in *. clearbody d. nra.
  - rewrite Hk. set (fl := inject_Z (Qfloor (t / 50))) in *. clearbody fl.
    set (d := t / 50) in *. clearbody d. nra.
  - exists acc'. rewrite Hrun. cbn. repeat split; assumption.
Qed.


(** X25: the key R never resets the training.  The handler returns at
    once while a training is on or paused, so its branch for a paused
    training, the only call of [reset()] from the keyboard, is never
    taken: the key does nothing then, and otherwise it brings the game
    back to HOME and leaves the agent, its memory and its statistics as
    they are. *)
Theorem keyR_never_resets app :
  FlappyBirdDQN.onKey newDDQN FlappyBirdDQN.KeyR app
  = if FlappyBirdDQN.isTraining app || FlappyBirdDQN.isTrainingPaused app
    then app
    else FlappyBirdDQN.with_game Game.initializeGame app.
Proof.
  unfold FlappyBirdDQN.onKey.
  destruct (FlappyBirdDQN.isTraining app), (FlappyBirdDQN.isTrainingPaused app);
    reflexivity.
Qed.

End Manual.

(** ** The statements above at concrete inputs *)

Lemma act_at_the_extremes_witness :
  let a := agent negative_rates in
  let s := [0; 0; 0; 0] in
  let tape := [1 # 2] in
  (epsilon a <= 0 -> predict (model a) s <> [] ->
     snd (act a s tape) = snd (Math_random tape)
     /\ exists v, predict (model a) s !! fst (act a s tape) = Some v
                  /\ Forall (fun u => u <= v) (predict (model a) s))
  /\ (1 <= epsilon a ->
        snd (act a s tape) = snd (Math_random (snd (Math_random tape)))
        /\ fst (act a s tape)
           = if Qltb (fst (Math_random (snd (Math_random tape)))) (75 # 100)
             then 0%nat else 1%nat).
Proof.
  apply (act_at_the_extremes (agent negative_rates) [0; 0; 0; 0] [1 # 2]). reflexivity.
Defined.

Lemma replay_outcome_witness :
  let a := agent about_to_learn in
  match replay true about_to_learn with
  | Ret w' =>
      if (length (memory a) <? batchSize a)%nat then w' = about_to_learn
      else exists states targets,
             model (agent w') = update (model a) states targets
             /\ length states = batchSize a /\ length targets = batchSize a
             /\ Forall (fun s => exists x, In x (memory a) /\ s = state x) states
  | Diverges =>
      (batchSize a <= length (memory a))%nat
      /\ (size (slots (length (memory a)) (tape about_to_learn)) < batchSize a)%nat
  | Throws => False
  end.
Proof. apply (replay_outcome true about_to_learn). reflexivity. Defined.

Lemma sampleBatch_starves_witness :
  sampleBatch three_remembered 4 two_draws = Diverges
  /\ forall fuel, sampleBatch_loop fuel (memory three_remembered) 4 ∅ [] two_draws = Diverges.
Proof.
  apply (sampleBatch_starves three_remembered 4 two_draws);
    [vm_compute; lia | vm_compute; lia | reflexivity].
Defined.

Lemma counters_invariant_witness :
  (forall w', rtc move idle_world w' ->
     counters_ok (agent w')
     /\ (length (memory (agent w')) <= memoryMaxLen (agent w'))%nat)
  /\ (forall n isDDQN delay w', train n isDDQN delay idle_world = Ret w' -> rtc move idle_world w')
  /\ (forall (e : Environment.Env) (m : RowModel) cfg, counters_ok (new e m cfg))
  /\ (forall a : Agent (E := Environment.Env) (M := RowModel), counters_ok (reset a)).
Proof.
  apply (counters_invariant idle_world). vm_compute. repeat split.
Defined.

Lemma train_counts_episodes_witness :
  isTraining (agent trained_once) = false
  /\ (episode (agent trained_once) <= episode (agent idle_world) + 1)%nat
  /\ (pending idle_world = [] ->
      episode (agent trained_once) = (episode (agent idle_world) + 1)%nat).
Proof.
  apply (train_counts_episodes 1 true 50 idle_world trained_once).
  vm_compute. reflexivity.
Defined.

Lemma trainEpisode_returns_witness :
  match undisturbed_result with
  | Some res =>
      cleared (agent undisturbed_after)
      /\ res_episode res = episode (agent undisturbed_after)
      /\ res_score res = env_score (env (agent undisturbed_after))
      /\ last (episodeRewards (agent undisturbed_after)) = Some (res_reward res)
      /\ last (episodeScores (agent undisturbed_after)) = Some (res_score res)
      /\ last (episodeLengths (agent undisturbed_after)) = Some (res_steps res)
      /\ exists entry rest,
           logged (agent undisturbed_after) = entry :: rest
           /\ S (log_episode entry) = res_episode res
           /\ log_score entry = res_score res
           /\ log_reward entry = res_reward res
           /\ log_steps entry = res_steps res
           /\ log_epsilon entry = epsilon (agent undisturbed_after)
           /\ log_memorySize entry = length (memory (agent undisturbed_after))
  | None =>
      isTraining (agent undisturbed_after) = false
      /\ isPaused (agent undisturbed_after) = true
      /\ exists l, currentEpisodeState (agent undisturbed_after) = Some l
                   /\ ep_done l = false
  end.
Proof.
  apply (trainEpisode_returns true undisturbed undisturbed_result undisturbed_after).
  vm_compute. reflexivity.
Defined.

Lemma stopTraining_after_train_witness :
  let app' := FlappyBirdDQN.stopTraining false page_after_training in
  FlappyBirdDQN.isTrainingPaused app' = isPaused (agent trained_once)
  /\ (FlappyBirdDQN.isTrainingPaused app' = true
      <-> currentEpisodeState (agent trained_once) <> None)
  /\ FlappyBirdDQN.isTraining app' = false
  /\ isTraining (FlappyBirdDQN.agent app') = false.
Proof.
  apply (stopTraining_after_train page_after_training 0 true 50 idle_world trained_once);
    [vm_compute; reflexivity | reflexivity].
Defined.

Lemma renderFrame_catches_up_witness :
  exists acc',
    FlappyBirdDQN.renderFrame 2 120 idle_page 0
    = Ret (FlappyBirdDQN.with_game
             (fun _ => Nat.iter (Z.to_nat (Qfloor ((0 + 120) / 50))) Game.update
                         (FlappyBirdDQN.game_of idle_page)) idle_page, acc')
    /\ acc' == 0 + 120 - 50 * inject_Z (Z.of_nat (Z.to_nat (Qfloor ((0 + 120) / 50))))
    /\ 0 <= acc' /\ acc' < 50.
Proof.
  apply (renderFrame_catches_up idle_page 120 0 2);
    [reflexivity | reflexivity | vm_compute; discriminate | vm_compute; lia].
Defined.

